(** * Shofar: recognition pipeline, recognizer registry and model store

    A shallow embedding of the Go sources

      - [internal/models/registry.go], [internal/models/manager.go]
      - [internal/speech/factory.go] (with the Whisper and Vosk recognizers)
      - [internal/audio] (the recorder), [internal/llm] ([CorrectText])
      - [internal/app/app.go] ([stopRecording], [onHotkeyPress], the cancel
        callback), with [Window.Show], [Hide], [SetResult], [ClearResult]
      - [internal/notify], [internal/config] ([String], [load], [save]),
        [internal/hotkey] ([listen])

    Stateful code is written with explicit state passing; everything the
    operating system, the network or a native engine decides is an input
    (an "oracle" field of an environment record), so that every function
    below is total and can be evaluated on concrete inputs. *)

From Stdlib Require Import ZArith Lia Bool SpecFloat Sorted.
From stdpp Require Import base option list sorting gmap strings.

Local Open Scope Z_scope.

(** ** Machine integers *)

(** Go's [int64]: additions wrap around modulo [2^64]. *)
Definition min_int64 : Z := - 2 ^ 63.
Definition max_int64 : Z := 2 ^ 63 - 1.
Definition wrap64 (z : Z) : Z := (z + 2 ^ 63) mod 2 ^ 64 - 2 ^ 63.
Definition in_int64 (z : Z) : Prop := min_int64 <= z <= max_int64.

(** ** Paths and the file system *)

(** A rooted path is the list of its components, root first; the paths
    of the program are rooted ([NewManager] starts from the path of the
    executable, [os.CreateTemp] from the temp directory). *)
Definition path : Type := list string.

(** A component that names something: not empty, not ["."], not [".."]. *)
Definition is_name (c : string) : bool :=
  negb (String.eqb c "" || String.eqb c "." || String.eqb c "..").

(** [filepath.Clean] on a rooted path: empty components and ["."] go
    away, [".."] takes the component before it with it, and the root is
    its own parent. *)
Definition clean_step (acc : path) (c : string) : path :=
  if String.eqb c "" || String.eqb c "." then acc
  else if String.eqb c ".." then removelast acc
  else acc ++ [c].
Definition filepath_Clean (p : path) : path := foldl clean_step [] p.

(** [filepath.Join]: the elements are put together and the result is
    cleaned. [filepath.Dir] of a cleaned path drops its last component. *)
Definition filepath_Join (dir : path) (elems : list string) : path :=
  filepath_Clean (dir ++ elems).
Definition filepath_Dir (p : path) : path := removelast p.

(** [p + suffix] on the textual path: the suffix lands on the last component. *)
Definition path_add_suffix (p : path) (suffix : string) : path :=
  match last p with
  | Some name => removelast p ++ [name +:+ suffix]
  | None => [suffix]
  end.

Inductive node : Type :=
  | File (content : list Byte.byte)
  | Dir.

(** The file system: what lives at each path.  The root [[]] is a
    directory that is not stored. *)
Abbreviation filesystem := (gmap path node).

Definition is_dir (fs : filesystem) (p : path) : bool :=
  match p with
  | [] => true
  | _ => match fs !! p with Some Dir => true | _ => false end
  end.

Definition is_file (fs : filesystem) (p : path) : bool :=
  match fs !! p with Some (File _) => true | _ => false end.

(** [os.FileInfo], as far as the code looks at it. *)
Record FileInfo : Type := { fi_IsDir : bool; fi_Size : Z }.

(** [Size()] of a directory is system dependent: [dir_size] is that value. *)
Definition os_Stat (dir_size : Z) (fs : filesystem) (p : path) : option FileInfo :=
  match fs !! p with
  | Some (File c) => Some {| fi_IsDir := false; fi_Size := Z.of_nat (length c) |}
  | Some Dir => Some {| fi_IsDir := true; fi_Size := dir_size |}
  | None => None
  end.

(** [os.Create] / [os.OpenFile(O_WRONLY|O_CREATE|O_TRUNC)]: the parent must
    be a directory and the target must not be one; the file is emptied. *)
Definition os_Create (fs : filesystem) (p : path) : option filesystem :=
  match p with
  | [] => None
  | _ =>
    if is_dir fs (filepath_Dir p) && negb (is_dir fs p)
    then Some (<[p := File []]> fs) else None
  end.

(** [Write] on an open [os.File]: bytes are appended to the file. *)
Definition file_Write (fs : filesystem) (p : path) (bs : list Byte.byte) : filesystem :=
  match fs !! p with
  | Some (File c) => <[p := File (c ++ bs)]> fs
  | _ => fs
  end.

(** Nothing lives below [p]. *)
Definition is_empty_dir (fs : filesystem) (p : path) : bool :=
  forallb (fun kv => negb (bool_decide (p `prefix_of` kv.1)) || bool_decide (kv.1 = p))
    (map_to_list fs).

(** [os.Remove]: a file or an empty directory goes away; a missing path
    or a directory that is not empty is an (ignored) error. *)
Definition os_Remove (fs : filesystem) (p : path) : filesystem :=
  match fs !! p with
  | Some (File _) => delete p fs
  | Some Dir => if is_empty_dir fs p then delete p fs else fs
  | None => fs
  end.

(** [os.Rename] of a regular file: the target must not be a directory and
    its parent must be one; the move is atomic. *)
Definition os_Rename (fs : filesystem) (src dst : path) : option filesystem :=
  match fs !! src with
  | Some (File c) =>
    if is_dir fs (filepath_Dir dst) && negb (is_dir fs dst)
    then Some (<[dst := File c]> (delete src fs)) else None
  | _ => None
  end.

(** All non-empty prefixes of a path, shortest first. *)
Fixpoint prefixes_from (done : path) (rest : path) : list path :=
  match rest with
  | [] => []
  | c :: rest' => (done ++ [c]) :: prefixes_from (done ++ [c]) rest'
  end.
Definition prefixes (p : path) : list path := prefixes_from [] p.

(** [os.MkdirAll]: fails when a prefix is a regular file, otherwise every
    missing prefix becomes a directory. *)
Definition os_MkdirAll (fs : filesystem) (p : path) : option filesystem :=
  if existsb (is_file fs) (prefixes p) then None
  else Some (foldl (fun acc q => <[q := Dir]> acc) fs (prefixes p)).

(** [os.RemoveAll]: the path and everything below it. *)
Definition os_RemoveAll (fs : filesystem) (p : path) : filesystem :=
  filter (fun kv => negb (bool_decide (p `prefix_of` kv.1)) = true) fs.

(** ** Package [models]: the registry ([registry.go]) *)

Module models.

(** [type Engine string] *)
Definition Engine : Type := string.
Definition EngineWhisper : Engine := "whisper".
Definition EngineVosk : Engine := "vosk".
Definition EngineLLM : Engine := "llm".

Record ModelInfo : Type := {
  ID : string;
  Engine_ : Engine;
  Name : string;
  Filename : string;
  URL : string;
  Size : Z;
  IsZip : bool
}.

Definition MiB (n : Z) : Z := n * 1024 * 1024.

Definition hf_whisper (file : string) : string :=
  "https://huggingface.co/ggerganov/whisper.cpp/resolve/main/" +:+ file.

Definition Registry : list ModelInfo := [
  {| ID := "whisper-tiny-q5"; Engine_ := EngineWhisper; Name := "Tiny Q5";
     Filename := "ggml-tiny-q5_1.bin"; URL := hf_whisper "ggml-tiny-q5_1.bin";
     Size := MiB 32; IsZip := false |};
  {| ID := "whisper-base-q5"; Engine_ := EngineWhisper; Name := "Base Q5";
     Filename := "ggml-base-q5_1.bin"; URL := hf_whisper "ggml-base-q5_1.bin";
     Size := MiB 60; IsZip := false |};
  {| ID := "whisper-small-q5"; Engine_ := EngineWhisper; Name := "Small Q5";
     Filename := "ggml-small-q5_1.bin"; URL := hf_whisper "ggml-small-q5_1.bin";
     Size := MiB 190; IsZip := false |};
  {| ID := "whisper-turbo"; Engine_ := EngineWhisper; Name := "Large v3 Turbo";
     Filename := "ggml-large-v3-turbo-q5_0.bin";
     URL := hf_whisper "ggml-large-v3-turbo-q5_0.bin";
     Size := MiB 574; IsZip := false |};
  {| ID := "whisper-tiny"; Engine_ := EngineWhisper; Name := "Tiny";
     Filename := "ggml-tiny.bin"; URL := hf_whisper "ggml-tiny.bin";
     Size := MiB 75; IsZip := false |};
  {| ID := "whisper-base"; Engine_ := EngineWhisper; Name := "Base";
     Filename := "ggml-base.bin"; URL := hf_whisper "ggml-base.bin";
     Size := MiB 142; IsZip := false |};
  {| ID := "whisper-small"; Engine_ := EngineWhisper; Name := "Small";
     Filename := "ggml-small.bin"; URL := hf_whisper "ggml-small.bin";
     Size := MiB 466; IsZip := false |};
  {| ID := "vosk-ru-small"; Engine_ := EngineVosk; Name := "Russian Small";
     Filename := "vosk-model-small-ru-0.22";
     URL := "https://alphacephei.com/vosk/models/vosk-model-small-ru-0.22.zip";
     Size := MiB 45; IsZip := true |};
  {| ID := "vosk-ru"; Engine_ := EngineVosk; Name := "Russian Large";
     Filename := "vosk-model-ru-0.42";
     URL := "https://alphacephei.com/vosk/models/vosk-model-ru-0.42.zip";
     Size := MiB 1800; IsZip := true |};
  {| ID := "llm-qwen2.5-0.5b"; Engine_ := EngineLLM; Name := "Qwen2.5 0.5B";
     Filename := "qwen2.5-0.5b-instruct-q4_k_m.gguf";
     URL := "https://huggingface.co/Qwen/Qwen2.5-0.5B-Instruct-GGUF/resolve/main/qwen2.5-0.5b-instruct-q4_k_m.gguf";
     Size := MiB 386; IsZip := false |};
  {| ID := "llm-qwen2.5-1.5b"; Engine_ := EngineLLM; Name := "Qwen2.5 1.5B";
     Filename := "qwen2.5-1.5b-instruct-q4_k_m.gguf";
     URL := "https://huggingface.co/Qwen/Qwen2.5-1.5B-Instruct-GGUF/resolve/main/qwen2.5-1.5b-instruct-q4_k_m.gguf";
     Size := MiB 987; IsZip := false |};
  {| ID := "llm-qwen2.5-3b"; Engine_ := EngineLLM; Name := "Qwen2.5 3B";
     Filename := "qwen2.5-3b-instruct-q4_k_m.gguf";
     URL := "https://huggingface.co/Qwen/Qwen2.5-3B-Instruct-GGUF/resolve/main/qwen2.5-3b-instruct-q4_k_m.gguf";
     Size := MiB 1900; IsZip := false |}
].

Definition DefaultModelID : string := "whisper-tiny-q5".

(** [GetModel]: the first registry entry with that id. *)
Definition GetModel (id : string) : option ModelInfo :=
  List.find (fun m => String.eqb (ID m) id) Registry.

(** ** Package [models]: the manager ([manager.go]) *)

Record Progress : Type := {
  ModelID : string;
  Downloaded : Z;
  Total : Z;
  Done : bool
}.

Record Manager : Type := { modelsDir : path }.

Definition GetModelPath (m : Manager) (info : ModelInfo) : path :=
  if String.eqb (Engine_ info) EngineWhisper
  then filepath_Join (modelsDir m) ["whisper"; Filename info]
  else if String.eqb (Engine_ info) EngineVosk
  then filepath_Join (modelsDir m) ["vosk"; Filename info]
  else if String.eqb (Engine_ info) EngineLLM
  then filepath_Join (modelsDir m) ["llm"; Filename info]
  else filepath_Join (modelsDir m) [Filename info].

(** [IsDownloaded]: an archive model needs a directory at its path, a
    single-file model a file of non-zero size. *)
Definition IsDownloaded (dir_size : Z) (m : Manager) (fs : filesystem)
    (info : ModelInfo) : bool :=
  match os_Stat dir_size fs (GetModelPath m info) with
  | None => false
  | Some stat => if IsZip info then fi_IsDir stat else 0 <? fi_Size stat
  end.

Definition ListDownloaded (dir_size : Z) (m : Manager) (fs : filesystem)
    : list ModelInfo :=
  List.filter (IsDownloaded dir_size m fs) Registry.

(** Errors of [Download], by the place that returns them. *)
Inductive error : Type :=
  | ErrCreateTemp
  | ErrNewRequest
  | ErrDownload            (* "ошибка скачивания": [http.DefaultClient.Do] failed *)
  | ErrHTTPStatus (code : Z)
  | ErrCreate
  | ErrCtx                 (* [ctx.Err()] *)
  | ErrWrite
  | ErrRead
  | ErrRename
  | ErrUnzip               (* "ошибка распаковки" *).

(** One entry of a zip archive as [archive/zip] presents it: its name
    (components, relative), whether it is a directory, and what reading it
    gives: the bytes [io.Copy] writes, and whether opening or copying
    fails. *)
Inductive entry_read : Type := ReadOk | OpenFails | CopyFails.
Record zip_entry : Type := {
  ze_Name : path;
  ze_IsDir : bool;
  ze_data : list Byte.byte;
  ze_read : entry_read
}.

(** How a response body ends: [io.EOF] or another read error. *)
Inductive read_end : Type := EOF | ReadErr.

(** The body as the sequence of results of [resp.Body.Read(buf)]: chunks
    returned with a nil error, then one last chunk returned with the
    terminal error. *)
Record body : Type := {
  chunks : list (list Byte.byte);
  last_chunk : list Byte.byte;
  ending : read_end
}.

Record response : Type := {
  StatusCode : Z;
  ContentLength : Z;
  Body : body
}.

(** Everything outside the program that a download depends on.  The
    indices count loop iterations of the transfer loop, from 0. *)
Record env : Type := {
  dir_size : Z;                       (* [Size()] of a directory *)
  new_request_ok : bool;              (* [http.NewRequestWithContext] *)
  http_Do : option response;          (* [http.DefaultClient.Do] *)
  ctx_done : nat -> bool;             (* is [ctx.Done()] closed at iteration i *)
  write_ok : nat -> bool;             (* does the i-th [Write] succeed *)
  sink_ready : nat -> bool;           (* can the sink take the i-th update now *)
  temp_zip : option path;             (* the file [os.CreateTemp] creates *)
  zip_OpenReader : list Byte.byte -> option (list zip_entry)
}.

(** The state a download changes: the file system, the updates delivered
    to the progress sink (oldest first) and the URLs requested. *)
Record world : Type := {
  w_fs : filesystem;
  w_sent : list Progress;
  w_requests : list string
}.

Definition set_fs (w : world) (fs : filesystem) : world :=
  {| w_fs := fs; w_sent := w_sent w; w_requests := w_requests w |}.
Definition deliver (w : world) (p : Progress) : world :=
  {| w_fs := w_fs w; w_sent := w_sent w ++ [p]; w_requests := w_requests w |}.
Definition request (w : world) (url : string) : world :=
  {| w_fs := w_fs w; w_sent := w_sent w; w_requests := w_requests w ++ [url] |}.

(** [progress <- p] (blocking: the receiver takes it) when the channel is
    not nil. *)
Definition send (progress : bool) (w : world) (p : Progress) : world :=
  if progress then deliver w p else w.

(** [select { case progress <- p: default: }]: dropped when the sink is
    not ready. *)
Definition try_send (e : env) (progress : bool) (i : nat) (w : world)
    (p : Progress) : world :=
  if progress && sink_ready e i then deliver w p else w.

Section Download.

Context (e : env) (m : Manager) (info : ModelInfo).
(** [progress != nil] *)
Context (progress : bool).

(** [total := resp.ContentLength; if total <= 0 { total = info.Size }] *)
Definition total_of (resp : response) : Z :=
  if ContentLength resp <=? 0 then Size info else ContentLength resp.

(** The part of one loop iteration after [Read] returned [chunk]:
    [if n > 0 { Write; downloaded += n; non-blocking progress update }]. *)
Definition consume (tmp : path) (total : Z) (i : nat) (chunk : list Byte.byte)
    (downloaded : Z) (w : world) : world * Z * option error :=
  if 0 <? Z.of_nat (length chunk) then
    if write_ok e i then
      let downloaded' := wrap64 (downloaded + Z.of_nat (length chunk)) in
      let w1 := set_fs w (file_Write (w_fs w) tmp chunk) in
      (try_send e progress i w1
         {| ModelID := ID info; Downloaded := downloaded'; Total := total;
            Done := false |},
       downloaded', None)
    else (w, downloaded, Some ErrWrite)
  else (w, downloaded, None).

(** The transfer loop of [downloadFile] and of [downloadAndUnzip] (the
    same loop in both): poll the context, read, consume, stop at [io.EOF]
    or at an error.  [cs] are the reads still to come before the last one. *)
Fixpoint transfer (b : body) (tmp : path) (total : Z) (cs : list (list Byte.byte))
    (i : nat) (downloaded : Z) (w : world) : world * option error :=
  if ctx_done e i then (w, Some ErrCtx) else
  match cs with
  | c :: cs' =>
    match consume tmp total i c downloaded w with
    | (w', _, Some err) => (w', Some err)
    | (w', downloaded', None) => transfer b tmp total cs' (S i) downloaded' w'
    end
  | [] =>
    match consume tmp total i (last_chunk b) downloaded w with
    | (w', _, Some err) => (w', Some err)
    | (w', _, None) =>
      match ending b with
      | EOF => (w', None)
      | ReadErr => (w', Some ErrRead)
      end
    end
  end.

(** [downloadFile] up to its deferred calls. *)
Definition downloadFile_body (destPath tmpPath : path) (w : world)
    : world * option error :=
  if negb (new_request_ok e) then (w, Some ErrNewRequest) else
  let w := request w (URL info) in
  match http_Do e with
  | None => (w, Some ErrDownload)
  | Some resp =>
    if negb (StatusCode resp =? 200) then (w, Some (ErrHTTPStatus (StatusCode resp)))
    else
      let total := total_of resp in
      match os_Create (w_fs w) tmpPath with
      | None => (w, Some ErrCreate)
      | Some fs1 =>
        match transfer (Body resp) tmpPath total (chunks (Body resp)) 0 0 (set_fs w fs1) with
        | (w2, Some err) => (w2, Some err)
        | (w2, None) =>
          match os_Rename (w_fs w2) tmpPath destPath with
          | None => (w2, Some ErrRename)
          | Some fs3 =>
            (send progress (set_fs w2 fs3)
               {| ModelID := ID info; Downloaded := total; Total := total;
                  Done := true |},
             None)
          end
        end
      end
  end.

(** [downloadFile]: stream to [destPath + ".tmp"], rename on success;
    [defer os.Remove(tmpPath)] runs on every way out. *)
Definition downloadFile (w : world) : world * option error :=
  let destPath := GetModelPath m info in
  let tmpPath := path_add_suffix destPath ".tmp" in
  let '(w', r) := downloadFile_body destPath tmpPath w in
  (set_fs w' (os_Remove (w_fs w') tmpPath), r).

(** [unzip]'s loop over the archive's entries, extracting under
    [destDir]; [false] is a returned error. *)
Fixpoint unzip_entries (destDir : path) (entries : list zip_entry)
    (fs : filesystem) : filesystem * bool :=
  match entries with
  | [] => (fs, true)
  | f :: rest =>
    let fpath := filepath_Join destDir (ze_Name f) in
    if ze_IsDir f then
      (* [os.MkdirAll(fpath, 0755)], its error dropped; [continue] *)
      unzip_entries destDir rest (default fs (os_MkdirAll fs fpath))
    else
      match os_MkdirAll fs (filepath_Dir fpath) with
      | None => (fs, false)
      | Some fs1 =>
        match os_Create fs1 fpath with
        | None => (fs1, false)
        | Some fs2 =>
          match ze_read f with
          | OpenFails => (fs2, false)
          | CopyFails => (file_Write fs2 fpath (ze_data f), false)
          | ReadOk => unzip_entries destDir rest (file_Write fs2 fpath (ze_data f))
          end
        end
      end
  end.

Definition unzip (src destDir : path) (fs : filesystem) : filesystem * bool :=
  match fs !! src with
  | Some (File c) =>
    match zip_OpenReader e c with
    | None => (fs, false)
    | Some entries => unzip_entries destDir entries fs
    end
  | _ => (fs, false)
  end.

(** [os.CreateTemp]: a new, empty file that did not exist before. *)
Definition os_CreateTemp (fs : filesystem) : option (path * filesystem) :=
  match temp_zip e with
  | Some p => if decide (fs !! p = None) then Some (p, <[p := File []]> fs) else None
  | None => None
  end.

(** [downloadAndUnzip] from the point where the temporary file exists, up
    to its deferred calls. *)
Definition downloadAndUnzip_body (destDir tmpPath : path) (w : world)
    : world * option error :=
  if negb (new_request_ok e) then (w, Some ErrNewRequest) else
  let w := request w (URL info) in
  match http_Do e with
  | None => (w, Some ErrDownload)
  | Some resp =>
    if negb (StatusCode resp =? 200) then (w, Some (ErrHTTPStatus (StatusCode resp)))
    else
      let total := total_of resp in
      match transfer (Body resp) tmpPath total (chunks (Body resp)) 0 0 w with
      | (w2, Some err) => (w2, Some err)
      | (w2, None) =>
        let parentDir := filepath_Dir destDir in
        match unzip tmpPath parentDir (w_fs w2) with
        | (fs3, false) => (set_fs w2 fs3, Some ErrUnzip)
        | (fs3, true) =>
          (send progress (set_fs w2 fs3)
             {| ModelID := ID info; Downloaded := total; Total := total;
                Done := true |},
           None)
        end
      end
  end.

(** [downloadAndUnzip]: stream the archive to a temporary file, then
    extract it into the parent of the model's directory;
    [defer os.Remove(tmpPath)]. *)
Definition downloadAndUnzip (w : world) : world * option error :=
  let destDir := GetModelPath m info in
  match os_CreateTemp (w_fs w) with
  | None => (w, Some ErrCreateTemp)
  | Some (tmpPath, fs0) =>
    let '(w', r) := downloadAndUnzip_body destDir tmpPath (set_fs w fs0) in
    (set_fs w' (os_Remove (w_fs w') tmpPath), r)
  end.

(** [Download] (under the manager's lock). *)
Definition Download (w : world) : world * option error :=
  if IsDownloaded (dir_size e) m (w_fs w) info then
    (send progress w
       {| ModelID := ID info; Downloaded := Size info; Total := Size info;
          Done := true |},
     None)
  else if IsZip info then downloadAndUnzip w
  else downloadFile w.

End Download.

(** [Delete] *)
Definition Delete (m : Manager) (info : ModelInfo) (fs : filesystem) : filesystem :=
  os_RemoveAll fs (GetModelPath m info).

(** The updates a call delivered: what the sink holds after it, beyond
    what it held before. *)
Definition updates (before after : world) : list Progress :=
  drop (length (w_sent before)) (w_sent after).

(** The bytes a body carries. *)
Definition bytes_in (cs : list (list Byte.byte)) : Z :=
  foldr (fun c n => Z.of_nat (length c) + n) 0 cs.
Definition body_len (b : body) : Z :=
  bytes_in (chunks b) + Z.of_nat (length (last_chunk b)).

(** Each value is at most every later one. *)
Definition nondecreasing (l : list Z) : Prop := StronglySorted Z.le l.

(** An update sent while the body is read: of this model, against the
    total read from the response, and not the completion update. *)
Definition streamed (info : ModelInfo) (total : Z) (p : Progress) : Prop :=
  Done p = false /\ ModelID p = ID info /\ Total p = total.

(** The error with which [downloadFile] and [downloadAndUnzip] give up
    before the first byte of the body is read: the request cannot be
    built, cannot be sent, or is answered with another status than 200. *)
Definition refusal (e : env) : option error :=
  if negb (new_request_ok e) then Some ErrNewRequest
  else match http_Do e with
       | None => Some ErrDownload
       | Some resp =>
         if negb (StatusCode resp =? 200) then Some (ErrHTTPStatus (StatusCode resp))
         else None
       end.

(** Registry entries can be compared. *)
#[export] Instance ModelInfo_eq_dec : EqDecision ModelInfo.
Proof. solve_decision. Defined.

End models.

(** ** Package [speech]: recognizers and the factory ([factory.go]) *)

Module speech.
Import models.

(** The implementations of the [Recognizer] interface. *)
Inductive engine_kind : Type := WhisperRecognizer | VoskRecognizer.

(** A recognizer object is alive from its construction until [Close]
    frees its native model. *)
Inductive status : Type := Live | Disposed.

Record object : Type := {
  kind : engine_kind;
  model_path : path;
  st : status
}.

(** Recognizers live on the heap and are passed around by reference. *)
Definition handle : Type := nat.
Abbreviation heap := (gmap handle object).

(** What the native libraries decide. *)
Record engines : Type := {
  whisper_New : path -> bool;          (* [whisper.New(modelPath)] succeeds *)
  vosk_NewModel : path -> bool;        (* [vosk.NewModel(modelPath)] succeeds *)
  vosk_NewRecognizer : path -> bool    (* [vosk.NewRecognizer(model, 16000)] succeeds *)
}.

Inductive init_error : Type :=
  | WhisperLoadFailed
  | VoskModelMissing
  | VoskModelLoadFailed
  | VoskRecognizerFailed.

Inductive create_error : Type :=
  | ModelNotFound (modelID : string)
  | ModelNotDownloaded (name : string)
  | UnknownEngine (engine : Engine)
  | EngineInitFailed (cause : init_error).

Definition NewWhisperFromFile (E : engines) (modelPath : path)
    : init_error + object :=
  if whisper_New E modelPath
  then inr {| kind := WhisperRecognizer; model_path := modelPath; st := Live |}
  else inl WhisperLoadFailed.

Definition NewVosk (E : engines) (fs : filesystem) (modelPath : path)
    : init_error + object :=
  match fs !! modelPath with
  | None => inl VoskModelMissing
  | Some _ =>
    if vosk_NewModel E modelPath then
      if vosk_NewRecognizer E modelPath
      then inr {| kind := VoskRecognizer; model_path := modelPath; st := Live |}
      else inl VoskRecognizerFailed          (* after [model.Free()] *)
    else inl VoskModelLoadFailed
  end.

Record Factory : Type := {
  manager : Manager;
  current : option handle;
  modelID : string
}.

Definition NewFactory (m : Manager) : Factory :=
  {| manager := m; current := None; modelID := "" |}.

Section Factory.

Context (E : engines) (dsz : Z) (fs : filesystem).

(** [Create]: look the model up, check that it is downloaded, build the
    engine its descriptor names.  The result is the new object, not yet
    on the heap. *)
Definition Create (f : Factory) (id : string) : create_error + object :=
  match GetModel id with
  | None => inl (ModelNotFound id)
  | Some info =>
    let modelPath := GetModelPath (manager f) info in
    if negb (IsDownloaded dsz (manager f) fs info) then inl (ModelNotDownloaded (Name info))
    else
      let built :=
        if String.eqb (Engine_ info) EngineWhisper then Some (NewWhisperFromFile E modelPath)
        else if String.eqb (Engine_ info) EngineVosk then Some (NewVosk E fs modelPath)
        else None in
      match built with
      | None => inl (UnknownEngine (Engine_ info))
      | Some (inl err) => inl (EngineInitFailed err)
      | Some (inr rec) => inr rec
      end
  end.

(** A new object gets a reference nothing else holds. *)
Definition alloc (o : object) (hp : heap) : handle * heap :=
  let h := fresh (dom hp) in (h, <[h := o]> hp).

(** [rec.Close()]: the native resources are freed (closing twice is
    harmless). *)
Definition Close_recognizer (h : handle) (hp : heap) : heap :=
  match hp !! h with
  | Some o => <[h := {| kind := kind o; model_path := model_path o; st := Disposed |}]> hp
  | None => hp
  end.

(** The critical section of [Load] and [Swap]:
    [old := f.current; f.current = rec; f.modelID = modelID]. *)
Definition publish (f : Factory) (rec : handle) (id : string)
    : Factory * option handle :=
  ({| manager := manager f; current := Some rec; modelID := id |}, current f).

(** [Load]: the old recognizer is closed before [Load] returns. *)
Definition Load (f : Factory) (id : string) (hp : heap)
    : Factory * heap * option create_error :=
  match Create f id with
  | inl err => (f, hp, Some err)
  | inr o =>
    let '(rec, hp1) := alloc o hp in
    let '(f', old) := publish f rec id in
    (f', from_option (fun h => Close_recognizer h hp1) hp1 old, None)
  end.

(** [Swap]: the old recognizer is handed to a background goroutine
    ([go old.Close()]); the last component is the handle that goroutine
    will close. *)
Definition Swap (f : Factory) (id : string) (hp : heap)
    : Factory * heap * option create_error * option handle :=
  match Create f id with
  | inl err => (f, hp, Some err, None)
  | inr o =>
    let '(rec, hp1) := alloc o hp in
    let '(f', old) := publish f rec id in
    (f', hp1, None, old)
  end.

Definition Current (f : Factory) : option handle := current f.
Definition CurrentModelID (f : Factory) : string := modelID f.
Definition IsLoaded (f : Factory) : bool := bool_decide (current f <> None).

(** [Factory.Close] *)
Definition Close (f : Factory) (hp : heap) : Factory * heap :=
  match current f with
  | Some h => ({| manager := manager f; current := None; modelID := modelID f |},
               Close_recognizer h hp)
  | None => (f, hp)
  end.

End Factory.

End speech.

(** ** The factory under concurrency

    [Load], [Swap], [Close], [Current] and the recognizers' [Transcribe]
    and [Close] run on several goroutines.  Each goroutine is a task whose
    steps are the critical sections of the code: what runs between
    [f.mu.Lock()] and [f.mu.Unlock()], or under a recognizer's own mutex,
    is one step.  A scheduler interleaves the tasks.

    [Transcribe] and [Close] of a recognizer lock the same mutex, so a
    [Close] cannot move while a [Transcribe] runs.  [Factory.Close] calls
    the recognizer's [Close] with [f.mu] held; its step is taken when the
    recognizer's mutex is free.  [Transcribe] on a recognizer that has
    been closed calls into a nil model ([w.model.NewContext()],
    [v.recognizer.AcceptWaveform]): the goroutine panics. *)

Module hotswap.
Import models speech.

Inductive task : Type :=
  (* [Swap(id)] *)
  | Swap_begin (id : string)                 (* about to call [Create] *)
  | Swap_have (rec : handle) (id : string)   (* [rec] built, about to lock [f.mu] *)
  | Swap_retire (old : option handle)        (* published, about to [go old.Close()] *)
  (* [Load(id)] *)
  | Load_begin (id : string)
  | Load_have (rec : handle) (id : string)
  | Load_retire (old : option handle)        (* published, about to [old.Close()] *)
  (* the goroutine started by [go old.Close()] *)
  | Bg_close (old : handle)
  (* [Factory.Close()] *)
  | Factory_close
  (* a capture session: [Current()], later [Transcribe] on what it got *)
  | Reader_begin
  | Reader_has (rec : option handle)
  | Transcribing (rec : handle)              (* inside [Transcribe], holding [rec]'s mutex *)
  | Crashed (rec : handle)                   (* entered [Transcribe] on a freed engine *)
  | Finished (err : option create_error).

(** Goroutines are named by numbers. *)
Record state : Type := {
  fac : Factory;
  hp : heap;
  busy : gset handle;      (* recognizers whose mutex a [Transcribe] holds *)
  tasks : gmap nat task
}.

(** One scheduling decision: which task moves, and the file system and
    engines as they are at that moment. *)
Record tick : Type := {
  who : nat;
  fs_now : filesystem;
  engines_now : engines
}.

Definition live (hp : heap) (h : handle) : bool :=
  match hp !! h with
  | Some o => match st o with Live => true | Disposed => false end
  | None => false
  end.

Definition with_task (s : state) (i : nat) (t : task) : state :=
  {| fac := fac s; hp := hp s; busy := busy s; tasks := <[i := t]> (tasks s) |}.

(** [go f()]: a new goroutine. *)
Definition spawn (t : task) (ts : gmap nat task) : gmap nat task :=
  <[fresh (dom ts) := t]> ts.

Section Step.

Context (dsz : Z).

(** [Create] and, on success, the new recognizer on the heap. *)
Definition create_step (s : state) (k : tick) (id : string)
    (have : handle -> string -> task) : state :=
  match Create (engines_now k) dsz (fs_now k) (fac s) id with
  | inl err => with_task s (who k) (Finished (Some err))
  | inr o =>
    let '(rec, hp1) := alloc o (hp s) in
    {| fac := fac s; hp := hp1; busy := busy s;
       tasks := <[who k := have rec id]> (tasks s) |}
  end.

(** [f.mu.Lock(); old := f.current; f.current = rec; f.modelID = id;
    f.mu.Unlock()] *)
Definition publish_step (s : state) (k : tick) (rec : handle) (id : string)
    (retire : option handle -> task) : state :=
  let '(f', old) := publish (fac s) rec id in
  {| fac := f'; hp := hp s; busy := busy s;
     tasks := <[who k := retire old]> (tasks s) |}.

(** [old.Close()]: waits for the recognizer's mutex. *)
Definition close_step (s : state) (k : tick) (old : handle) : option state :=
  if decide (old ∈ busy s) then None
  else Some {| fac := fac s; hp := Close_recognizer old (hp s); busy := busy s;
               tasks := <[who k := Finished None]> (tasks s) |}.

(** The step of task [who k], when it can move. [None]: the task is
    blocked on a mutex, has finished, or does not exist. *)
Definition step (s : state) (k : tick) : option state :=
  let i := who k in
  match tasks s !! i with
  | Some (Swap_begin id) => Some (create_step s k id Swap_have)
  | Some (Swap_have rec id) => Some (publish_step s k rec id Swap_retire)
  | Some (Swap_retire old) =>
    let ts := <[i := Finished None]> (tasks s) in
    Some {| fac := fac s; hp := hp s; busy := busy s;
            tasks := from_option (fun h => spawn (Bg_close h) ts) ts old |}
  | Some (Load_begin id) => Some (create_step s k id Load_have)
  | Some (Load_have rec id) => Some (publish_step s k rec id Load_retire)
  | Some (Load_retire None) => Some (with_task s i (Finished None))
  | Some (Load_retire (Some old)) => close_step s k old
  | Some (Bg_close old) => close_step s k old
  | Some Factory_close =>
    match current (fac s) with
    | None => Some (with_task s i (Finished None))
    | Some h =>
      if decide (h ∈ busy s) then None
      else
        let '(f', hp') := Close (fac s) (hp s) in
        Some {| fac := f'; hp := hp'; busy := busy s;
                tasks := <[i := Finished None]> (tasks s) |}
    end
  | Some Reader_begin => Some (with_task s i (Reader_has (Current (fac s))))
  | Some (Reader_has None) => Some (with_task s i (Finished None))
  | Some (Reader_has (Some rec)) =>
    (* [rec.Transcribe] takes the recognizer's mutex, then uses the engine *)
    if decide (rec ∈ busy s) then None
    else if live (hp s) rec
    then Some {| fac := fac s; hp := hp s; busy := {[rec]} ∪ busy s;
                 tasks := <[i := Transcribing rec]> (tasks s) |}
    else Some (with_task s i (Crashed rec))
  | Some (Transcribing rec) =>
    Some {| fac := fac s; hp := hp s; busy := busy s ∖ {[rec]};
            tasks := <[i := Finished None]> (tasks s) |}
  | Some (Crashed _) | Some (Finished _) | None => None
  end.

(** A run under a schedule; a tick whose task cannot move is skipped. *)
Fixpoint run (s : state) (sched : list tick) : state :=
  match sched with
  | [] => s
  | k :: sched' => run (default s (step s k)) sched'
  end.

End Step.

(** The calls goroutines make on the factory. *)
Inductive call : Type :=
  | Call_Swap (id : string)
  | Call_Load (id : string)
  | Call_Close
  | Call_Session.

Definition begin (c : call) : task :=
  match c with
  | Call_Swap id => Swap_begin id
  | Call_Load id => Load_begin id
  | Call_Close => Factory_close
  | Call_Session => Reader_begin
  end.

(** At the start no engine exists and no call has begun; goroutine [i]
    makes the [i]-th call. *)
Definition init (m : Manager) (calls : list call) : state :=
  {| fac := NewFactory m; hp := ∅; busy := ∅;
     tasks := list_to_map (imap (fun i c => (i, begin c)) calls) |}.

(** *** The ownership discipline *)

(** The recognizer a task has built and not yet published. *)
Definition unpublished (t : task) : option handle :=
  match t with
  | Swap_have h _ | Load_have h _ => Some h
  | _ => None
  end.

(** The recognizer only this task refers to as its own: built and not yet
    published, or taken out of the factory and still to be closed. *)
Definition owned (t : task) : option handle :=
  match t with
  | Swap_have h _ | Load_have h _ => Some h
  | Swap_retire (Some h) | Load_retire (Some h) | Bg_close h => Some h
  | _ => None
  end.

(** The steps of a [Swap] call. *)
Definition is_swap (t : task) : bool :=
  match t with
  | Swap_begin _ | Swap_have _ _ | Swap_retire _ => true
  | _ => false
  end.

Record inv (s : state) : Prop := {
  inv_current h :
    current (fac s) = Some h -> live (hp s) h = true;
  inv_unpublished i t h :
    tasks s !! i = Some t -> unpublished t = Some h -> live (hp s) h = true;
  inv_owned i t h :
    tasks s !! i = Some t -> owned t = Some h ->
    h ∈ dom (hp s) /\ current (fac s) <> Some h;
  inv_owner i j ti tj h :
    tasks s !! i = Some ti -> tasks s !! j = Some tj ->
    owned ti = Some h -> owned tj = Some h -> i = j;
  inv_in_flight i h :
    tasks s !! i = Some (Transcribing h) -> live (hp s) h = true /\ h ∈ busy s;
  inv_one_in_flight i j h :
    tasks s !! i = Some (Transcribing h) -> tasks s !! j = Some (Transcribing h) -> i = j
}.

(** Every call has returned and every background goroutine has run. *)
Definition is_finished (t : task) : bool :=
  match t with Finished _ => true | _ => false end.
Definition all_finished (s : state) : bool :=
  forallb (fun it => is_finished it.2) (map_to_list (tasks s)).

(** Every live recognizer is the current one or has a task that will
    publish or close it. *)
Definition accounted (s : state) : Prop :=
  forall h, live (hp s) h = true ->
    current (fac s) = Some h \/ exists i t, tasks s !! i = Some t /\ owned t = Some h.

End hotswap.

(** ** Package [audio]: the recorder *)

Module audio.

(** A [float32] sample, as the value it denotes. *)
Definition float32 : Type := SpecFloat.spec_float.
(** The zero value of [float32], what [make([]float32, n)] is filled with. *)
Definition zero32 : float32 := SpecFloat.S754_zero false.

Definition SampleRate : Z := 16000.
Definition Channels : Z := 1.
Definition FramesPerBuffer : Z := 1024.
(** [MinSamples = SampleRate / 5] *)
Definition MinSamples : Z := SampleRate / 5.

(** [make([]float32, n)] *)
Definition make (n : Z) : list float32 := repeat zero32 (Z.to_nat n).

(** [len(s)] *)
Definition len (s : list float32) : Z := Z.of_nat (length s).

(** A PortAudio stream: only its identity and whether it is open matter. *)
Record Stream : Type := { stream_id : nat; stream_open : bool }.

(** A nil slice is the empty list; [done] is the channel [recordLoop]
    closes, [None] when nil. *)
Record Recorder : Type := {
  stream : option Stream;
  buffer : list float32;
  samples : list float32;
  running : bool;
  done : option nat
}.

(** What PortAudio decides when [Start] runs. *)
Record portaudio : Type := {
  OpenDefaultStream : option Stream;   (* [None]: an error *)
  stream_Start_ok : bool;
  new_chan : nat                       (* the channel [make(chan struct{})] returns *)
}.

Inductive start_error : Type := ErrOpenStream | ErrStartStream.

(** [Start] *)
Definition Start (pa : portaudio) (r : Recorder) : Recorder * option start_error :=
  if running r then (r, None)
  else
    (* [r.samples = make([]float32, 0, SampleRate*30); r.done = make(chan struct{})] *)
    let r1 := {| stream := stream r; buffer := buffer r; samples := [];
                 running := running r; done := Some (new_chan pa) |} in
    match OpenDefaultStream pa with
    | None => (r1, Some ErrOpenStream)
    | Some s =>
      if stream_Start_ok pa then
        ({| stream := Some s; buffer := buffer r1; samples := samples r1;
            running := true; done := done r1 |}, None)
      else
        (* [r.stream.Close(); r.running = false] *)
        ({| stream := Some {| stream_id := stream_id s; stream_open := false |};
            buffer := buffer r1; samples := samples r1;
            running := false; done := done r1 |}, Some ErrStartStream)
    end.

(** [stream.Read()]: the stream fills the buffer it was opened on,
    whatever the recorder's state is by then. *)
Definition stream_Read (frame : list float32) (r : Recorder) : Recorder :=
  {| stream := stream r; buffer := frame; samples := samples r;
     running := running r; done := done r |}.

(** The end of a pass of [recordLoop], under the lock: a copy of the
    buffer is appended if the recorder still runs. *)
Definition keep (r : Recorder) : Recorder :=
  if running r then
    {| stream := stream r; buffer := buffer r; samples := samples r ++ buffer r;
       running := running r; done := done r |}
  else r.

(** One pass of [recordLoop] with no [Stop] in between: the loop returns
    at its first check when the recorder does not run; otherwise the
    stream is read and the frame kept. A pass that [Stop] cuts in two is
    [stream_Read] and [keep] with [Stop] between or before them. *)
Definition record (frame : list float32) (r : Recorder) : Recorder :=
  if running r then keep (stream_Read frame r) else r.

(** [Stop] *)
Definition Stop (r : Recorder) : Recorder * list float32 :=
  if negb (running r) then (r, [])
  else
    let r' := {| stream := None; buffer := buffer r; samples := [];
                 running := false; done := done r |} in
    let samples := samples r in
    let samples :=
      if len samples <? MinSamples
      then samples ++ make (MinSamples - len samples)
      else samples in
    (r', samples).

Definition IsRecording (r : Recorder) : bool := running r.

(** [GetSamples] *)
Definition GetSamples (r : Recorder) : list float32 :=
  if negb (running r) || (len (samples r) =? 0) then [] else samples r.

(** [recordLoop] over the frames the stream delivers, oldest first. *)
Definition record_all (frames : list (list float32)) (r : Recorder) : Recorder :=
  foldl (fun r frame => record frame r) r frames.

End audio.

(** ** Package [llm]: text correction *)

Module llm.

Inductive error : Type :=
  | ErrCtx                       (* [ctx.Err()] *)
  | ErrGenerate.                 (* "llm generate: ..." *)

Section CorrectText.

(** Go's [strings.TrimSpace] and [strings.Index] (-1 when absent). *)
Context (strings_TrimSpace : string -> string).
Context (strings_Index : string -> string -> Z).
(** [m.Generate(prompt, maxTokens)]: the text llama.cpp generates, or
    [None] for an error. *)
Context (Generate : string -> Z -> option string).

Definition prompt_of (text : string) : string :=
  "<|im_start|>system
Ты помощник для исправления ошибок распознавания речи. Исправь ошибки и расставь знаки препинания. Верни только исправленный текст без пояснений.<|im_end|>
<|im_start|>user
" +:+ text +:+ "<|im_end|>
<|im_start|>assistant
".

(** [CorrectText]; [ctx_done] says whether [ctx.Done()] is closed when
    the function polls it, just before generating. *)
Definition CorrectText (ctx_done : bool) (text : string) : string * option error :=
  if String.eqb (strings_TrimSpace text) "" then (text, None)
  else
    let prompt := prompt_of text in
    if ctx_done then (text, Some ErrCtx)
    else
      match Generate prompt 256 with
      | None => (text, Some ErrGenerate)
      | Some result =>
        let corrected := strings_TrimSpace result in
        let idx := strings_Index corrected "<|im_end|>" in
        let corrected :=
          if idx =? -1 then corrected
          else strings_TrimSpace (String.substring 0 (Z.to_nat idx) corrected) in
        (corrected, None)
      end.

End CorrectText.

End llm.

(** ** Package [app]: stopping a recording ([app.go]) *)

Module app.
Import audio speech.

(** [time.Duration] counts nanoseconds. *)
Definition Millisecond : Z := 1000000.
Definition MinRecordingDuration : Z := 500 * Millisecond.

Module tray.
Inductive State : Type := StateIdle | StateRecording | StateProcessing.
End tray.

Module waveform.
Inductive State : Type :=
  StateRecording | StateSpeechProcess | StateLLMProcess | StateResult.

Record Window : Type := {
  running : bool;
  state : State;
  resultText : string
}.

Definition SetState (s : State) (w : Window) : Window :=
  {| running := running w; state := s; resultText := resultText w |}.

Definition Hide (w : Window) : Window :=
  if negb (running w) then w
  else {| running := false; state := state w; resultText := resultText w |}.

(** [SetResult]: the corrected text if there is one, else the original. *)
Definition SetResult (original corrected : string) (w : Window) : Window :=
  let result := if String.eqb corrected "" then original else corrected in
  {| running := running w; state := StateResult; resultText := result |}.
End waveform.

(** The fields of [App] that [stopRecording] reads or writes; the tray
    and the window are kept as the state they display. *)
Record App : Type := {
  recorder : Recorder;
  speechFactory : Factory;
  llmModel : bool;                 (* [a.llmModel != nil] *)
  LLMEnabled : bool;               (* [a.config.LLMEnabled()] *)
  Language : string;               (* [a.config.Language()] *)
  waveformWin : waveform.Window;
  trayState : tray.State;
  processing : bool
}.

(** Calls that leave the application: notifications and engine calls. *)
Inductive event : Type :=
  | Notifier_Processing
  | Notifier_Empty
  | Notifier_Error (key : string)
  | Recognizer_Transcribe (rec : handle) (samples : list float32) (lang : string)
  | Llm_CorrectText (text : string).

(** What the clock and the engines decide during one stop. *)
Record session : Type := {
  elapsed : Z;                                   (* [time.Since(a.recordingStart)] *)
  Transcribe : handle -> list float32 -> string -> option string;
                                                 (* [None]: an error *)
  ctx_done : bool;                               (* deadline passed when [CorrectText] polls *)
  strings_TrimSpace : string -> string;
  strings_Index : string -> string -> Z;
  Generate : string -> Z -> option string
}.

Definition set_processing (b : bool) (a : App) : App :=
  {| recorder := recorder a; speechFactory := speechFactory a; llmModel := llmModel a;
     LLMEnabled := LLMEnabled a; Language := Language a; waveformWin := waveformWin a;
     trayState := trayState a; processing := b |}.
Definition set_recorder (r : Recorder) (a : App) : App :=
  {| recorder := r; speechFactory := speechFactory a; llmModel := llmModel a;
     LLMEnabled := LLMEnabled a; Language := Language a; waveformWin := waveformWin a;
     trayState := trayState a; processing := processing a |}.
Definition set_window (w : waveform.Window) (a : App) : App :=
  {| recorder := recorder a; speechFactory := speechFactory a; llmModel := llmModel a;
     LLMEnabled := LLMEnabled a; Language := Language a; waveformWin := w;
     trayState := trayState a; processing := processing a |}.
Definition set_tray (t : tray.State) (a : App) : App :=
  {| recorder := recorder a; speechFactory := speechFactory a; llmModel := llmModel a;
     LLMEnabled := LLMEnabled a; Language := Language a; waveformWin := waveformWin a;
     trayState := t; processing := processing a |}.

(** Leaving towards idle: [a.waveformWin.Hide(); a.tray.SetState(tray.StateIdle)]. *)
Definition hide_and_idle (a : App) : App :=
  set_tray tray.StateIdle (set_window (waveform.Hide (waveformWin a)) a).

Section StopRecording.

Context (k : session).

(** The goroutine [stopRecording] starts; its deferred function clears
    [processing] on every way out. *)
Definition recognize (rec : handle) (samples : list float32) (a : App)
    : App * list event :=
  let lang := Language a in
  let call := Recognizer_Transcribe rec samples lang in
  let '(a', evs) :=
    match Transcribe k rec samples lang with
    | None => (hide_and_idle a, [call; Notifier_Error "error_recognition"])
    | Some originalText =>
      if String.eqb originalText "" then (hide_and_idle a, [call; Notifier_Empty])
      else
        let '(a1, correctedText, evs) :=
          if LLMEnabled a && llmModel a then
            let a1 := set_window (waveform.SetState waveform.StateLLMProcess (waveformWin a)) a in
            let '(corrected, err) :=
              llm.CorrectText (strings_TrimSpace k) (strings_Index k) (Generate k)
                (ctx_done k) originalText in
            let correctedText :=
              match err with
              | None => if String.eqb corrected "" then "" else corrected
              | Some _ => ""
              end in
            (a1, correctedText, [call; Llm_CorrectText originalText])
          else (a, "", [call]) in
        (set_tray tray.StateIdle
           (set_window (waveform.SetResult originalText correctedText (waveformWin a1)) a1),
         evs)
    end in
  (set_processing false a', evs).

(** [stopRecording] *)
Definition stopRecording (a : App) : App * list event :=
  if negb (IsRecording (recorder a)) || processing a then (a, [])
  else
    let a := set_processing true a in
    let recognizer := Current (speechFactory a) in
    let a := set_window (waveform.SetState waveform.StateSpeechProcess (waveformWin a)) a in
    let '(r', samples) := Stop (recorder a) in
    let a := set_recorder r' a in
    if elapsed k <? MinRecordingDuration then
      (set_processing false (hide_and_idle a), [])
    else
      let a := set_tray tray.StateProcessing a in
      match recognizer with
      | None =>
        (set_processing false (hide_and_idle a),
         [Notifier_Processing; Notifier_Error "error_model_not_loaded"])
      | Some rec =>
        if len samples =? 0 then
          (set_processing false (hide_and_idle a), [Notifier_Processing; Notifier_Empty])
        else
          let '(a', evs) := recognize rec samples a in
          (a', Notifier_Processing :: evs)
      end.

End StopRecording.

(** The application state when the goroutine of [stopRecording] starts. *)
Definition at_recognition (a : App) : App :=
  set_tray tray.StateProcessing
    (set_recorder (Stop (recorder a)).1
       (set_window (waveform.SetState waveform.StateSpeechProcess (waveformWin a))
          (set_processing true a))).

(** The state in which a stop request is acted on: the recorder runs and
    no other operation is in progress. *)
Definition stoppable (a : App) : Prop :=
  IsRecording (recorder a) = true /\ processing a = false.

(** How [stopRecording] and its goroutine end. [Transcribe] on a
    recognizer that has been closed dereferences its nil model and
    panics: the deferred function of the goroutine clears [processing],
    nothing else is undone, and the process dies. *)
Inductive ending : Type :=
  | Returns (a : App) (evs : list event)
  | Panics (a : App) (evs : list event).


(** [time.Second] *)
Definition Second : Z := 1000 * Millisecond.

(** The timeout of the context [stopRecording] hands to [CorrectText]:
    [context.WithTimeout(context.Background(), 30*time.Second)]. *)
Definition CorrectionTimeout : Z := 30 * Second.

(** Whether [ctx.Done()] is closed [since] nanoseconds after a context
    with [timeout] was made. *)
Definition deadline_exceeded (timeout since : Z) : bool := timeout <=? since.

(** The oracles of [k] when [CorrectText] polls the context
    [stopRecording] made for it [at_poll] nanoseconds after it was made. *)
Definition polled_after (at_poll : Z) (k : session) : session :=
  {| elapsed := elapsed k;
     Transcribe := Transcribe k;
     ctx_done := deadline_exceeded CorrectionTimeout at_poll;
     strings_TrimSpace := strings_TrimSpace k;
     strings_Index := strings_Index k;
     Generate := Generate k |}.

End app.

(** ** Package [app]: the hotkey toggle and cancel ([app.go]) *)

Module toggle.
Import audio speech app.

(** [Window.Show], on the fields kept: a visible window is reset to the
    recording view, a hidden one is opened in it. *)
Definition Show (w : waveform.Window) : waveform.Window :=
  {| waveform.running := true; waveform.state := waveform.StateRecording;
     waveform.resultText := waveform.resultText w |}.

(** [Window.ClearResult] *)
Definition ClearResult (w : waveform.Window) : waveform.Window :=
  {| waveform.running := waveform.running w; waveform.state := waveform.state w;
     waveform.resultText := "" |}.

(** [App] with the field [recordingStart] (nanoseconds on the clock). *)
Record state : Type := {
  the_app : App;
  recordingStart : Z
}.

(** What a press adds to the calls of [stopRecording]:
    [notifier.Recording()]. *)
Inductive event : Type :=
  | Notifier_Recording
  | Of_session (e : app.event).

(** [time.Since(start)] read at [now]: a [Duration] saturates. *)
Definition time_Sub (now start : Z) : Z :=
  Z.max min_int64 (Z.min max_int64 (now - start)).

(** The oracles of [k] with the clock read at [now]. *)
Definition at_time (k : session) (now start : Z) : session :=
  {| elapsed := time_Sub now start;
     Transcribe := Transcribe k;
     ctx_done := ctx_done k;
     strings_TrimSpace := strings_TrimSpace k;
     strings_Index := strings_Index k;
     Generate := Generate k |}.

Section Press.

Context (pa : portaudio) (k : session).

(** [onHotkeyPress], the clock reading [now] when it runs. *)
Definition onHotkeyPress (now : Z) (s : state) : state * list event :=
  let a := the_app s in
  if IsRecording (recorder a) then
    let '(a', evs) := stopRecording (at_time k now (recordingStart s)) a in
    ({| the_app := a'; recordingStart := recordingStart s |}, Of_session <$> evs)
  else if processing a then (s, [])
  else if negb (IsLoaded (speechFactory a)) then
    (s, [Of_session (Notifier_Error "error_model_loading")])
  else
    let a := set_tray tray.StateRecording a in
    let a := set_window (ClearResult (waveformWin a)) a in
    let '(r', err) := Start pa (recorder a) in
    let a := set_recorder r' a in
    match err with
    | Some _ =>
      ({| the_app := set_tray tray.StateIdle a; recordingStart := now |},
       [Notifier_Recording; Of_session (Notifier_Error "error_recording")])
    | None =>
      ({| the_app := set_window (Show (waveformWin a)) a; recordingStart := now |},
       [Notifier_Recording])
    end.

(** [onHotkeyRelease]: key releases are ignored. *)
Definition onHotkeyRelease (s : state) : state * list event := (s, []).

End Press.

(** The window's cancel callback ([OnCancel] in [New]). *)
Definition OnCancel (s : state) : state :=
  let a := the_app s in
  let a := if IsRecording (recorder a) then set_recorder (Stop (recorder a)).1 a else a in
  let a := set_tray tray.StateIdle a in
  {| the_app := set_processing false a; recordingStart := recordingStart s |}.

(** The capture loop between two presses: frames reach the recorder. *)
Definition capture (frames : list (list float32)) (s : state) : state :=
  {| the_app := set_recorder (record_all frames (recorder (the_app s))) (the_app s);
     recordingStart := recordingStart s |}.

(** Nothing is going on: not recording, not processing. *)
Definition idle (s : state) : Prop :=
  IsRecording (recorder (the_app s)) = false /\ processing (the_app s) = false.

End toggle.

(** ** Package [notify] *)

Module notify.

Definition appName : string := "Shofar".

Record Notifier : Type := { enabled : bool }.

(** A call of [beeep.Notify(title, message, "")]. *)
Record popup : Type := { title : string; message : string }.

Section Notify.

(** [i18n.T] *)
Context (T : string -> string).

(** [notify] *)
Definition notify (n : Notifier) (ttl msg : string) : list popup :=
  if negb (enabled n) then []
  else if negb (String.eqb ttl "")
  then [{| title := appName +:+ ": " +:+ ttl; message := msg |}]
  else [{| title := appName; message := msg |}].

(** [if len(text) > 100 { text = text[:100] + "..." }] *)
Definition shorten (text : string) : string :=
  if (100 <? String.length text)%nat then String.substring 0 100 text +:+ "..." else text.

Definition Recording (n : Notifier) : list popup :=
  notify n (T "notify_recording") (T "notify_recording_hint").
Definition Processing (n : Notifier) : list popup :=
  notify n (T "notify_processing") (T "notify_processing_hint").
Definition Success (n : Notifier) (text : string) : list popup :=
  notify n (T "notify_done") (shorten text).
Definition Empty (n : Notifier) : list popup :=
  notify n (T "notify_empty") (T "notify_empty_hint").
Definition Error (n : Notifier) (msg : string) : list popup :=
  notify n (T "notify_error") msg.
Definition Info (n : Notifier) (msg : string) : list popup :=
  notify n "" (shorten msg).

End Notify.

End notify.

(** ** Package [config]: the hotkey and the saved settings ([config.go]) *)

Module config.

(** [type Modifier string], [type Key string] *)
Definition Modifier : Type := string.
Definition Key : Type := string.
Definition ModCtrl : Modifier := "ctrl".
Definition ModShift : Modifier := "shift".
Definition KeySpace : Key := "space".

Record HotkeyConfig : Type := {
  Modifiers : list Modifier;
  Key_ : Key
}.

(** The loop of [HotkeyConfig.String] over the modifiers. *)
Definition add_modifier (result : string) (m : Modifier) : string :=
  (if String.eqb result "" then result else result +:+ "+") +:+ m.

(** [HotkeyConfig.String] *)
Definition String_ (h : HotkeyConfig) : string :=
  let result := foldl add_modifier "" (Modifiers h) in
  (if String.eqb result "" then result else result +:+ "+") +:+ Key_ h.

Record LLMConfig : Type := {
  Enabled : bool;
  LLM_ModelID : string
}.

(** [configData], what is written to and read from [config.json]. *)
Record configData : Type := {
  d_Language : string;
  d_UILanguage : string;
  d_Notifications : bool;
  d_Hotkey : HotkeyConfig;
  d_ModelID : string;
  d_LLM : LLMConfig
}.

(** [Config], without its lock, path and callback. *)
Record Config : Type := {
  language : string;
  uiLanguage : string;
  notifications : bool;
  hotkey : HotkeyConfig;
  modelID : string;
  llm : LLMConfig
}.

(** The settings [New] starts from. *)
Definition defaults : Config :=
  {| language := "auto";
     uiLanguage := "ru";
     notifications := true;
     hotkey := {| Modifiers := [ModCtrl; ModShift]; Key_ := KeySpace |};
     modelID := "";
     llm := {| Enabled := false; LLM_ModelID := "llm-qwen2.5-0.5b" |} |}.

(** [load]; [file] is what reading and decoding [config.json] gives,
    [None] when the file is missing or is not valid JSON. *)
Definition load (file : option configData) (c : Config) : Config :=
  match file with
  | None => c
  | Some cfg =>
    {| language := d_Language cfg;
       uiLanguage := if String.eqb (d_UILanguage cfg) "" then uiLanguage c else d_UILanguage cfg;
       notifications := d_Notifications cfg;
       hotkey := if String.eqb (Key_ (d_Hotkey cfg)) "" then hotkey c else d_Hotkey cfg;
       modelID := d_ModelID cfg;
       llm := {| Enabled := Enabled (d_LLM cfg);
                 LLM_ModelID := if String.eqb (LLM_ModelID (d_LLM cfg)) ""
                                then LLM_ModelID (llm c) else LLM_ModelID (d_LLM cfg) |} |}
  end.

(** [save]: the data handed to the encoder. *)
Definition save (c : Config) : configData :=
  {| d_Language := language c;
     d_UILanguage := uiLanguage c;
     d_Notifications := notifications c;
     d_Hotkey := hotkey c;
     d_ModelID := modelID c;
     d_LLM := llm c |}.

(** [New]: the defaults, then [load]. *)
Definition New (file : option configData) : Config := load file defaults.

(** *** What [encoding/json] does to a string

    [json.MarshalIndent] writes a string as valid UTF-8: it goes through
    it rune by rune with [utf8.DecodeRuneInString], and writes U+FFFD for
    every byte that does not start a well-formed encoding; escapes are
    undone by [json.Unmarshal]. *)

Definition in_range (lo hi : N) (c : Ascii.ascii) : bool :=
  ((lo <=? Ascii.N_of_ascii c) && (Ascii.N_of_ascii c <=? hi))%N.

(** A continuation byte, [0x80] to [0xBF]. *)
Definition continuation (c : Ascii.ascii) : bool := in_range 128 191 c.

(** The first two bytes of a well-formed encoding on three bytes, and on
    four: overlong forms, surrogates and values above U+10FFFF are out. *)
Definition three_lead (c0 c1 : Ascii.ascii) : bool :=
  (in_range 224 224 c0 && in_range 160 191 c1)
  || (in_range 225 236 c0 && continuation c1)
  || (in_range 237 237 c0 && in_range 128 159 c1)
  || (in_range 238 239 c0 && continuation c1).
Definition four_lead (c0 c1 : Ascii.ascii) : bool :=
  (in_range 240 240 c0 && in_range 144 191 c1)
  || (in_range 241 243 c0 && continuation c1)
  || (in_range 244 244 c0 && in_range 128 143 c1).

(** The width of the rune [utf8.DecodeRuneInString] finds at the front
    of [s]; [0] when it answers [RuneError] for a byte that starts no
    well-formed encoding (or [s] is empty). *)
Definition rune_width (s : string) : nat :=
  match s with
  | EmptyString => 0
  | String c0 rest =>
    if in_range 0 127 c0 then 1
    else
      match rest with
      | EmptyString => 0
      | String c1 rest1 =>
        if in_range 194 223 c0 then (if continuation c1 then 2 else 0)
        else
          match rest1 with
          | EmptyString => 0
          | String c2 rest2 =>
            if three_lead c0 c1 then (if continuation c2 then 3 else 0)
            else if four_lead c0 c1 then
              match rest2 with
              | EmptyString => 0
              | String c3 _ => if continuation c2 && continuation c3 then 4 else 0
              end
            else 0
          end
      end
  end.

(** U+FFFD in UTF-8: [EF BF BD]. *)
Definition replacement : string :=
  String (Ascii.ascii_of_N 239) (String (Ascii.ascii_of_N 191)
    (String (Ascii.ascii_of_N 189) EmptyString)).

(** The string read back; [skip] bytes of the rune being copied are
    still to come. *)
Fixpoint coerce_from (skip : nat) (s : string) : string :=
  match s with
  | EmptyString => EmptyString
  | String c rest =>
    match skip with
    | S k => String c (coerce_from k rest)
    | O =>
      match rune_width s with
      | O => replacement +:+ coerce_from 0 rest
      | S w => String c (coerce_from w rest)
      end
    end
  end.
Definition json_string (s : string) : string := coerce_from 0 s.

(** [utf8.ValidString] *)
Fixpoint valid_from (skip : nat) (s : string) : bool :=
  match s with
  | EmptyString => true
  | String c rest =>
    match skip with
    | S k => valid_from k rest
    | O =>
      match rune_width s with
      | O => false
      | S w => valid_from w rest
      end
    end
  end.
Definition utf8_ValidString (s : string) : bool := valid_from 0 s.

(** What [json.Unmarshal] reads from what [json.MarshalIndent] wrote
    for a [configData]: every field under its own key, every string
    coerced. *)
Definition json_round_trip (d : configData) : configData :=
  {| d_Language := json_string (d_Language d);
     d_UILanguage := json_string (d_UILanguage d);
     d_Notifications := d_Notifications d;
     d_Hotkey := {| Modifiers := json_string <$> Modifiers (d_Hotkey d);
                    Key_ := json_string (Key_ (d_Hotkey d)) |};
     d_ModelID := json_string (d_ModelID d);
     d_LLM := {| Enabled := Enabled (d_LLM d);
                 LLM_ModelID := json_string (LLM_ModelID (d_LLM d)) |} |}.

(** What the next [load] decodes from [config.json] once [save] has
    written it. *)
Definition written (c : Config) : option configData := Some (json_round_trip (save c)).

(** Every string of the configuration is valid UTF-8. *)
Definition utf8_config (c : Config) : bool :=
  utf8_ValidString (language c) && utf8_ValidString (uiLanguage c)
  && forallb utf8_ValidString (Modifiers (hotkey c))
  && utf8_ValidString (Key_ (hotkey c))
  && utf8_ValidString (modelID c)
  && utf8_ValidString (LLM_ModelID (llm c)).

(** [ToggleNotifications]: the new setting is returned. *)
Definition ToggleNotifications (c : Config) : Config * bool :=
  ({| language := language c; uiLanguage := uiLanguage c;
      notifications := negb (notifications c); hotkey := hotkey c;
      modelID := modelID c; llm := llm c |},
   negb (notifications c)).

End config.

(** ** Package [hotkey]: the listener ([hotkey.go]) *)

Module hotkey.

(** What the [select] of [listen] receives, in order. *)
Inductive signal : Type :=
  | Stop                      (* [stopCh] is closed *)
  | Keydown (now : Z)         (* a key-down; [now] is [time.Now()] when it is handled *)
  | Keydown_closed            (* the key-down channel is closed *)
  | Keyup
  | Keyup_closed.

(** [debounceInterval = 300 * time.Millisecond] *)
Definition debounceInterval : Z := 300 * 1000000.

(** [now.Sub(lastKeydown)]; [None] is the zero [time.Time], from which
    every present instant is further away than a [Duration] can say. *)
Definition since (last : option Z) (now : Z) : Z :=
  match last with
  | None => max_int64
  | Some t => Z.max min_int64 (Z.min max_int64 (now - t))
  end.

(** The loop of [listen]: the instants at which [onPress] is called. *)
Fixpoint listen_from (lastKeydown : option Z) (signals : list signal) : list Z :=
  match signals with
  | [] => []
  | Stop :: _ | Keydown_closed :: _ | Keyup_closed :: _ => []
  | Keyup :: rest => listen_from lastKeydown rest
  | Keydown now :: rest =>
    if since lastKeydown now <? debounceInterval then listen_from lastKeydown rest
    else now :: listen_from (Some now) rest
  end.

Definition listen (signals : list signal) : list Z := listen_from None signals.


(** Consecutive instants are at least [debounceInterval] apart. *)
Fixpoint spaced (presses : list Z) : Prop :=
  match presses with
  | a :: (b :: _) as rest => debounceInterval <= b - a /\ spaced rest
  | _ => True
  end.

End hotkey.

(** * Scenarios

    Concrete inputs on which the functions above are evaluated. *)

Module scenario.
Import Byte.

(** *** Recording and recognition *)

Definition half : audio.float32 := SpecFloat.S754_finite false 1 (-1).

Definition two_frames : audio.Recorder :=
  {| audio.stream := Some {| audio.stream_id := 1%nat; audio.stream_open := true |};
     audio.buffer := [half; half];
     audio.samples := [half; half; half; half];
     audio.running := true;
     audio.done := Some 7%nat |}.

Definition pa_ok : audio.portaudio :=
  {| audio.OpenDefaultStream := Some {| audio.stream_id := 2%nat; audio.stream_open := true |};
     audio.stream_Start_ok := true;
     audio.new_chan := 8%nat |}.

Definition the_manager : models.Manager := {| models.modelsDir := ["opt"; "shofar"; "models"] |}.

Definition recording_app : app.App :=
  {| app.recorder := two_frames;
     app.speechFactory :=
       {| speech.manager := the_manager; speech.current := Some 0%nat;
          speech.modelID := "whisper-tiny-q5" |};
     app.llmModel := true;
     app.LLMEnabled := true;
     app.Language := "ru";
     app.waveformWin :=
       {| app.waveform.running := true; app.waveform.state := app.waveform.StateRecording;
          app.waveform.resultText := "" |};
     app.trayState := app.tray.StateRecording;
     app.processing := false |}.

(** Test doubles for the string functions: nothing to trim, no marker. *)
Definition no_trim (s : string) : string := s.
Definition no_index (s sep : string) : Z := -1.

(** A session stopped after [ms] milliseconds in which the recognizer
    hears [heard] and the correction model answers [fixed] (or fails). *)
Definition stop_after (ms : Z) (heard : option string) (late : bool)
    (fixed : option string) : app.session :=
  {| app.elapsed := ms * app.Millisecond;
     app.Transcribe := fun _ _ _ => heard;
     app.ctx_done := late;
     app.strings_TrimSpace := no_trim;
     app.strings_Index := no_index;
     app.Generate := fun _ _ => fixed |}.

(** A slow language model: the context is polled as soon as it is made,
    and generation then takes 45 s to answer "hello world". *)
Definition slow_correction : app.session :=
  app.polled_after 0 (stop_after 2000 (Some "helo wrld") false (Some "hello world")).
Definition generation_time : Z := 45 * app.Second.

(** *** The model store and the factory *)

(** The directories [NewManager] creates, and a system temp directory. *)
Definition bare_disk : filesystem :=
  list_to_map
    [ (["opt"], Dir); (["opt"; "shofar"], Dir); (["opt"; "shofar"; "models"], Dir);
      (["opt"; "shofar"; "models"; "whisper"], Dir);
      (["opt"; "shofar"; "models"; "vosk"], Dir);
      (["opt"; "shofar"; "models"; "llm"], Dir);
      (["tmp"], Dir) ].

(** The same with the default Whisper model in place. *)
Definition disk_with_tiny : filesystem :=
  <[ ["opt"; "shofar"; "models"; "whisper"; "ggml-tiny-q5_1.bin"] := File [x67; x67; x6d; x6c] ]>
    bare_disk.

Definition engines_ok : speech.engines :=
  {| speech.whisper_New := fun _ => true;
     speech.vosk_NewModel := fun _ => true;
     speech.vosk_NewRecognizer := fun _ => true |}.

Definition tiny_engine : speech.object :=
  {| speech.kind := speech.WhisperRecognizer;
     speech.model_path := ["opt"; "shofar"; "models"; "whisper"; "ggml-tiny-q5_1.bin"];
     speech.st := speech.Live |}.

Definition loaded_factory : speech.Factory :=
  {| speech.manager := the_manager; speech.current := Some 0%nat;
     speech.modelID := "whisper-tiny-q5" |}.

Definition loaded_heap : gmap nat speech.object := {[ 0%nat := tiny_engine ]}.


Definition tiny : models.ModelInfo :=
  {| models.ID := "whisper-tiny-q5"; models.Engine_ := models.EngineWhisper;
     models.Name := "Tiny Q5"; models.Filename := "ggml-tiny-q5_1.bin";
     models.URL := models.hf_whisper "ggml-tiny-q5_1.bin";
     models.Size := models.MiB 32; models.IsZip := false |}.

Definition vosk_small : models.ModelInfo :=
  {| models.ID := "vosk-ru-small"; models.Engine_ := models.EngineVosk;
     models.Name := "Russian Small"; models.Filename := "vosk-model-small-ru-0.22";
     models.URL := "https://alphacephei.com/vosk/models/vosk-model-small-ru-0.22.zip";
     models.Size := models.MiB 45; models.IsZip := true |}.

(** A server answering 200 with the given declared length and body, an
    uncancelled context, a disk that takes every write and a sink that
    takes every update; [archive] is what [archive/zip] finds in the bytes
    of that body. *)
Definition serve (declared : Z) (b : models.body) (archive : option (list models.zip_entry))
    : models.env :=
  {| models.dir_size := 4096;
     models.new_request_ok := true;
     models.http_Do :=
       Some {| models.StatusCode := 200; models.ContentLength := declared; models.Body := b |};
     models.ctx_done := fun _ => false;
     models.write_ok := fun _ => true;
     models.sink_ready := fun _ => true;
     models.temp_zip := Some ["tmp"; "model-123.zip"];
     models.zip_OpenReader := fun bs =>
       if List.list_eq_dec Byte.byte_eq_dec bs
            (concat (models.chunks b) ++ models.last_chunk b)
       then archive else None |}.

Definition three_bytes : models.body :=
  {| models.chunks := [[x50; x4b]]; models.last_chunk := [x03]; models.ending := models.EOF |}.

(** A 200 answer with nothing in it. *)
Definition no_bytes : models.body :=
  {| models.chunks := []; models.last_chunk := []; models.ending := models.EOF |}.

Definition fresh_world (fs : filesystem) : models.world :=
  {| models.w_fs := fs; models.w_sent := []; models.w_requests := [] |}.

(** An archive whose one file cannot be read to its end: [io.Copy]
    fails after these bytes. *)
Definition broken_archive_bytes : list Byte.byte := [x00; x01].
Definition broken_archive : list models.zip_entry :=
  [ {| models.ze_Name := ["vosk-model-small-ru-0.22"; "am"; "final.mdl"];
       models.ze_IsDir := false;
       models.ze_data := broken_archive_bytes;
       models.ze_read := models.CopyFails |} ].

(** A model whose registry size is smaller than the file the server sends. *)
Definition undersized : models.ModelInfo :=
  {| models.ID := "whisper-tiny-q5"; models.Engine_ := models.EngineWhisper;
     models.Name := "Tiny Q5"; models.Filename := "ggml-tiny-q5_1.bin";
     models.URL := models.hf_whisper "ggml-tiny-q5_1.bin";
     models.Size := 2; models.IsZip := false |}.

(** *** Hot swap *)

(** The default model is loaded, a capture session fetches the current
    recognizer, and the settings window swaps the model. *)
Definition hot_calls : list hotswap.call :=
  [hotswap.Call_Load "whisper-tiny-q5"; hotswap.Call_Session;
   hotswap.Call_Swap "whisper-tiny-q5"].

Definition move (i : nat) : hotswap.tick :=
  {| hotswap.who := i; hotswap.fs_now := disk_with_tiny;
     hotswap.engines_now := engines_ok |}.

(** Goroutine 0 loads; goroutine 1 fetches the recognizer. *)
Definition loaded_and_fetched : list hotswap.tick :=
  [move 0; move 0; move 0; move 1].

(** Then goroutine 2 swaps while goroutine 1 is already inside
    [Transcribe]: the background close (goroutine 3) has to wait. *)
Definition swap_during_transcribe : list hotswap.tick :=
  loaded_and_fetched ++ [move 1; move 2; move 2; move 2; move 3].

(** Or goroutine 2 swaps, and the background close runs, before
    goroutine 1 calls [Transcribe]. *)
Definition swap_before_transcribe : list hotswap.tick :=
  loaded_and_fetched ++ [move 2; move 2; move 2; move 3; move 1].

(** *** The hotkey toggle *)

Definition idle_recorder : audio.Recorder :=
  {| audio.stream := None; audio.buffer := [half; half]; audio.samples := [];
     audio.running := false; audio.done := None |}.

(** No input device. *)
Definition pa_none : audio.portaudio :=
  {| audio.OpenDefaultStream := None; audio.stream_Start_ok := true;
     audio.new_chan := 9%nat |}.

(** A session that is capturing, with [cur] loaded and correction
    switched by [correct]. *)
Definition recording_with (cur : option speech.handle) (correct : bool) : app.App :=
  {| app.recorder := two_frames;
     app.speechFactory :=
       {| speech.manager := the_manager; speech.current := cur;
          speech.modelID := "whisper-tiny-q5" |};
     app.llmModel := correct;
     app.LLMEnabled := correct;
     app.Language := "ru";
     app.waveformWin :=
       {| app.waveform.running := true; app.waveform.state := app.waveform.StateRecording;
          app.waveform.resultText := "before" |};
     app.trayState := app.tray.StateRecording;
     app.processing := false |}.

(** Nothing going on, the default model loaded, the last result still in
    the window; [busy] says whether a recognition is in progress. *)
Definition waiting (busy : bool) : toggle.state :=
  {| toggle.the_app :=
       {| app.recorder := idle_recorder;
          app.speechFactory := loaded_factory;
          app.llmModel := false;
          app.LLMEnabled := false;
          app.Language := "ru";
          app.waveformWin :=
            {| app.waveform.running := false; app.waveform.state := app.waveform.StateResult;
               app.waveform.resultText := "before" |};
          app.trayState := app.tray.StateIdle;
          app.processing := busy |};
     toggle.recordingStart := 0 |}.

Definition three_samples : list (list audio.float32) := [[half; half]; [half]].

(** *** More of the model store *)

(** The server of [serve] with the context cancelled from the [n]-th
    chunk on. *)
Definition cancelled_from (n : nat) (b : models.body) : models.env :=
  {| models.dir_size := 4096;
     models.new_request_ok := true;
     models.http_Do :=
       Some {| models.StatusCode := 200; models.ContentLength := 3; models.Body := b |};
     models.ctx_done := fun i => Nat.leb n i;
     models.write_ok := fun _ => true;
     models.sink_ready := fun _ => true;
     models.temp_zip := Some ["tmp"; "model-123.zip"];
     models.zip_OpenReader := fun _ => None |}.

(** A server answering with the status [code] and no body. *)
Definition answering (code : Z) : models.env :=
  {| models.dir_size := 4096;
     models.new_request_ok := true;
     models.http_Do :=
       Some {| models.StatusCode := code; models.ContentLength := 0; models.Body := no_bytes |};
     models.ctx_done := fun _ => false;
     models.write_ok := fun _ => true;
     models.sink_ready := fun _ => true;
     models.temp_zip := Some ["tmp"; "model-123.zip"];
     models.zip_OpenReader := fun _ => None |}.

(** An archive with the model's directory and one file in it. *)
Definition small_archive : list models.zip_entry :=
  [ {| models.ze_Name := ["vosk-model-small-ru-0.22"];
       models.ze_IsDir := true;
       models.ze_data := [];
       models.ze_read := models.ReadOk |};
    {| models.ze_Name := ["vosk-model-small-ru-0.22"; "README"];
       models.ze_IsDir := false;
       models.ze_data := [x68; x69];
       models.ze_read := models.ReadOk |} ].

(** An archive whose one file is named to land beside the model's
    directory, not in it. *)
Definition escaping_archive : list models.zip_entry :=
  [ {| models.ze_Name := ["vosk-model-small-ru-0.22"; ".."; "escaped.txt"];
       models.ze_IsDir := false;
       models.ze_data := [x68; x69];
       models.ze_read := models.ReadOk |} ].

(** *** More hot swaps *)

(** The swap of [swap_during_transcribe], run until every goroutine has
    finished: the transcription returns, then the background close runs. *)
Definition swap_drained : list hotswap.tick :=
  swap_during_transcribe ++ [move 1; move 3].

(** *** Settings and the hotkey *)

Definition saved_settings : config.Config :=
  {| config.language := "en";
     config.uiLanguage := "en";
     config.notifications := false;
     config.hotkey := {| config.Modifiers := ["alt"]; config.Key_ := "f9" |};
     config.modelID := "whisper-tiny-q5";
     config.llm := {| config.Enabled := true; config.LLM_ModelID := "llm-qwen2.5-1.5b" |} |}.

(** A language setting that is not valid UTF-8: the single byte [FF]. *)
Definition broken_language : string := String (Ascii.ascii_of_N 255) EmptyString.


End scenario.

(** * Properties *)

(** ** The recorder *)

Section RecorderFacts.
Import audio.

Lemma len_app (s t : list float32) : len (s ++ t) = len s + len t.
Proof. unfold len. rewrite length_app. lia. Qed.

Lemma len_make (n : Z) : 0 <= n -> len (make n) = n.
Proof. intros Hn. unfold len, make. rewrite repeat_length. lia. Qed.

Lemma MinSamples_value : MinSamples = 3200.
Proof. reflexivity. Qed.

(** Whatever a running recorder has captured, [Stop] hands out at least
    [MinSamples] samples. *)
Lemma Stop_length (r : Recorder) :
  running r = true -> MinSamples <= len (Stop r).2.
Proof.
  intros Hrun. unfold Stop. rewrite Hrun. cbn [negb snd].
  destruct (len (samples r) <? MinSamples) eqn:Hshort.
  - apply Z.ltb_lt in Hshort. rewrite len_app, len_make; lia.
  - apply Z.ltb_ge in Hshort. exact Hshort.
Qed.

Lemma Stop_short (r : Recorder) :
  running r = true -> len (samples r) < MinSamples ->
  (Stop r).2 = samples r ++ repeat zero32 (Z.to_nat (MinSamples - len (samples r))).
Proof.
  intros Hrun Hshort. unfold Stop. rewrite Hrun. cbn [negb snd].
  apply Z.ltb_lt in Hshort. rewrite Hshort. reflexivity.
Qed.

Lemma Stop_stops (r : Recorder) : running (Stop r).1 = false.
Proof. unfold Stop. destruct (running r) eqn:Hrun; cbn; [reflexivity | exact Hrun]. Qed.

(** C10. [Start] on a recorder that is already recording returns nil and
    changes nothing: the open stream, the captured samples and every other
    field of the recorder are as before. *)
Theorem Start_while_recording_changes_nothing (pa : portaudio) (r : Recorder) :
  running r = true ->
  Start pa r = (r, None).
Proof. intros Hrun. unfold Start. rewrite Hrun. reflexivity. Qed.

End RecorderFacts.

Lemma Start_while_recording_changes_nothing_witness :
  audio.running scenario.two_frames = true /\
  audio.Start scenario.pa_ok scenario.two_frames = (scenario.two_frames, None).
Proof.
  split; [reflexivity |].
  apply (Start_while_recording_changes_nothing scenario.pa_ok scenario.two_frames).
  reflexivity.
Defined.

(** ** Stopping a recording *)

Section StopFacts.
Import audio speech app.

Context (k : session) (a : App).

(** C3. A recording stopped before [MinRecordingDuration] (500 ms) has
    elapsed makes no call at all to the recognizer (nor any notification:
    it is not an error), and the session is idle again: capture stopped,
    window hidden, tray idle, [processing] released. *)
Theorem short_recording_never_reaches_engine :
  elapsed k < MinRecordingDuration ->
  stoppable a ->
  MinRecordingDuration = 500 * 1000000 /\
  (stopRecording k a).2 = [] /\
  processing (stopRecording k a).1 = false /\
  trayState (stopRecording k a).1 = tray.StateIdle /\
  waveform.running (waveformWin (stopRecording k a).1) = false /\
  IsRecording (recorder (stopRecording k a).1) = false.
Proof.
  intros Hshort [Hrun Hproc]. apply Z.ltb_lt in Hshort.
  unfold stopRecording. rewrite Hrun, Hproc. cbn [negb orb].
  destruct (Stop (recorder _)) as [r' samples] eqn:Hstop.
  rewrite Hshort. cbn.
  assert (Hr' : running r' = false).
  { change r' with (r', samples).1. rewrite <- Hstop. apply Stop_stops. }
  repeat split; try reflexivity; try exact Hr'.
  unfold waveform.Hide. destruct (negb _) eqn:Hn; cbn.
  - apply negb_true_iff in Hn. exact Hn.
  - reflexivity.
Qed.

End StopFacts.

Lemma short_recording_never_reaches_engine_witness :
  let k := scenario.stop_after 100 (Some "hello") false None in
  app.elapsed k < app.MinRecordingDuration /\
  app.stoppable scenario.recording_app /\
  (app.stopRecording k scenario.recording_app).2 = [] /\
  app.processing (app.stopRecording k scenario.recording_app).1 = false.
Proof.
  intros k.
  assert (Hshort : app.elapsed k < app.MinRecordingDuration) by (vm_compute; reflexivity).
  assert (Hstop : app.stoppable scenario.recording_app) by (split; reflexivity).
  destruct (short_recording_never_reaches_engine k scenario.recording_app Hshort Hstop)
    as (_ & Hevs & Hproc & _).
  exact (conj Hshort (conj Hstop (conj Hevs Hproc))).
Defined.

Section EngineCalls.
Import audio speech app.

Context (k : session) (a : App).

(** What [recognize] does not touch. *)
Lemma recognize_clears_processing (b : App) rec s :
  processing (recognize k rec s b).1 = false.
Proof.
  unfold recognize.
  destruct (Transcribe k rec s (Language b)) as [text|]; [|reflexivity].
  destruct (String.eqb text ""); [reflexivity|].
  destruct (LLMEnabled b && llmModel b); [|reflexivity].
  destruct (llm.CorrectText _ _ _ _ _); reflexivity.
Qed.

(** The only recognizer call [recognize] makes is the one on the samples
    it was given. *)
Lemma recognize_calls (b : App) rec s rec' s' lang :
  In (Recognizer_Transcribe rec' s' lang) (recognize k rec s b).2 ->
  rec' = rec /\ s' = s /\ lang = Language b.
Proof.
  unfold recognize.
  destruct (Transcribe k rec s (Language b)) as [text|].
  - destruct (String.eqb text "").
    + cbn. intros [H|[H|[]]]; [injection H as <- <- <-; auto | discriminate].
    + destruct (LLMEnabled b && llmModel b).
      * destruct (llm.CorrectText _ _ _ _ _). cbn.
        intros [H|[H|[]]]; [injection H as <- <- <-; auto | discriminate].
      * cbn. intros [H|[]]. injection H as <- <- <-; auto.
  - cbn. intros [H|[H|[]]]; [injection H as <- <- <-; auto | discriminate].
Qed.

(** Every recognizer call of [stopRecording] passes exactly what
    [Recorder.Stop] returned. *)
Lemma stopRecording_calls rec s lang :
  In (Recognizer_Transcribe rec s lang) (stopRecording k a).2 ->
  stoppable a /\ s = (Stop (recorder a)).2 /\ Current (speechFactory a) = Some rec.
Proof.
  unfold stopRecording, stoppable.
  destruct (IsRecording (recorder a)) eqn:Hrun; [|intros []].
  destruct (processing a) eqn:Hproc; [intros []|]. cbn [negb orb].
  cbn [recorder set_window set_processing speechFactory].
  destruct (Stop (recorder a)) as [r' samples] eqn:Hstop.
  destruct (elapsed k <? MinRecordingDuration); [intros []|].
  destruct (Current (speechFactory a)) as [h|] eqn:Hcur.
  - destruct (len samples =? 0).
    + cbn. intros [H|[H|[]]]; discriminate.
    + destruct (recognize _ _ _ _) as [a' evs] eqn:Hrec. cbn [snd].
      intros [H|H]; [discriminate|].
      change evs with (a', evs).2 in H. rewrite <- Hrec in H.
      apply recognize_calls in H as (-> & -> & _). auto.
  - cbn. intros [H|[H|[]]]; discriminate.
Qed.

(** C4. When the captured buffer is shorter than [MinSamples] (3200
    samples, 200 ms at 16 kHz), [Recorder.Stop] returns it followed by
    zero samples up to [MinSamples], and that padded buffer, of length at
    least [MinSamples], is what every recognizer call receives. *)
Theorem short_buffer_is_padded_with_silence :
  running (recorder a) = true ->
  len (samples (recorder a)) < MinSamples ->
  let padded :=
    samples (recorder a)
    ++ repeat zero32 (Z.to_nat (MinSamples - len (samples (recorder a)))) in
  MinSamples = 3200 /\
  (Stop (recorder a)).2 = padded /\
  MinSamples <= len padded /\
  forall rec s lang,
    In (Recognizer_Transcribe rec s lang) (stopRecording k a).2 -> s = padded.
Proof.
  intros Hrun Hshort padded.
  pose proof (Stop_short _ Hrun Hshort) as Hpad. fold padded in Hpad.
  repeat split.
  - exact Hpad.
  - rewrite <- Hpad. apply Stop_length, Hrun.
  - intros rec s lang Hin. apply stopRecording_calls in Hin as (_ & -> & _). exact Hpad.
Qed.

End EngineCalls.

Lemma short_buffer_is_padded_with_silence_witness :
  let k := scenario.stop_after 2000 (Some "hello") false None in
  let a := scenario.recording_app in
  audio.len (audio.samples (app.recorder a)) < audio.MinSamples /\
  audio.len (audio.Stop (app.recorder a)).2 = 3200 /\
  forall rec s lang,
    In (app.Recognizer_Transcribe rec s lang) (app.stopRecording k a).2 ->
    audio.len s = 3200.
Proof.
  intros k a.
  assert (Hrun : audio.running (app.recorder a) = true) by reflexivity.
  assert (Hshort : audio.len (audio.samples (app.recorder a)) < audio.MinSamples)
    by (vm_compute; reflexivity).
  destruct (short_buffer_is_padded_with_silence k a Hrun Hshort) as (_ & Hstop & _ & Hcalls).
  split; [exact Hshort|]. split.
  - vm_compute. reflexivity.
  - intros rec s lang Hin. rewrite (Hcalls rec s lang Hin). vm_compute. reflexivity.
Defined.

Section Recognition.
Import audio speech app.

Context (k : session) (a : App) (rec : handle).

Lemma stopRecording_recognizes :
  stoppable a ->
  MinRecordingDuration <= elapsed k ->
  Current (speechFactory a) = Some rec ->
  stopRecording k a =
    ((recognize k rec (Stop (recorder a)).2 (at_recognition a)).1,
     Notifier_Processing :: (recognize k rec (Stop (recorder a)).2 (at_recognition a)).2).
Proof.
  intros [Hrun Hproc] Hlong Hcur. apply Z.ltb_ge in Hlong.
  unfold stopRecording. rewrite Hrun, Hproc. cbn [negb orb].
  cbn [recorder set_window set_processing speechFactory].
  rewrite Hcur.
  pose proof (Stop_length (recorder a) Hrun) as Hlen.
  unfold at_recognition.
  destruct (Stop (recorder a)) as [r' samples]. cbn [fst snd] in *.
  rewrite Hlong.
  replace (len samples =? 0) with false
    by (symmetry; apply Z.eqb_neq; rewrite MinSamples_value in Hlen; lia).
  destruct (recognize _ _ _ _). reflexivity.
Qed.

(** C8. When the recognizer returns the empty text, the session notifies
    "empty result" and nothing else after the call: no error notification
    and no call of the correction model; the window is hidden, the tray is
    idle and [processing] is released. *)
Theorem empty_transcription_is_reported_as_empty :
  stoppable a ->
  MinRecordingDuration <= elapsed k ->
  Current (speechFactory a) = Some rec ->
  Transcribe k rec (Stop (recorder a)).2 (Language a) = Some "" ->
  (stopRecording k a).2 =
    [Notifier_Processing;
     Recognizer_Transcribe rec (Stop (recorder a)).2 (Language a);
     Notifier_Empty] /\
  processing (stopRecording k a).1 = false /\
  trayState (stopRecording k a).1 = tray.StateIdle /\
  waveform.running (waveformWin (stopRecording k a).1) = false.
Proof.
  intros Hstop Hlong Hcur Hempty.
  rewrite (stopRecording_recognizes Hstop Hlong Hcur). cbn [fst snd].
  unfold recognize. cbn [Language at_recognition set_tray set_recorder set_window set_processing].
  rewrite Hempty. cbn.
  repeat split.
  unfold waveform.Hide. destruct (waveformWin a) as [[] ? ?]; reflexivity.
Qed.

(** The part of C5 the code keeps. When the deadline has passed at the
    time [CorrectText] polls its context, or generation fails,
    [CorrectText] returns the text it was given; and the session then
    shows that uncorrected transcription as its result, with no error
    notification. *)
Theorem failed_correction_falls_back_to_transcription (text : string) :
  ctx_done k = true \/ Generate k (llm.prompt_of text) 256 = None ->
  (llm.CorrectText (strings_TrimSpace k) (strings_Index k) (Generate k)
     (ctx_done k) text).1 = text /\
  (stoppable a ->
   MinRecordingDuration <= elapsed k ->
   Current (speechFactory a) = Some rec ->
   Transcribe k rec (Stop (recorder a)).2 (Language a) = Some text ->
   text <> "" ->
   LLMEnabled a = true -> llmModel a = true ->
   (stopRecording k a).2 =
     [Notifier_Processing;
      Recognizer_Transcribe rec (Stop (recorder a)).2 (Language a);
      Llm_CorrectText text] /\
   waveform.resultText (waveformWin (stopRecording k a).1) = text /\
   waveform.state (waveformWin (stopRecording k a).1) = waveform.StateResult /\
   processing (stopRecording k a).1 = false).
Proof.
  intros Hfail.
  set (res := llm.CorrectText (strings_TrimSpace k) (strings_Index k) (Generate k)
                (ctx_done k) text).
  assert (Hcorr : res.1 = text).
  { subst res. unfold llm.CorrectText.
    destruct (String.eqb (strings_TrimSpace k text) ""); [reflexivity|].
    destruct (ctx_done k); [reflexivity|].
    destruct Hfail as [Hdone | Hgen]; [discriminate|]. rewrite Hgen. reflexivity. }
  split; [exact Hcorr|].
  intros Hstop Hlong Hcur Hheard Hne Hen Hllm.
  assert (Hneb : String.eqb text "" = false) by (apply String.eqb_neq; exact Hne).
  rewrite (stopRecording_recognizes Hstop Hlong Hcur). cbn [fst snd].
  unfold recognize.
  cbn [Language LLMEnabled llmModel at_recognition set_tray set_recorder set_window
       set_processing].
  rewrite Hheard, Hen, Hllm, Hneb. cbn [andb]. fold res.
  destruct res as [c err]. cbn [fst] in Hcorr. subst c. cbn.
  repeat split.
  unfold waveform.SetResult.
  destruct err; cbn; rewrite ?Hneb; cbn; rewrite ?Hneb; reflexivity.
Qed.

End Recognition.

Lemma empty_transcription_is_reported_as_empty_witness :
  let k := scenario.stop_after 2000 (Some "") false (Some "never asked") in
  let a := scenario.recording_app in
  app.Transcribe k 0%nat (audio.Stop (app.recorder a)).2 (app.Language a) = Some "" /\
  (app.stopRecording k a).2 =
    [app.Notifier_Processing;
     app.Recognizer_Transcribe 0%nat (audio.Stop (app.recorder a)).2 "ru";
     app.Notifier_Empty] /\
  app.processing (app.stopRecording k a).1 = false.
Proof.
  intros k a.
  assert (Hstop : app.stoppable a) by (split; reflexivity).
  assert (Hlong : app.MinRecordingDuration <= app.elapsed k) by (vm_compute; discriminate).
  assert (Hcur : speech.Current (app.speechFactory a) = Some 0%nat) by reflexivity.
  assert (Hempty : app.Transcribe k 0%nat (audio.Stop (app.recorder a)).2 (app.Language a)
                   = Some "") by reflexivity.
  destruct (empty_transcription_is_reported_as_empty k a 0%nat Hstop Hlong Hcur Hempty)
    as (Hevs & Hproc & _).
  exact (conj Hempty (conj Hevs Hproc)).
Defined.

Lemma failed_correction_falls_back_to_transcription_witness :
  let k := scenario.stop_after 2000 (Some "helo wrld") true (Some "hello world") in
  let a := scenario.recording_app in
  app.ctx_done k = true /\
  (llm.CorrectText (app.strings_TrimSpace k) (app.strings_Index k) (app.Generate k)
     (app.ctx_done k) "helo wrld").1 = "helo wrld" /\
  app.waveform.resultText (app.waveformWin (app.stopRecording k a).1) = "helo wrld" /\
  app.waveform.state (app.waveformWin (app.stopRecording k a).1) = app.waveform.StateResult.
Proof.
  intros k a.
  assert (Hlate : app.ctx_done k = true) by reflexivity.
  destruct (failed_correction_falls_back_to_transcription k a 0%nat "helo wrld"
              (or_introl Hlate)) as [Hsame Hsession].
  destruct Hsession as (_ & Hres & Hstate & _).
  - split; reflexivity.
  - vm_compute; discriminate.
  - reflexivity.
  - reflexivity.
  - discriminate.
  - reflexivity.
  - reflexivity.
  - exact (conj Hlate (conj Hsame (conj Hres Hstate))).
Defined.

Section Deadline.
Import audio speech app.

(** Past its one poll, [CorrectText] never looks at the context again:
    whatever [Generate] returns, however late, is cleaned and returned
    with no error. *)
Lemma CorrectText_after_poll (k : session) (text result : string) :
  strings_TrimSpace k text <> "" ->
  ctx_done k = false ->
  Generate k (llm.prompt_of text) 256 = Some result ->
  llm.CorrectText (strings_TrimSpace k) (strings_Index k) (Generate k) (ctx_done k) text
  = (let corrected := strings_TrimSpace k result in
     let idx := strings_Index k corrected "<|im_end|>" in
     if idx =? -1 then corrected
     else strings_TrimSpace k (String.substring 0 (Z.to_nat idx) corrected),
     None).
Proof.
  intros Htext%String.eqb_neq Hlive Hgen. unfold llm.CorrectText.
  rewrite Htext, Hlive, Hgen. reflexivity.
Qed.

End Deadline.

(** C5. The code breaks the claim when the deadline passes during
    generation. [stopRecording] hands [CorrectText] a context with a
    timeout of 30 s; [CorrectText] polls it once, before [Generate], and
    [Generate] takes no context. Here the transcription is "helo wrld",
    the context is live at the poll, and generation answers "hello world"
    after 45 s: the deadline has passed by then, yet [CorrectText] returns
    the generated text with no error, and the session shows it instead of
    the transcription. *)
Theorem correction_outlives_its_deadline :
  let k := scenario.slow_correction in
  let a := scenario.recording_app in
  app.ctx_done k = app.deadline_exceeded app.CorrectionTimeout 0 /\
  app.ctx_done k = false /\
  app.deadline_exceeded app.CorrectionTimeout (0 + scenario.generation_time) = true /\
  llm.CorrectText (app.strings_TrimSpace k) (app.strings_Index k) (app.Generate k)
    (app.ctx_done k) "helo wrld" = ("hello world", None) /\
  (app.stopRecording k a).2 =
    [app.Notifier_Processing;
     app.Recognizer_Transcribe 0%nat (audio.Stop (app.recorder a)).2 "ru";
     app.Llm_CorrectText "helo wrld"] /\
  app.waveform.resultText (app.waveformWin (app.stopRecording k a).1) = "hello world".
Proof. vm_compute. repeat split. Qed.

(** ** The factory *)

Section FactoryFacts.
Import models speech.

Context (E : engines) (dsz : Z) (fs : filesystem).

Lemma Create_unknown_model (f : Factory) (id : string) :
  GetModel id = None -> Create E dsz fs f id = inl (ModelNotFound id).
Proof. intros H. unfold Create. rewrite H. reflexivity. Qed.

Lemma Create_not_downloaded (f : Factory) (id : string) (info : ModelInfo) :
  GetModel id = Some info ->
  IsDownloaded dsz (manager f) fs info = false ->
  Create E dsz fs f id = inl (ModelNotDownloaded (Name info)).
Proof. intros H Hd. unfold Create. rewrite H, Hd. reflexivity. Qed.

Lemma Create_whisper_init_failure (f : Factory) (id : string) (info : ModelInfo) :
  GetModel id = Some info ->
  IsDownloaded dsz (manager f) fs info = true ->
  Engine_ info = EngineWhisper ->
  whisper_New E (GetModelPath (manager f) info) = false ->
  Create E dsz fs f id = inl (EngineInitFailed WhisperLoadFailed).
Proof.
  intros H Hd He Hw. unfold Create, NewWhisperFromFile. rewrite H, Hd, He, Hw. reflexivity.
Qed.

(** C2. When [Create] fails inside [Swap] (unknown model id, model not
    downloaded, engine initialisation failure, or any other cause), [Swap]
    returns that error and the factory is as before: same current
    recognizer, same current model id; no recognizer is closed or handed
    to a background close. *)
Theorem failed_swap_keeps_current_recognizer
    (f : Factory) (id : string) (hp : heap) (err : create_error) :
  Create E dsz fs f id = inl err ->
  Swap E dsz fs f id hp = (f, hp, Some err, None) /\
  Current (Swap E dsz fs f id hp).1.1.1 = Current f /\
  CurrentModelID (Swap E dsz fs f id hp).1.1.1 = CurrentModelID f.
Proof.
  intros Hfail. unfold Swap. rewrite Hfail. auto.
Qed.

End FactoryFacts.

Lemma failed_swap_keeps_current_recognizer_witness :
  speech.Create scenario.engines_ok 4096 scenario.disk_with_tiny
    scenario.loaded_factory "whisper-base" = inl (speech.ModelNotDownloaded "Base") /\
  speech.Swap scenario.engines_ok 4096 scenario.disk_with_tiny
    scenario.loaded_factory "whisper-base" scenario.loaded_heap
  = (scenario.loaded_factory, scenario.loaded_heap,
     Some (speech.ModelNotDownloaded "Base"), None).
Proof.
  assert (Hfail : speech.Create scenario.engines_ok 4096 scenario.disk_with_tiny
            scenario.loaded_factory "whisper-base" = inl (speech.ModelNotDownloaded "Base"))
    by (vm_compute; reflexivity).
  split; [exact Hfail|].
  exact (proj1 (failed_swap_keeps_current_recognizer scenario.engines_ok 4096
                  scenario.disk_with_tiny scenario.loaded_factory "whisper-base"
                  scenario.loaded_heap _ Hfail)).
Defined.

(** ** The model store *)

Section DownloadFacts.
Import models.

(** The completion update of an already present model. *)
Lemma send_keeps_disk (progress : bool) (w : world) (p : Progress) :
  w_fs (send progress w p) = w_fs w /\ w_requests (send progress w p) = w_requests w.
Proof. unfold send. destruct progress; auto. Qed.

(** C6. [Download] of a model that is already downloaded delivers one
    update with [Downloaded = Total = Size] and [Done = true] (when a sink
    is given), returns nil, requests nothing from the network and leaves
    the disk as it is; a second call does the same again. *)
Theorem Download_is_idempotent
    (e e' : env) (m : Manager) (info : ModelInfo) (progress : bool) (w : world) :
  IsDownloaded (dir_size e) m (w_fs w) info = true ->
  dir_size e' = dir_size e ->
  let complete :=
    {| ModelID := ID info; Downloaded := Size info; Total := Size info; Done := true |} in
  let w1 := (Download e m info progress w).1 in
  let w2 := (Download e' m info progress w1).1 in
  Download e m info progress w = (send progress w complete, None) /\
  Download e' m info progress w1 = (send progress w1 complete, None) /\
  w_requests w2 = w_requests w /\
  w_fs w2 = w_fs w /\
  IsDownloaded (dir_size e) m (w_fs w2) info = true.
Proof.
  intros Hd Hsz complete w1 w2.
  assert (H1 : Download e m info progress w = (send progress w complete, None)).
  { unfold Download. rewrite Hd. reflexivity. }
  assert (Hw1 : w_fs w1 = w_fs w /\ w_requests w1 = w_requests w).
  { subst w1. rewrite H1. apply send_keeps_disk. }
  assert (H2 : Download e' m info progress w1 = (send progress w1 complete, None)).
  { unfold Download. rewrite Hsz, (proj1 Hw1), Hd. reflexivity. }
  assert (Hw2 : w_fs w2 = w_fs w1 /\ w_requests w2 = w_requests w1).
  { subst w2. rewrite H2. apply send_keeps_disk. }
  destruct Hw1 as [Hf1 Hr1], Hw2 as [Hf2 Hr2].
  repeat split; try assumption; try congruence.
Qed.

End DownloadFacts.

Lemma Download_is_idempotent_witness :
  let e := scenario.serve 3 scenario.three_bytes None in
  let w := scenario.fresh_world scenario.disk_with_tiny in
  models.IsDownloaded 4096 scenario.the_manager scenario.disk_with_tiny scenario.tiny = true /\
  models.w_sent (models.Download e scenario.the_manager scenario.tiny true
                   (models.Download e scenario.the_manager scenario.tiny true w).1).1
  = [ {| models.ModelID := "whisper-tiny-q5"; models.Downloaded := 33554432;
         models.Total := 33554432; models.Done := true |};
      {| models.ModelID := "whisper-tiny-q5"; models.Downloaded := 33554432;
         models.Total := 33554432; models.Done := true |} ] /\
  models.w_requests (models.Download e scenario.the_manager scenario.tiny true
                       (models.Download e scenario.the_manager scenario.tiny true w).1).1 = [].
Proof.
  intros e w.
  assert (Hd : models.IsDownloaded (models.dir_size e) scenario.the_manager (models.w_fs w)
                 scenario.tiny = true) by (vm_compute; reflexivity).
  destruct (Download_is_idempotent e e scenario.the_manager scenario.tiny true w Hd eq_refl)
    as (H1 & H2 & Hreq & _).
  split; [exact Hd|]. split.
  - rewrite H2, H1. reflexivity.
  - exact Hreq.
Defined.

Section ProgressFacts.
Import models.

Lemma wrap64_small (z : Z) : in_int64 z -> wrap64 z = z.
Proof.
  unfold in_int64, min_int64, max_int64, wrap64. intros Hz.
  rewrite Z.mod_small by lia. lia.
Qed.

Lemma bytes_in_nonneg (cs : list (list Byte.byte)) : 0 <= bytes_in cs.
Proof.
  induction cs as [|c cs IH]; cbn [bytes_in foldr]; [lia|].
  fold (bytes_in cs). lia.
Qed.

Context (e : env) (info : ModelInfo) (progress : bool).

(** What one [consume] adds to the sink and to the byte count. *)
Lemma consume_sent tmp total i c d w :
  0 <= d -> d + Z.of_nat (length c) <= max_int64 ->
  exists ups,
    w_sent (consume e info progress tmp total i c d w).1.1 = w_sent w ++ ups /\
    Forall (fun p => Downloaded p = d + Z.of_nat (length c)) ups /\
    ((consume e info progress tmp total i c d w).2 = None ->
     (consume e info progress tmp total i c d w).1.2 = d + Z.of_nat (length c)).
Proof.
  intros Hd Hmax. unfold consume.
  destruct (0 <? Z.of_nat (length c)) eqn:Hn.
  - destruct (write_ok e i).
    + rewrite wrap64_small by (unfold in_int64, min_int64, max_int64 in *; lia).
      unfold try_send. destruct (progress && sink_ready e i); cbn.
      * eexists [_]. split; [reflexivity|]. split; [|reflexivity].
        constructor; [reflexivity | constructor].
      * exists []. rewrite app_nil_r. auto.
    + exists []. cbn. rewrite app_nil_r. split; [reflexivity|]. split; [constructor|discriminate].
  - apply Z.ltb_ge in Hn. exists []. cbn. rewrite app_nil_r.
    split; [reflexivity|]. split; [constructor|]. intros _. lia.
Qed.

Lemma constant_is_nondecreasing (v : Z) (ups : list Progress) :
  Forall (fun p => Downloaded p = v) ups -> nondecreasing (Downloaded <$> ups).
Proof.
  induction 1 as [|p ups Hp Hall IH]; cbn; constructor; [exact IH|].
  apply Forall_fmap. eapply Forall_impl; [exact Hall|]. cbn. intros q Hq. lia.
Qed.

(** The updates of the transfer loop are the running byte counts: they
    grow, and stay within the bytes the body carries. *)
Lemma transfer_sent b tmp total cs i d w :
  0 <= d ->
  d + bytes_in cs + Z.of_nat (length (last_chunk b)) <= max_int64 ->
  exists ups,
    w_sent (transfer e info progress b tmp total cs i d w).1 = w_sent w ++ ups /\
    nondecreasing (Downloaded <$> ups) /\
    Forall (fun p => d <= Downloaded p
                     <= d + bytes_in cs + Z.of_nat (length (last_chunk b))) ups.
Proof.
  revert i d w. induction cs as [|c cs IH]; intros i d w Hd Hmax; cbn [transfer].
  - destruct (ctx_done e i).
    { exists []. cbn. rewrite app_nil_r. repeat constructor. }
    cbn [bytes_in foldr] in *.
    destruct (consume_sent tmp total i (last_chunk b) d w Hd ltac:(lia))
      as (ups & Hsent & Hall & _).
    exists ups.
    destruct (consume _ _ _ _ _ _ _ _ _) as [[w' d'] r]. cbn [fst snd] in *.
    split; [destruct r; [exact Hsent | destruct (ending b); exact Hsent]|].
    split; [eapply constant_is_nondecreasing; exact Hall|].
    eapply Forall_impl; [exact Hall|]. cbn. intros p ->. lia.
  - destruct (ctx_done e i).
    { exists []. cbn. rewrite app_nil_r. repeat constructor. }
    cbn [bytes_in foldr] in *. fold (bytes_in cs) in *.
    pose proof (bytes_in_nonneg cs) as Hcs.
    destruct (consume_sent tmp total i c d w Hd ltac:(lia)) as (ups & Hsent & Hall & Hd').
    destruct (consume _ _ _ _ _ _ _ _ _) as [[w' d'] r]. cbn [fst snd] in *.
    destruct r as [err|].
    + exists ups. cbn. split; [exact Hsent|].
      split; [eapply constant_is_nondecreasing; exact Hall|].
      eapply Forall_impl; [exact Hall|]. cbn. intros p ->. lia.
    + specialize (Hd' eq_refl). subst d'.
      destruct (IH (S i) (d + Z.of_nat (length c)) w' ltac:(lia) ltac:(lia))
        as (ups' & Hsent' & Hsorted' & Hall').
      exists (ups ++ ups'). rewrite Hsent', Hsent, app_assoc. split; [reflexivity|].
      split.
      * unfold nondecreasing. rewrite fmap_app. apply StronglySorted_app. split; [|split].
        -- intros x1 x2 Hx1 Hx2.
           apply list_elem_of_fmap in Hx1 as (p1 & -> & Hp1).
           apply list_elem_of_fmap in Hx2 as (p2 & -> & Hp2).
           rewrite Forall_forall in Hall, Hall'.
           rewrite (Hall p1 Hp1). specialize (Hall' p2 Hp2). lia.
        -- eapply constant_is_nondecreasing; exact Hall.
        -- exact Hsorted'.
      * apply Forall_app. split.
        -- eapply Forall_impl; [exact Hall|]. cbn. intros p ->. lia.
        -- eapply Forall_impl; [exact Hall'|]. cbn. intros p Hp. lia.
Qed.

End ProgressFacts.

Section ProgressOfDownload.
Import models.

Context (e : env) (m : Manager) (info : ModelInfo) (progress : bool).

(** The response, if any, carries no more bytes than the total the
    progress updates announce, and that total is an [int64]. *)
Hypothesis within_total :
  forall resp, http_Do e = Some resp ->
    body_len (Body resp) <= total_of info resp <= max_int64.

Lemma append_completion (ups : list Progress) (total bound : Z) (p : Progress) :
  nondecreasing (Downloaded <$> ups) ->
  Forall (fun q => 0 <= Downloaded q <= bound) ups ->
  bound <= Downloaded p ->
  nondecreasing (Downloaded <$> (ups ++ [p])).
Proof.
  intros Hsorted Hall Hp. unfold nondecreasing. rewrite fmap_app.
  apply StronglySorted_app. split; [|split].
  - intros x1 x2 Hx1 Hx2.
    apply list_elem_of_fmap in Hx1 as (q & -> & Hq).
    apply list_elem_of_fmap in Hx2 as (p' & -> & Hp'%list_elem_of_singleton). subst p'.
    rewrite Forall_forall in Hall. specialize (Hall q Hq). lia.
  - exact Hsorted.
  - cbn. repeat constructor.
Qed.

Lemma send_sent (w : world) (p : Progress) :
  w_sent (send progress w p) = w_sent w ++ (if progress then [p] else []).
Proof. unfold send. destruct progress; cbn; [reflexivity | by rewrite app_nil_r]. Qed.

Lemma downloadFile_sent (w : world) :
  exists ups,
    w_sent (downloadFile e m info progress w).1 = w_sent w ++ ups /\
    nondecreasing (Downloaded <$> ups).
Proof.
  unfold downloadFile.
  destruct (downloadFile_body _ _ _ _ _ _) as [w' r] eqn:Hbody. cbn [fst set_fs w_sent].
  revert Hbody. unfold downloadFile_body.
  assert (Hnil : exists ups : list Progress,
            w_sent w = w_sent w ++ ups /\ nondecreasing (Downloaded <$> ups)).
  { exists []. rewrite app_nil_r. split; [reflexivity | constructor]. }
  destruct (new_request_ok e); cbn [negb]; [|intros [= <- <-]; exact Hnil].
  pose proof within_total as Hwithin.
  destruct (http_Do e) as [resp|]; [|intros [= <- <-]; exact Hnil].
  destruct (StatusCode resp =? 200); cbn [negb]; [|intros [= <- <-]; exact Hnil].
  cbn [request w_fs].
  destruct (os_Create _ _) as [fs1|]; [|intros [= <- <-]; exact Hnil].
  destruct (Hwithin resp eq_refl) as [Hlen Hmax]. unfold body_len in Hlen.
  destruct (transfer_sent e info progress (Body resp)
              (path_add_suffix (GetModelPath m info) ".tmp") (total_of info resp)
              (chunks (Body resp)) 0 0
              (set_fs (request w (URL info)) fs1) ltac:(lia) ltac:(lia))
    as (ups & Hsent & Hsorted & Hall).
  destruct (transfer _ _ _ _ _ _ _ _ _ _) as [w2 r2]. cbn [fst] in Hsent.
  cbn [set_fs request w_sent] in Hsent.
  destruct r2 as [err|]; [intros [= <- <-]; exists ups; auto|].
  destruct (os_Rename _ _ _) as [fs3|]; [|intros [= <- <-]; exists ups; auto].
  intros [= <- <-]. rewrite send_sent. cbn [set_fs w_sent]. rewrite Hsent, <- app_assoc.
  destruct progress; [|exists ups; rewrite app_nil_r; auto].
  eexists. split; [reflexivity|].
  apply (append_completion ups (total_of info resp) (total_of info resp)); [exact Hsorted| |cbn; lia].
  eapply Forall_impl; [exact Hall|]. cbn. intros q Hq. lia.
Qed.

Lemma downloadAndUnzip_sent (w : world) :
  exists ups,
    w_sent (downloadAndUnzip e m info progress w).1 = w_sent w ++ ups /\
    nondecreasing (Downloaded <$> ups).
Proof.
  assert (Hnil : exists ups : list Progress,
            w_sent w = w_sent w ++ ups /\ nondecreasing (Downloaded <$> ups)).
  { exists []. rewrite app_nil_r. split; [reflexivity | constructor]. }
  unfold downloadAndUnzip.
  destruct (os_CreateTemp e (w_fs w)) as [[tmpPath fs0]|]; [|exact Hnil].
  destruct (downloadAndUnzip_body _ _ _ _ _ _) as [w' r] eqn:Hbody. cbn [fst set_fs w_sent].
  revert Hbody. unfold downloadAndUnzip_body.
  destruct (new_request_ok e); cbn [negb]; [|intros [= <- <-]; exact Hnil].
  pose proof within_total as Hwithin.
  destruct (http_Do e) as [resp|]; [|intros [= <- <-]; exact Hnil].
  destruct (StatusCode resp =? 200); cbn [negb]; [|intros [= <- <-]; exact Hnil].
  destruct (Hwithin resp eq_refl) as [Hlen Hmax]. unfold body_len in Hlen.
  destruct (transfer_sent e info progress (Body resp) tmpPath (total_of info resp)
              (chunks (Body resp)) 0 0
              (request (set_fs w fs0) (URL info)) ltac:(lia) ltac:(lia))
    as (ups & Hsent & Hsorted & Hall).
  destruct (transfer _ _ _ _ _ _ _ _ _ _) as [w2 r2]. cbn [fst] in Hsent.
  cbn [set_fs request w_sent] in Hsent.
  destruct r2 as [err|]; [intros [= <- <-]; exists ups; auto|].
  destruct (unzip _ _ _ _) as [fs3 []]; [|intros [= <- <-]; exists ups; auto].
  intros [= <- <-]. rewrite send_sent. cbn [set_fs w_sent]. rewrite Hsent, <- app_assoc.
  destruct progress; [|exists ups; rewrite app_nil_r; auto].
  eexists. split; [reflexivity|].
  apply (append_completion ups (total_of info resp) (total_of info resp)); [exact Hsorted| |cbn; lia].
  eapply Forall_impl; [exact Hall|]. cbn. intros q Hq. lia.
Qed.

(** C9, as the code has it. Within one download the updates delivered to
    the sink, the completion update included, carry non-decreasing byte
    counts provided the body does not carry more bytes than the total in
    use (the declared [Content-Length] when positive, else the registry
    size): the streamed updates carry the running count of bytes written
    and the completion update carries that total. *)
Theorem progress_is_nondecreasing_within_total (w : world) :
  nondecreasing (Downloaded <$> updates w (Download e m info progress w).1).
Proof.
  assert (Hsent : exists ups,
            w_sent (Download e m info progress w).1 = w_sent w ++ ups /\
            nondecreasing (Downloaded <$> ups)).
  { unfold Download.
    destruct (IsDownloaded _ _ _ _).
    - cbn [fst]. rewrite send_sent. eexists. split; [reflexivity|].
      destruct progress; cbn; repeat constructor.
    - destruct (IsZip info); [apply downloadAndUnzip_sent | apply downloadFile_sent]. }
  destruct Hsent as (ups & Hsent & Hsorted).
  unfold updates. rewrite Hsent, drop_app_length. exact Hsorted.
Qed.

End ProgressOfDownload.

Lemma progress_is_nondecreasing_within_total_witness :
  let e := scenario.serve 3 scenario.three_bytes None in
  let w := scenario.fresh_world scenario.bare_disk in
  let w' := (models.Download e scenario.the_manager scenario.tiny true w).1 in
  models.Downloaded <$> models.updates w w' = [2; 3; 3] /\
  models.nondecreasing (models.Downloaded <$> models.updates w w').
Proof.
  intros e w w'. split; [vm_compute; reflexivity|].
  apply (progress_is_nondecreasing_within_total e scenario.the_manager scenario.tiny true).
  intros resp [= <-]. vm_compute. split; discriminate.
Defined.

(** C9, as stated, fails: the server declares no length, the registry
    size (2) is below the 3 bytes it sends, and the sink receives the
    counts 2, 3 and then, with the completion flag, 2. *)
Lemma progress_decreases_at_completion :
  let e := scenario.serve (-1) scenario.three_bytes None in
  let w := scenario.fresh_world scenario.bare_disk in
  let w' := (models.Download e scenario.the_manager scenario.undersized true w).1 in
  (models.Download e scenario.the_manager scenario.undersized true w).2 = None /\
  models.updates w w' =
    [ {| models.ModelID := "whisper-tiny-q5"; models.Downloaded := 2; models.Total := 2;
         models.Done := false |};
      {| models.ModelID := "whisper-tiny-q5"; models.Downloaded := 3; models.Total := 2;
         models.Done := false |};
      {| models.ModelID := "whisper-tiny-q5"; models.Downloaded := 2; models.Total := 2;
         models.Done := true |} ] /\
  ~ models.nondecreasing (models.Downloaded <$> models.updates w w').
Proof.
  intros e w w'.
  assert (Hups : models.Downloaded <$> models.updates w w' = [2; 3; 2])
    by (vm_compute; reflexivity).
  split; [vm_compute; reflexivity|]. split; [vm_compute; reflexivity|].
  rewrite Hups. unfold models.nondecreasing. intros Hsorted.
  apply StronglySorted_cons in Hsorted as [_ Hsorted].
  apply StronglySorted_cons in Hsorted as [Hle _].
  apply Forall_cons in Hle as [Hle _]. lia.
Qed.

(** ** What a download leaves on disk *)

Section DiskFacts.
Import models.

(** Cleaning goes through names untouched. *)
Lemma clean_names (acc names : path) :
  Forall (fun c => is_name c = true) names -> foldl clean_step acc names = acc ++ names.
Proof.
  revert acc. induction names as [|c names IH]; intros acc Hnames; cbn [foldl].
  - by rewrite app_nil_r.
  - apply Forall_cons in Hnames as [Hc Hnames]. rewrite (IH _ Hnames).
    unfold clean_step. unfold is_name in Hc. apply negb_true_iff in Hc.
    apply orb_false_iff in Hc as [Hc Hup]. rewrite Hc, Hup.
    by rewrite <- app_assoc.
Qed.

Lemma filepath_Clean_app_names (p names : path) :
  Forall (fun c => is_name c = true) names ->
  filepath_Clean (p ++ names) = filepath_Clean p ++ names.
Proof. intros Hnames. unfold filepath_Clean. rewrite foldl_app. by apply clean_names. Qed.

(** A cleaned path holds names only, and cleaning it again changes
    nothing. *)
Lemma filepath_Clean_is_names (p : path) :
  Forall (fun c => is_name c = true) (filepath_Clean p).
Proof.
  unfold filepath_Clean.
  assert (Hgen : forall acc, Forall (fun c => is_name c = true) acc ->
                             Forall (fun c => is_name c = true) (foldl clean_step acc p)).
  { induction p as [|c p IH]; intros acc Hacc; cbn [foldl]; [exact Hacc|].
    apply IH. unfold clean_step.
    destruct (String.eqb c "" || String.eqb c ".") eqn:Hskip; [exact Hacc|].
    destruct (String.eqb c "..") eqn:Hup.
    - destruct acc as [|c0 acc] using rev_ind; [constructor|].
      rewrite removelast_last. by apply Forall_app in Hacc as [Hacc _].
    - apply Forall_app. split; [exact Hacc|]. constructor; [|constructor].
      unfold is_name. by rewrite Hskip, Hup. }
  apply Hgen. constructor.
Qed.

Lemma filepath_Clean_idem (p : path) : filepath_Clean (filepath_Clean p) = filepath_Clean p.
Proof.
  rewrite <- (app_nil_l (filepath_Clean p)) at 1.
  rewrite filepath_Clean_app_names by apply filepath_Clean_is_names. reflexivity.
Qed.

(** The path of a model whose file name is a name: a cleaned directory
    and that name in it. *)
Lemma GetModelPath_shape (m : Manager) (info : ModelInfo) :
  is_name (Filename info) = true ->
  exists dir, GetModelPath m info = dir ++ [Filename info] /\ filepath_Clean dir = dir.
Proof.
  intros Hname. unfold GetModelPath, filepath_Join.
  repeat match goal with |- context [String.eqb ?a ?b] => destruct (String.eqb a b) end.
  1-3: rewrite filepath_Clean_app_names by (repeat constructor; exact Hname);
    eexists (filepath_Clean (modelsDir m) ++ [_]); rewrite <- app_assoc;
    (split; [reflexivity|]);
    rewrite filepath_Clean_app_names by (repeat constructor);
    by rewrite filepath_Clean_idem.
  rewrite filepath_Clean_app_names by (repeat constructor; exact Hname).
  eexists. split; [reflexivity | apply filepath_Clean_idem].
Qed.

Lemma string_app_empty (s : string) : s +:+ "" = s.
Proof.
  induction s as [|a s IH]; [reflexivity|].
  change (String a s +:+ "") with (String a (s +:+ "")). by rewrite IH.
Qed.

(** The temporary name of [downloadFile] is never the final name. *)
Lemma tmp_is_not_dest (m : Manager) (info : ModelInfo) :
  path_add_suffix (GetModelPath m info) ".tmp" <> GetModelPath m info.
Proof.
  unfold path_add_suffix. destruct (last (GetModelPath m info)) as [name|] eqn:Hlast.
  - intros Heq. apply (f_equal last) in Heq. rewrite last_snoc, Hlast in Heq.
    injection Heq as Heq. rewrite <- (string_app_empty name) in Heq at 2.
    apply String.app_inj in Heq. discriminate.
  - apply last_None in Hlast. rewrite Hlast. discriminate.
Qed.

Context (e : env) (info : ModelInfo) (progress : bool).

Lemma try_send_fs i w p : w_fs (try_send e progress i w p) = w_fs w.
Proof. unfold try_send. destruct (progress && sink_ready e i); reflexivity. Qed.

(** [consume] writes to the temporary file only, at its end. *)
Lemma consume_fs tmp total i c d w c0 :
  w_fs w !! tmp = Some (File c0) ->
  (forall q, q <> tmp ->
     w_fs (consume e info progress tmp total i c d w).1.1 !! q = w_fs w !! q) /\
  (exists c1, w_fs (consume e info progress tmp total i c d w).1.1 !! tmp = Some (File c1)) /\
  ((consume e info progress tmp total i c d w).2 = None ->
   w_fs (consume e info progress tmp total i c d w).1.1 !! tmp = Some (File (c0 ++ c))).
Proof.
  intros Htmp. unfold consume.
  destruct (0 <? Z.of_nat (length c)) eqn:Hn.
  - destruct (write_ok e i); cbn [fst snd].
    + rewrite try_send_fs. cbn [set_fs w_fs]. unfold file_Write. rewrite Htmp.
      split; [intros q Hq; by rewrite lookup_insert_ne|].
      rewrite lookup_insert_eq. eauto.
    + split; [auto|]. split; [eauto | discriminate].
  - cbn [fst snd]. apply Z.ltb_ge in Hn. destruct c; [|cbn in Hn; lia].
    rewrite app_nil_r. eauto.
Qed.

(** The transfer loop touches the temporary file only; when it ends
    without error the temporary file holds the whole body. *)
Lemma transfer_fs b tmp total cs i d w c0 :
  w_fs w !! tmp = Some (File c0) ->
  (forall q, q <> tmp ->
     w_fs (transfer e info progress b tmp total cs i d w).1 !! q = w_fs w !! q) /\
  (exists c1, w_fs (transfer e info progress b tmp total cs i d w).1 !! tmp = Some (File c1)) /\
  ((transfer e info progress b tmp total cs i d w).2 = None ->
   w_fs (transfer e info progress b tmp total cs i d w).1 !! tmp
   = Some (File (c0 ++ concat cs ++ last_chunk b))).
Proof.
  revert i d w c0. induction cs as [|c cs IH]; intros i d w c0 Htmp; cbn [transfer].
  - destruct (ctx_done e i); [cbn; split; [auto|]; split; [eauto|discriminate]|].
    destruct (consume_fs tmp total i (last_chunk b) d w c0 Htmp) as (Hother & Hsome & Hok).
    destruct (consume _ _ _ _ _ _ _ _ _) as [[w' d'] r]. cbn [fst snd] in *.
    destruct r as [err|]; cbn [fst snd].
    + split; [exact Hother|]. split; [exact Hsome | discriminate].
    + destruct (ending b); cbn [fst snd]; (split; [exact Hother|]);
        (split; [exact Hsome|]); [intros _; apply Hok; reflexivity | discriminate].
  - destruct (ctx_done e i); [cbn; split; [auto|]; split; [eauto|discriminate]|].
    destruct (consume_fs tmp total i c d w c0 Htmp) as (Hother & Hsome & Hok).
    destruct (consume _ _ _ _ _ _ _ _ _) as [[w' d'] r]. cbn [fst snd] in *.
    destruct r as [err|]; cbn [fst snd].
    + split; [exact Hother|]. split; [exact Hsome | discriminate].
    + destruct (IH (S i) d' w' (c0 ++ c) (Hok eq_refl)) as (Hother' & Hsome' & Hok').
      split; [intros q Hq; rewrite Hother', Hother; auto|].
      split; [exact Hsome'|].
      intros Hnone. rewrite (Hok' Hnone). cbn [concat]. by rewrite <- !app_assoc.
Qed.

End DiskFacts.

Section SingleFileFacts.
Import models.

Context (e : env) (m : Manager) (info : ModelInfo) (progress : bool).

Lemma os_Remove_other (fs : filesystem) (p q : path) :
  q <> p -> os_Remove fs p !! q = fs !! q.
Proof.
  intros Hq. unfold os_Remove.
  destruct (fs !! p) as [[c|]|]; [|destruct (is_empty_dir fs p)|];
    try reflexivity; by rewrite lookup_delete_ne.
Qed.

Lemma os_Create_inv (fs fs1 : filesystem) (p : path) :
  os_Create fs p = Some fs1 -> fs1 = <[p := File []]> fs.
Proof.
  unfold os_Create. destruct p; [discriminate|].
  destruct (_ && _); [|discriminate]. by intros [= <-].
Qed.

Lemma IsDownloaded_ext (dsz : Z) (fs fs' : filesystem) :
  fs' !! GetModelPath m info = fs !! GetModelPath m info ->
  IsDownloaded dsz m fs' info = IsDownloaded dsz m fs info.
Proof. intros Heq. unfold IsDownloaded, os_Stat. by rewrite Heq. Qed.

(** The single-file path keeps its promise: whenever [downloadFile]
    returns an error, what is at the model's final path is what was there
    before the call. *)
Lemma downloadFile_failure_keeps_dest (w : world) (err : error) :
  (downloadFile e m info progress w).2 = Some err ->
  w_fs (downloadFile e m info progress w).1 !! GetModelPath m info
  = w_fs w !! GetModelPath m info.
Proof.
  pose proof (tmp_is_not_dest m info) as Hne.
  unfold downloadFile.
  destruct (downloadFile_body _ _ _ _ _ _) as [w' r] eqn:Hbody. cbn [fst snd set_fs w_fs].
  intros ->. rewrite os_Remove_other by congruence.
  revert Hbody. unfold downloadFile_body.
  destruct (new_request_ok e); cbn [negb]; [|by intros [= <- _]].
  destruct (http_Do e) as [resp|]; [|by intros [= <- _]].
  destruct (StatusCode resp =? 200); cbn [negb]; [|by intros [= <- _]].
  cbn [request w_fs].
  destruct (os_Create _ _) as [fs1|] eqn:Hcreate; [|by intros [= <- _]].
  apply os_Create_inv in Hcreate. subst fs1.
  set (tmp := path_add_suffix (GetModelPath m info) ".tmp") in *.
  set (w1 := set_fs (request w (URL info)) (<[tmp := File []]> (w_fs w))).
  destruct (transfer_fs e info progress (Body resp) tmp (total_of info resp)
              (chunks (Body resp)) 0 0 w1 [])
    as (Hother & _ & _); [subst w1; cbn; by rewrite lookup_insert_eq|].
  specialize (Hother (GetModelPath m info) ltac:(congruence)).
  subst w1. cbn [set_fs w_fs] in Hother. rewrite lookup_insert_ne in Hother by done.
  destruct (transfer _ _ _ _ _ _ _ _ _ _) as [w2 r2]. cbn [fst] in Hother.
  destruct r2 as [err2|]; [by intros [= <- _]|].
  destruct (os_Rename _ _ _) as [fs3|]; [discriminate | by intros [= <- _]].
Qed.

(** And when it returns nil, the final path holds exactly the bytes of
    the body, and the temporary file is gone. *)
Lemma downloadFile_success_installs_body (w : world) :
  (downloadFile e m info progress w).2 = None ->
  exists resp,
    http_Do e = Some resp /\
    w_fs (downloadFile e m info progress w).1 !! GetModelPath m info
    = Some (File (concat (chunks (Body resp)) ++ last_chunk (Body resp))) /\
    w_fs (downloadFile e m info progress w).1
      !! path_add_suffix (GetModelPath m info) ".tmp" = None.
Proof.
  pose proof (tmp_is_not_dest m info) as Hne.
  unfold downloadFile.
  destruct (downloadFile_body _ _ _ _ _ _) as [w' r] eqn:Hbody. cbn [fst snd set_fs w_fs].
  intros ->. revert Hbody. unfold downloadFile_body.
  destruct (new_request_ok e); cbn [negb]; [|discriminate].
  destruct (http_Do e) as [resp|]; [|discriminate].
  destruct (StatusCode resp =? 200); cbn [negb]; [|discriminate].
  cbn [request w_fs].
  destruct (os_Create _ _) as [fs1|] eqn:Hcreate; [|discriminate].
  apply os_Create_inv in Hcreate. subst fs1.
  set (tmp := path_add_suffix (GetModelPath m info) ".tmp") in *.
  set (w1 := set_fs (request w (URL info)) (<[tmp := File []]> (w_fs w))).
  destruct (transfer_fs e info progress (Body resp) tmp (total_of info resp)
              (chunks (Body resp)) 0 0 w1 [])
    as (_ & _ & Hok); [subst w1; cbn; by rewrite lookup_insert_eq|].
  destruct (transfer _ _ _ _ _ _ _ _ _ _) as [w2 r2]. cbn [fst snd] in Hok.
  destruct r2 as [err2|]; [discriminate|]. specialize (Hok eq_refl). cbn [app] in Hok.
  unfold os_Rename. rewrite Hok.
  destruct (_ && _); [|discriminate]. intros [= <-].
  exists resp. split; [reflexivity|].
  assert (Hfs : forall p, w_fs (send progress p
            {| ModelID := ID info; Downloaded := total_of info resp;
               Total := total_of info resp; Done := true |}) = w_fs p)
    by (intros p; apply send_keeps_disk).
  rewrite Hfs. cbn [set_fs w_fs]. unfold os_Remove.
  rewrite lookup_insert_ne, lookup_delete_eq by congruence.
  rewrite lookup_insert_eq, lookup_insert_ne, lookup_delete_eq by congruence. done.
Qed.

End SingleFileFacts.

Section DownloadOutcome.
Import models.

(** For a single-file model a failed or cancelled [Download] leaves the
    final path as it was, so the model is still not downloaded. *)
Lemma Download_file_failure_is_invisible
    (e : env) (m : Manager) (info : ModelInfo) (progress : bool) (w : world) (err : error) :
  IsZip info = false ->
  (Download e m info progress w).2 = Some err ->
  w_fs (Download e m info progress w).1 !! GetModelPath m info
    = w_fs w !! GetModelPath m info /\
  IsDownloaded (dir_size e) m (w_fs (Download e m info progress w).1) info = false.
Proof.
  intros Hzip. unfold Download.
  destruct (IsDownloaded (dir_size e) m (w_fs w) info) eqn:Hd; [discriminate|].
  rewrite Hzip. intros Herr.
  pose proof (downloadFile_failure_keeps_dest e m info progress w err Herr) as Hkeep.
  split; [exact Hkeep|]. rewrite (IsDownloaded_ext m info _ _ _ Hkeep). exact Hd.
Qed.

(** C1. The archive path breaks the claim. The server sends the whole
    archive, extraction fails while copying the archive's first file, and
    [Download] returns the unzip error; the model's directory has by then
    been created with a truncated file in it, and [IsDownloaded] answers
    true. *)
Theorem failed_extraction_passes_for_downloaded :
  let e := scenario.serve 3 scenario.three_bytes (Some scenario.broken_archive) in
  let m := scenario.the_manager in
  let w := scenario.fresh_world scenario.bare_disk in
  let after := w_fs (Download e m scenario.vosk_small true w).1 in
  IsDownloaded 4096 m (w_fs w) scenario.vosk_small = false /\
  (Download e m scenario.vosk_small true w).2 = Some ErrUnzip /\
  IsDownloaded 4096 m after scenario.vosk_small = true /\
  after !! GetModelPath m scenario.vosk_small = Some Dir /\
  after !! (GetModelPath m scenario.vosk_small ++ ["am"; "final.mdl"])
    = Some (File scenario.broken_archive_bytes).
Proof. vm_compute. repeat split. Qed.

(** The single-file path has its own gap on the success side: an empty
    200 answer is renamed into place and reported complete, and
    [IsDownloaded], which wants a non-empty file, still answers false. *)
Lemma empty_answer_installs_empty_file :
  let e := scenario.serve 0 scenario.no_bytes None in
  let m := scenario.the_manager in
  let w := scenario.fresh_world scenario.bare_disk in
  (Download e m scenario.tiny true w).2 = None /\
  w_fs (Download e m scenario.tiny true w).1 !! GetModelPath m scenario.tiny = Some (File []) /\
  IsDownloaded 4096 m (w_fs (Download e m scenario.tiny true w).1) scenario.tiny = false.
Proof. vm_compute. repeat split. Qed.

End DownloadOutcome.

(** ** Hot swap under concurrency *)

Section HotSwapFacts.
Import models speech hotswap.

Lemma Create_live E dsz fs f id o : Create E dsz fs f id = inr o -> st o = Live.
Proof.
  unfold Create. destruct (GetModel id) as [info|]; [|discriminate].
  destruct (negb _); [discriminate|].
  destruct (String.eqb (Engine_ info) EngineWhisper).
  - unfold NewWhisperFromFile. destruct (whisper_New _ _); [|discriminate]. by intros [= <-].
  - destruct (String.eqb (Engine_ info) EngineVosk); [|discriminate].
    unfold NewVosk. destruct (fs !! _); [|discriminate].
    destruct (vosk_NewModel _ _); [|discriminate].
    destruct (vosk_NewRecognizer _ _); [|discriminate]. by intros [= <-].
Qed.

Lemma live_dom hp h : live hp h = true -> h ∈ dom hp.
Proof. unfold live. destruct (hp !! h) eqn:H; [|discriminate]. intros _. apply elem_of_dom. eauto. Qed.

Lemma live_alloc hp o h : h ≠ fresh (dom hp) -> live (<[fresh (dom hp) := o]> hp) h = live hp h.
Proof. intros Hne. unfold live. by rewrite lookup_insert_ne. Qed.

Lemma live_alloc_new hp o : st o = Live -> live (<[fresh (dom hp) := o]> hp) (fresh (dom hp)) = true.
Proof. intros Ho. unfold live. rewrite lookup_insert_eq, Ho. done. Qed.

Lemma fresh_not_live hp h : live hp h = true -> h ≠ fresh (dom hp).
Proof. intros Hl%live_dom ->. by apply is_fresh in Hl. Qed.

Lemma fresh_not_dom (hp : heap) h : h ∈ dom hp -> h ≠ fresh (dom hp).
Proof. intros Hl ->. by apply is_fresh in Hl. Qed.

Lemma live_close_other hp h x : x ≠ h -> live (Close_recognizer h hp) x = live hp x.
Proof.
  intros Hne. unfold Close_recognizer, live. destruct (hp !! h); [|done].
  by rewrite lookup_insert_ne.
Qed.

Lemma dom_close hp h : dom (Close_recognizer h hp) = dom hp.
Proof.
  unfold Close_recognizer. destruct (hp !! h) eqn:H; [|done].
  apply dom_insert_lookup_L. eauto.
Qed.

(** Which entry of an updated task table a lookup hits. *)
Ltac split_lookup H :=
  apply lookup_insert_Some in H as [[? ?]|[? H]]; simplify_eq/=.

Lemma inv_replace_idle s i t t' :
  inv s -> tasks s !! i = Some t ->
  owned t' = None -> unpublished t' = None -> (forall h, t' <> Transcribing h) ->
  inv (with_task s i t').
Proof.
  intros [Icur Iunp Iown Iuniq Ifly Ione] Ht Ho Hu Hn. constructor; cbn [with_task fac hp busy tasks].
  - exact Icur.
  - intros j t0 h Hlk Hunp. split_lookup Hlk; eauto.
  - intros j t0 h Hlk Hown. split_lookup Hlk; eauto.
  - intros j1 j2 t1 t2 h H1 H2 Ho1 Ho2. split_lookup H1; split_lookup H2; eauto.
  - intros j h Hlk. split_lookup Hlk; [exfalso; eapply Hn; reflexivity | eauto].
  - intros j1 j2 h H1 H2. split_lookup H1; split_lookup H2;
      try (exfalso; eapply Hn; reflexivity); eauto.
Qed.

Section StepFacts.
Context (dsz : Z).

Lemma create_step_inv s k id t have :
  inv s -> tasks s !! who k = Some t -> owned t = None ->
  (forall h, owned (have h id) = Some h) ->
  (forall h, unpublished (have h id) = Some h) ->
  (forall h h', have h id <> Transcribing h') ->
  inv (create_step dsz s k id have).
Proof.
  intros Hinv Ht Hot Ho Hu Hn. unfold create_step.
  destruct (Create _ _ _ _ _) as [err|o] eqn:Hc.
  { eapply inv_replace_idle; eauto; done. }
  apply Create_live in Hc. destruct Hinv as [Icur Iunp Iown Iuniq Ifly Ione]. unfold alloc.
  constructor; cbn [fac hp busy tasks].
  - intros h Hcur. rewrite live_alloc; eauto using fresh_not_live.
  - intros i t0 h Hlk Hunp. split_lookup Hlk.
    + rewrite Hu in Hunp. simplify_eq. by apply live_alloc_new.
    + rewrite live_alloc; eauto using fresh_not_live.
  - intros i t0 h Hlk Hown. split_lookup Hlk.
    + rewrite Ho in Hown. simplify_eq. split.
      * rewrite dom_insert_L. apply elem_of_union_l, elem_of_singleton. reflexivity.
      * intros Hcur%Icur. by apply fresh_not_live in Hcur.
    + destruct (Iown _ _ _ Hlk Hown). split; [|done].
      rewrite dom_insert_L. by apply elem_of_union_r.
  - intros i j ti tj h Hi Hj Hoi Hoj. split_lookup Hi; split_lookup Hj; [done|..].
    + rewrite Ho in Hoi. simplify_eq.
      destruct (Iown _ _ _ Hj Hoj) as [Hd _]. by apply fresh_not_dom in Hd.
    + rewrite Ho in Hoj. simplify_eq.
      destruct (Iown _ _ _ Hi Hoi) as [Hd _]. by apply fresh_not_dom in Hd.
    + eauto.
  - intros i h Hlk. split_lookup Hlk; [exfalso; eapply Hn; eauto|].
    destruct (Ifly _ _ Hlk). split; [|done].
    rewrite live_alloc; eauto using fresh_not_live.
  - intros i j h Hi Hj. split_lookup Hi; split_lookup Hj;
      try (exfalso; eapply Hn; eauto; fail); eauto.
Qed.

Lemma publish_step_inv s k rec id t retire :
  inv s -> tasks s !! who k = Some t ->
  owned t = Some rec -> unpublished t = Some rec ->
  (forall old, owned (retire old) = old) ->
  (forall old, unpublished (retire old) = None) ->
  (forall old h', retire old <> Transcribing h') ->
  inv (publish_step s k rec id retire).
Proof.
  intros Hinv Ht Hot Hut Ho Hu Hn. unfold publish_step, publish.
  destruct Hinv as [Icur Iunp Iown Iuniq Ifly Ione].
  destruct (Iown _ _ _ Ht Hot) as [_ Hnotcur].
  constructor; cbn [fac hp busy tasks current].
  - intros h [= <-]. eauto.
  - intros i t0 h Hlk Hunp. split_lookup Hlk; [by rewrite Hu in Hunp | eauto].
  - intros i t0 h Hlk Hown. split_lookup Hlk.
    + rewrite Ho in Hown. split; [apply live_dom; eauto | congruence].
    + destruct (Iown _ _ _ Hlk Hown). split; [done|].
      intros [= ->]. eauto.
  - intros i j ti tj h Hi Hj Hoi Hoj. split_lookup Hi; split_lookup Hj; [done|..].
    + rewrite Ho in Hoi. destruct (Iown _ _ _ Hj Hoj). congruence.
    + rewrite Ho in Hoj. destruct (Iown _ _ _ Hi Hoi). congruence.
    + eauto.
  - intros i h Hlk. split_lookup Hlk; [exfalso; eapply Hn; eauto | eauto].
  - intros i j h Hi Hj. split_lookup Hi; split_lookup Hj;
      try (exfalso; eapply Hn; eauto; fail); eauto.
Qed.

Lemma close_step_inv s k old t s' :
  inv s -> tasks s !! who k = Some t -> owned t = Some old ->
  close_step s k old = Some s' -> inv s'.
Proof.
  intros Hinv Ht Hot. unfold close_step. destruct (decide _) as [|Hbusy]; [done|].
  intros [= <-]. destruct Hinv as [Icur Iunp Iown Iuniq Ifly Ione].
  destruct (Iown _ _ _ Ht Hot) as [Hdom Hcur].
  constructor; cbn [fac hp busy tasks].
  - intros h Hc. rewrite live_close_other; [eauto | congruence].
  - intros i t0 h Hlk Hunp. split_lookup Hlk.
    rewrite live_close_other; [eauto|].
    intros ->. assert (owned t0 = Some old) by (destruct t0; simplify_eq/=; done). eauto.
  - intros i t0 h Hlk Hown. split_lookup Hlk. rewrite dom_close. eauto.
  - intros i j ti tj h Hi Hj Hoi Hoj. split_lookup Hi; split_lookup Hj; eauto.
  - intros i h Hlk. split_lookup Hlk. destruct (Ifly _ _ Hlk). split; [|done].
    rewrite live_close_other; [done | by intros ->].
  - intros i j h Hi Hj. split_lookup Hi; split_lookup Hj; eauto.
Qed.


Lemma retire_step_inv s i h :
  inv s -> tasks s !! i = Some (Swap_retire (Some h)) ->
  inv {| fac := fac s; hp := hp s; busy := busy s;
         tasks := spawn (Bg_close h) (<[i := Finished None]> (tasks s)) |}.
Proof.
  intros Hinv Ht. destruct Hinv as [Icur Iunp Iown Iuniq Ifly Ione].
  destruct (Iown _ _ _ Ht eq_refl) as [Hdom Hcur].
  unfold spawn. set (ts := <[i := Finished None]> (tasks s)).
  assert (Hfresh : ts !! fresh (dom ts) = None)
    by (apply not_elem_of_dom, is_fresh).
  assert (Hnew : forall j t, ts !! j = Some t ->
            j = i /\ t = Finished None \/ j <> i /\ tasks s !! j = Some t).
  { intros j t Hj. subst ts.
    apply lookup_insert_Some in Hj as [[<- <-]|[Hne Hj]]; [left | right]; auto. }
  constructor; cbn [fac hp busy tasks].
  - exact Icur.
  - intros j t0 h0 Hlk Hunp. split_lookup Hlk.
    apply Hnew in Hlk as [[-> ->]|[? Hlk]]; [done | eauto].
  - intros j t0 h0 Hlk Hown. split_lookup Hlk; [done|].
    apply Hnew in Hlk as [[-> ->]|[? Hlk]]; [done | eauto].
  - intros j1 j2 t1 t2 h0 H1 H2 Ho1 Ho2. split_lookup H1; split_lookup H2; [done|..].
    + apply Hnew in H2 as [[-> ->]|[Hne H2]]; [done|].
      exfalso. apply Hne. eapply Iuniq; eauto.
    + apply Hnew in H1 as [[-> ->]|[Hne H1]]; [done|].
      exfalso. apply Hne. eapply Iuniq; eauto.
    + apply Hnew in H1 as [[-> ->]|[? H1]]; [done|].
      apply Hnew in H2 as [[-> ->]|[? H2]]; [done|]. eauto.
  - intros j h0 Hlk. split_lookup Hlk.
    apply Hnew in Hlk as [[-> ?]|[? Hlk]]; [done | eauto].
  - intros j1 j2 h0 H1 H2. split_lookup H1; split_lookup H2.
    apply Hnew in H1 as [[-> ?]|[? H1]]; [done|].
    apply Hnew in H2 as [[-> ?]|[? H2]]; [done|]. eauto.
Qed.

Lemma factory_close_inv s i h :
  inv s -> tasks s !! i = Some Factory_close ->
  current (fac s) = Some h -> h ∉ busy s ->
  inv {| fac := (Close (fac s) (hp s)).1; hp := (Close (fac s) (hp s)).2; busy := busy s;
         tasks := <[i := Finished None]> (tasks s) |}.
Proof.
  intros Hinv Ht Hcur Hbusy. destruct Hinv as [Icur Iunp Iown Iuniq Ifly Ione].
  unfold Close. rewrite Hcur. cbn [fst snd].
  constructor; cbn [fac hp busy tasks current].
  - done.
  - intros j t0 h0 Hlk Hunp. split_lookup Hlk.
    assert (owned t0 = Some h0) as Hown by (destruct t0; simplify_eq/=; done).
    destruct (Iown _ _ _ Hlk Hown) as [_ Hne].
    rewrite live_close_other; [eauto | congruence].
  - intros j t0 h0 Hlk Hown. split_lookup Hlk.
    destruct (Iown _ _ _ Hlk Hown). rewrite dom_close. done.
  - intros j1 j2 t1 t2 h0 H1 H2 Ho1 Ho2. split_lookup H1; split_lookup H2; eauto.
  - intros j h0 Hlk. split_lookup Hlk. destruct (Ifly _ _ Hlk). split; [|done].
    rewrite live_close_other; [done | by intros ->].
  - intros j1 j2 h0 H1 H2. split_lookup H1; split_lookup H2; eauto.
Qed.

Lemma enter_transcribe_inv s i rec :
  inv s -> tasks s !! i = Some (Reader_has (Some rec)) ->
  rec ∉ busy s -> live (hp s) rec = true ->
  inv {| fac := fac s; hp := hp s; busy := {[rec]} ∪ busy s;
         tasks := <[i := Transcribing rec]> (tasks s) |}.
Proof.
  intros Hinv Ht Hbusy Hlive. destruct Hinv as [Icur Iunp Iown Iuniq Ifly Ione].
  constructor; cbn [fac hp busy tasks].
  - done.
  - intros j t0 h0 Hlk Hunp. split_lookup Hlk. eauto.
  - intros j t0 h0 Hlk Hown. split_lookup Hlk. eauto.
  - intros j1 j2 t1 t2 h0 H1 H2 Ho1 Ho2. split_lookup H1; split_lookup H2; eauto.
  - intros j h0 Hlk. split_lookup Hlk.
    + split; [done | by apply elem_of_union_l, elem_of_singleton].
    + destruct (Ifly _ _ Hlk). split; [done | by apply elem_of_union_r].
  - intros j1 j2 h0 H1 H2. split_lookup H1; split_lookup H2; [done|..].
    + destruct (Ifly _ _ H2). done.
    + destruct (Ifly _ _ H1). done.
    + eauto.
Qed.

Lemma leave_transcribe_inv s i rec :
  inv s -> tasks s !! i = Some (Transcribing rec) ->
  inv {| fac := fac s; hp := hp s; busy := busy s ∖ {[rec]};
         tasks := <[i := Finished None]> (tasks s) |}.
Proof.
  intros Hinv Ht. destruct Hinv as [Icur Iunp Iown Iuniq Ifly Ione].
  constructor; cbn [fac hp busy tasks].
  - done.
  - intros j t0 h0 Hlk Hunp. split_lookup Hlk. eauto.
  - intros j t0 h0 Hlk Hown. split_lookup Hlk. eauto.
  - intros j1 j2 t1 t2 h0 H1 H2 Ho1 Ho2. split_lookup H1; split_lookup H2; eauto.
  - intros j h0 Hlk. split_lookup Hlk. destruct (Ifly _ _ Hlk). split; [done|].
    assert (h0 <> rec) by (intros ->; eauto).
    apply elem_of_difference. split; [done|]. by rewrite elem_of_singleton.
  - intros j1 j2 h0 H1 H2. split_lookup H1; split_lookup H2; eauto.
Qed.

(** Every step keeps the ownership discipline. *)
Lemma step_inv s k s' : inv s -> step dsz s k = Some s' -> inv s'.
Proof.
  intros Hinv. unfold step.
  destruct (tasks s !! who k) as [t|] eqn:Ht; [|discriminate].
  destruct t as [id|rec id|old|id|rec id|old|old| | |rec|rec|rec|err].
  - intros [= <-]. eapply create_step_inv; eauto; done.
  - intros [= <-]. eapply publish_step_inv; eauto; try done; by intros [].
  - intros [= <-]. destruct old as [h|]; cbn [from_option].
    + by apply retire_step_inv.
    + eapply (inv_replace_idle s); eauto; done.
  - intros [= <-]. eapply create_step_inv; eauto; done.
  - intros [= <-]. eapply publish_step_inv; eauto; try done; by intros [].
  - destruct old as [h|].
    + intros Hstep. eapply close_step_inv; eauto; done.
    + intros [= <-]. eapply inv_replace_idle; eauto; done.
  - intros Hstep. eapply close_step_inv; eauto; done.
  - destruct (current (fac s)) as [h|] eqn:Hcur.
    + destruct (decide _) as [|Hbusy]; [done|].
      destruct (Close (fac s) (hp s)) as [f' hp'] eqn:Hclose. intros [= <-].
      pose proof (factory_close_inv s (who k) h Hinv Ht Hcur Hbusy) as H.
      rewrite Hclose in H. exact H.
    + intros [= <-]. eapply inv_replace_idle; eauto; done.
  - intros [= <-]. eapply inv_replace_idle; eauto; done.
  - destruct rec as [rec|].
    + destruct (decide _) as [|Hbusy]; [done|].
      destruct (live (hp s) rec) eqn:Hlive; intros [= <-].
      * by apply enter_transcribe_inv.
      * eapply inv_replace_idle; eauto; done.
    + intros [= <-]. eapply inv_replace_idle; eauto; done.
  - intros [= <-]. by apply leave_transcribe_inv.
  - discriminate.
  - discriminate.
Qed.

Lemma run_inv s sched : inv s -> inv (run dsz s sched).
Proof.
  revert s. induction sched as [|k sched IH]; intros s Hinv; cbn [run]; [done|].
  apply IH. destruct (step dsz s k) as [s'|] eqn:Hstep; cbn; [|done].
  eapply step_inv; eauto.
Qed.

End StepFacts.

Lemma begin_is_idle c :
  owned (begin c) = None /\ unpublished (begin c) = None /\
  forall h, begin c <> Transcribing h.
Proof. destruct c; done. Qed.

Lemma init_inv m calls : inv (init m calls).
Proof.
  assert (Hcalls : forall i t, tasks (init m calls) !! i = Some t -> exists c, t = begin c).
  { intros i t Hlk. cbn in Hlk. apply elem_of_list_to_map_2 in Hlk.
    apply elem_of_lookup_imap in Hlk as (j & c & [= -> ->] & _). eauto. }
  constructor.
  - done.
  - intros i t h (c & ->)%Hcalls. by destruct c.
  - intros i t h (c & ->)%Hcalls. by destruct c.
  - intros i j ti tj h (c & ->)%Hcalls. by destruct c.
  - intros i h (c & Hc)%Hcalls. by destruct c.
  - intros i j h (c & Hc)%Hcalls. by destruct c.
Qed.

End HotSwapFacts.

Section HotSwap.
Import models speech hotswap.

Context (dsz : Z) (m : Manager) (calls : list call) (sched : list tick).

(** What a swap does keep. In every state a run can reach:
    - the current recognizer, if any, is fully built and not disposed;
    - when a [Swap] publishes, the recognizer it installs is live, and the
      one it replaces is still live: it is retired only afterwards;
    - no step of a [Swap] changes the current recognizer except to the
      recognizer it has built (so a swap never leaves it nil);
    - a transcription that has entered [Transcribe] works on a live
      recognizer and can finish: [Close] waits for the recognizer's mutex.
    A caller that has fetched a recognizer and has not yet entered
    [Transcribe] is not covered: see C7 below. *)
Theorem swap_keeps_current_recognizer_live :
  let s := run dsz (init m calls) sched in
  (forall h, Current (fac s) = Some h -> live (hp s) h = true) /\
  (forall k rec id, tasks s !! who k = Some (Swap_have rec id) ->
     exists s', step dsz s k = Some s' /\
       Current (fac s') = Some rec /\ live (hp s') rec = true /\
       tasks s' !! who k = Some (Swap_retire (Current (fac s))) /\
       forall old, Current (fac s) = Some old -> live (hp s') old = true) /\
  (forall k t s', tasks s !! who k = Some t -> is_swap t = true ->
     step dsz s k = Some s' ->
     Current (fac s') = Current (fac s) \/
     exists rec id, t = Swap_have rec id /\ Current (fac s') = Some rec) /\
  (forall k rec, tasks s !! who k = Some (Transcribing rec) ->
     live (hp s) rec = true /\
     exists s', step dsz s k = Some s' /\ tasks s' !! who k = Some (Finished None)).
Proof.
  intros s.
  assert (Hinv : inv s) by (apply run_inv, init_inv).
  destruct Hinv as [Icur Iunp Iown Iuniq Ifly Ione].
  split; [exact Icur|]. split; [|split].
  - intros k rec id Ht. unfold step. rewrite Ht.
    eexists. split; [reflexivity|]. unfold publish_step, publish. cbn.
    rewrite lookup_insert_eq.
    split; [reflexivity|]. split; [eapply Iunp; eauto; reflexivity|].
    split; [reflexivity | exact Icur].
  - intros k t s' Ht Hswap. unfold step. rewrite Ht.
    destruct t; try discriminate; intros [= <-].
    + left. unfold create_step. destruct (Create _ _ _ _ _); [reflexivity|].
      unfold alloc. reflexivity.
    + right. eauto.
    + left. reflexivity.
  - intros k rec Ht. split; [eapply Ifly; eauto|].
    unfold step. rewrite Ht. eexists. split; [reflexivity|]. cbn.
    apply lookup_insert_eq.
Qed.

End HotSwap.

Lemma swap_keeps_current_recognizer_live_witness :
  let s := hotswap.run 4096 (hotswap.init scenario.the_manager scenario.hot_calls)
             scenario.swap_during_transcribe in
  hotswap.tasks s !! 1%nat = Some (hotswap.Transcribing 0%nat) /\
  hotswap.tasks s !! 3%nat = Some (hotswap.Bg_close 0%nat) /\
  speech.Current (hotswap.fac s) = Some 1%nat /\
  hotswap.live (hotswap.hp s) 1%nat = true /\
  hotswap.live (hotswap.hp s) 0%nat = true.
Proof.
  intros s.
  assert (Hfly : hotswap.tasks s !! hotswap.who (scenario.move 1)
                 = Some (hotswap.Transcribing 0%nat)) by (vm_compute; reflexivity).
  assert (Hcur : speech.Current (hotswap.fac s) = Some 1%nat) by (vm_compute; reflexivity).
  destruct (swap_keeps_current_recognizer_live 4096 scenario.the_manager scenario.hot_calls
              scenario.swap_during_transcribe) as (Hlive & _ & _ & Hflight).
  destruct (Hflight (scenario.move 1) 0%nat Hfly) as [Hold _].
  split; [exact Hfly|]. split; [vm_compute; reflexivity|]. split; [exact Hcur|].
  split; [exact (Hlive 1%nat Hcur) | exact Hold].
Defined.

(** C7. The code breaks the claim for a caller that holds the old
    recognizer and has not yet entered [Transcribe]. The capture session
    fetches recognizer 0 with [Current()]; [Swap] then publishes
    recognizer 1 and its background goroutine closes recognizer 0, which
    sets its model to nil; when the session calls [Transcribe] on the
    recognizer it holds, the engine is already freed and the call
    dereferences nil. [Swap] retires the old recognizer in the background
    precisely so that it can be replaced while in use, and [Close] takes
    the recognizer's mutex, but nothing tells [Close] that a caller still
    holds the handle, and [Transcribe] does not check for a closed model
    as [LlamaModel.Generate] does. *)
Lemma fetched_recognizer_is_closed_before_use :
  let before := hotswap.run 4096 (hotswap.init scenario.the_manager scenario.hot_calls)
                  scenario.loaded_and_fetched in
  let s := hotswap.run 4096 (hotswap.init scenario.the_manager scenario.hot_calls)
             scenario.swap_before_transcribe in
  speech.Current (hotswap.fac before) = Some 0%nat /\
  hotswap.tasks before !! 1%nat = Some (hotswap.Reader_has (Some 0%nat)) /\
  hotswap.live (hotswap.hp before) 0%nat = true /\
  speech.Current (hotswap.fac s) = Some 1%nat /\
  hotswap.live (hotswap.hp s) 0%nat = false /\
  hotswap.tasks s !! 1%nat = Some (hotswap.Crashed 0%nat).
Proof. vm_compute. repeat split. Qed.

(** ** The recorder, from [Start] to [Stop] *)

Section RecorderMore.
Import audio.

Lemma Forall_zero_make (n : Z) : Forall (fun x => x = zero32) (make n).
Proof. unfold make. apply Forall_forall. intros x Hx%list_elem_of_In%repeat_spec. exact Hx. Qed.

(** What [Stop] returns while recording: the padding is empty when
    nothing is missing. *)
Lemma Stop_output (r : Recorder) :
  running r = true -> (Stop r).2 = samples r ++ make (MinSamples - len (samples r)).
Proof.
  intros Hrun. unfold Stop. rewrite Hrun. cbn [negb snd].
  destruct (len (samples r) <? MinSamples) eqn:Hshort; [reflexivity|].
  apply Z.ltb_ge in Hshort. unfold make.
  replace (Z.to_nat (MinSamples - len (samples r))) with 0%nat by lia.
  cbn. by rewrite app_nil_r.
Qed.

(** X1. While recording, [Stop] returns the captured samples followed
    by silence only: the result has the length of the capture or
    [MinSamples], whichever is larger, nothing is added to a capture that
    is long enough, and [GetSamples] gives the capture as it is. *)
Theorem Stop_returns_capture_then_silence (r : Recorder) :
  running r = true ->
  exists pad,
    (Stop r).2 = samples r ++ pad /\
    Forall (fun x => x = zero32) pad /\
    len (Stop r).2 = Z.max (len (samples r)) MinSamples /\
    (MinSamples <= len (samples r) -> pad = []) /\
    GetSamples r = samples r.
Proof.
  intros Hrun. exists (make (MinSamples - len (samples r))).
  rewrite (Stop_output r Hrun). split; [reflexivity|]. split; [apply Forall_zero_make|].
  split.
  { rewrite len_app. unfold len at 2, make. rewrite repeat_length.
    assert (0 <= len (samples r)) by (unfold len; lia). lia. }
  split.
  - intros Hlong. unfold make.
    replace (Z.to_nat (MinSamples - len (samples r))) with 0%nat by lia. reflexivity.
  - unfold GetSamples. rewrite Hrun. cbn [negb orb].
    destruct (len (samples r) =? 0) eqn:H0; [|reflexivity].
    apply Z.eqb_eq in H0. unfold len in H0.
    destruct (samples r); [reflexivity | cbn in H0; lia].
Qed.

Lemma record_all_idle (frames : list (list float32)) (r : Recorder) :
  running r = false -> record_all frames r = r.
Proof.
  intros Hrun. induction frames as [|f frames IH]; [reflexivity|].
  cbn. unfold record at 2. rewrite Hrun. exact IH.
Qed.

Lemma record_all_running (frames : list (list float32)) (r : Recorder) :
  running r = true ->
  running (record_all frames r) = true /\
  samples (record_all frames r) = samples r ++ concat frames /\
  stream (record_all frames r) = stream r.
Proof.
  revert r. induction frames as [|f frames IH]; intros r Hrun.
  - cbn. rewrite app_nil_r. auto.
  - cbn [record_all foldl]. fold (record_all frames (record f r)).
    assert (Hrec : record f r = {| stream := stream r; buffer := f; samples := samples r ++ f;
                                   running := running r; done := done r |})
      by (unfold record, keep, stream_Read; rewrite Hrun; reflexivity).
    destruct (IH (record f r)) as (H1 & H2 & H3); [rewrite Hrec; exact Hrun|].
    rewrite H1, H2, H3, Hrec. cbn. rewrite <- app_assoc. auto.
Qed.

Lemma Start_ok (pa : portaudio) (r : Recorder) (strm : Stream) :
  running r = false ->
  OpenDefaultStream pa = Some strm ->
  stream_Start_ok pa = true ->
  Start pa r = ({| stream := Some strm; buffer := buffer r; samples := [];
                   running := true; done := Some (new_chan pa) |}, None).
Proof. intros Hidle Hopen Hstart. unfold Start. rewrite Hidle, Hopen, Hstart. reflexivity. Qed.

(** X2. From an idle recorder whose stream opens and starts, [Start],
    any frames read by the loop, then [Stop] give exactly those frames in
    order, followed by silence only, at least [MinSamples] long. A pass
    of the loop that [Stop] cuts in two still reads its frame into the
    buffer, before or after [Stop] took the lock, but that frame reaches
    neither the samples returned nor the recorder's samples; after that
    the recorder is idle and has no stream, later passes change nothing,
    and a second [Stop] returns nothing. *)
Theorem capture_round_trip (pa : portaudio) (r : Recorder) (s : Stream)
    (frames late : list (list float32)) (cut : list float32) :
  running r = false ->
  OpenDefaultStream pa = Some s ->
  stream_Start_ok pa = true ->
  let started := (Start pa r).1 in
  let captured := record_all frames started in
  let stopped := Stop captured in
  let after := keep (stream_Read cut stopped.1) in
  (Start pa r).2 = None /\
  IsRecording started = true /\
  (exists pad, stopped.2 = concat frames ++ pad /\ Forall (fun x => x = zero32) pad) /\
  MinSamples <= len stopped.2 /\
  Stop (stream_Read cut captured) = (stream_Read cut stopped.1, stopped.2) /\
  IsRecording after = false /\
  stream after = None /\
  samples after = [] /\
  buffer after = cut /\
  record_all late after = after /\
  (Stop after).2 = [].
Proof.
  intros Hidle Hopen Hstart started captured stopped after.
  subst started captured stopped after. rewrite (Start_ok pa r s Hidle Hopen Hstart).
  cbn [fst snd].
  set (r1 := {| stream := Some s; buffer := buffer r; samples := []; running := true;
                done := Some (new_chan pa) |}).
  destruct (record_all_running frames r1 eq_refl) as (Hrun & Hsam & _).
  cbn [samples r1 app] in Hsam.
  pose proof (Stop_output _ Hrun) as Hpad. rewrite Hsam in Hpad.
  pose proof (Stop_stops (record_all frames r1)) as Hstopped.
  assert (Hafter : keep (stream_Read cut (Stop (record_all frames r1)).1)
                   = {| stream := None; buffer := cut; samples := []; running := false;
                        done := done (record_all frames r1) |}).
  { unfold keep, stream_Read, Stop. rewrite Hrun. reflexivity. }
  rewrite Hafter.
  split; [reflexivity|]. split; [reflexivity|].
  split; [eexists; split; [exact Hpad | apply Forall_zero_make]|].
  split; [apply Stop_length, Hrun|].
  split; [unfold Stop, stream_Read; cbn; rewrite Hrun; reflexivity|].
  split; [reflexivity|]. split; [reflexivity|]. split; [reflexivity|].
  split; [reflexivity|]. split; [apply record_all_idle; reflexivity | reflexivity].
Qed.

(** X3. When the stream cannot be opened or cannot be started, [Start]
    returns an error and leaves the recorder idle: frames change nothing
    and [Stop] returns nothing. *)
Theorem failed_Start_leaves_recorder_idle (pa : portaudio) (r : Recorder)
    (frames : list (list float32)) :
  running r = false ->
  OpenDefaultStream pa = None \/ stream_Start_ok pa = false ->
  let r' := (Start pa r).1 in
  (Start pa r).2 <> None /\
  IsRecording r' = false /\
  record_all frames r' = r' /\
  (Stop r').2 = [].
Proof.
  intros Hidle Hfail r'.
  assert (Hr' : (Start pa r).2 <> None /\ running r' = false).
  { subst r'. unfold Start. rewrite Hidle.
    destruct (OpenDefaultStream pa) as [s|]; [|cbn; split; [discriminate | reflexivity]].
    destruct Hfail as [Hfail|Hfail]; [discriminate|]. rewrite Hfail. cbn.
    split; [discriminate|reflexivity]. }
  destruct Hr' as [Herr Hrun].
  split; [exact Herr|]. split; [exact Hrun|]. split; [apply record_all_idle, Hrun|].
  unfold Stop. rewrite Hrun. reflexivity.
Qed.

End RecorderMore.

Lemma Stop_returns_capture_then_silence_witness :
  audio.running scenario.two_frames = true /\
  exists pad,
    (audio.Stop scenario.two_frames).2 = audio.samples scenario.two_frames ++ pad /\
    Forall (fun x => x = audio.zero32) pad /\
    audio.len (audio.Stop scenario.two_frames).2 = 3200.
Proof.
  assert (Hrun : audio.running scenario.two_frames = true) by reflexivity.
  destruct (Stop_returns_capture_then_silence scenario.two_frames Hrun)
    as (pad & Hpad & Hzero & Hlen & _).
  split; [exact Hrun|]. exists pad. split; [exact Hpad|]. split; [exact Hzero|].
  rewrite Hlen. vm_compute. reflexivity.
Defined.

Lemma capture_round_trip_witness :
  let started := (audio.Start scenario.pa_ok scenario.idle_recorder).1 in
  let stopped := audio.Stop (audio.record_all scenario.three_samples started) in
  let after := audio.keep (audio.stream_Read [scenario.half] stopped.1) in
  audio.running scenario.idle_recorder = false /\
  audio.stream_Start_ok scenario.pa_ok = true /\
  (exists pad, stopped.2 = concat scenario.three_samples ++ pad /\
               Forall (fun x => x = audio.zero32) pad) /\
  audio.buffer after = [scenario.half] /\
  audio.samples after = [].
Proof.
  intros started stopped after.
  assert (Hidle : audio.running scenario.idle_recorder = false) by reflexivity.
  assert (Hopen : audio.OpenDefaultStream scenario.pa_ok
                  = Some {| audio.stream_id := 2%nat; audio.stream_open := true |})
    by reflexivity.
  assert (Hstart : audio.stream_Start_ok scenario.pa_ok = true) by reflexivity.
  destruct (capture_round_trip scenario.pa_ok scenario.idle_recorder _
              scenario.three_samples [] [scenario.half] Hidle Hopen Hstart)
    as (_ & _ & Hpad & _ & _ & _ & _ & Hsam & Hbuf & _).
  exact (conj Hidle (conj Hstart (conj Hpad (conj Hbuf Hsam)))).
Defined.

Lemma failed_Start_leaves_recorder_idle_witness :
  let r' := (audio.Start scenario.pa_none scenario.idle_recorder).1 in
  audio.OpenDefaultStream scenario.pa_none = None /\
  (audio.Start scenario.pa_none scenario.idle_recorder).2 <> None /\
  audio.IsRecording r' = false /\
  audio.record_all scenario.three_samples r' = r'.
Proof.
  intros r'.
  assert (Hidle : audio.running scenario.idle_recorder = false) by reflexivity.
  assert (Hnone : audio.OpenDefaultStream scenario.pa_none = None) by reflexivity.
  destruct (failed_Start_leaves_recorder_idle scenario.pa_none scenario.idle_recorder
              scenario.three_samples Hidle (or_introl Hnone))
    as (Herr & Hrun & Hsame & _).
  exact (conj Hnone (conj Herr (conj Hrun Hsame))).
Defined.

(** ** The outcomes of a recording session *)

Section SessionOutcomes.
Import audio speech app.

Context (k : session) (a : App).

Lemma recognize_ends_idle (b : App) rec s :
  trayState (recognize k rec s b).1 = tray.StateIdle /\
  recorder (recognize k rec s b).1 = recorder b /\
  speechFactory (recognize k rec s b).1 = speechFactory b.
Proof.
  unfold recognize.
  destruct (Transcribe k rec s (Language b)) as [text|]; [|cbn; auto].
  destruct (String.eqb text ""); [cbn; auto|].
  destruct (LLMEnabled b && llmModel b); [|cbn; auto].
  destruct (llm.CorrectText _ _ _ _ _); cbn; auto.
Qed.

(** However a stop that is acted on ends, nothing is left in progress. *)
Lemma stopRecording_settles :
  stoppable a ->
  processing (stopRecording k a).1 = false /\
  trayState (stopRecording k a).1 = tray.StateIdle /\
  IsRecording (recorder (stopRecording k a).1) = false /\
  speechFactory (stopRecording k a).1 = speechFactory a.
Proof.
  intros [Hrun Hproc]. unfold stopRecording. rewrite Hrun, Hproc. cbn [negb orb].
  cbn [recorder set_window set_processing speechFactory].
  pose proof (Stop_stops (recorder a)) as Hstopped.
  destruct (Stop (recorder a)) as [r' samples]. cbn [fst] in Hstopped.
  destruct (elapsed k <? MinRecordingDuration).
  { cbn. repeat split. exact Hstopped. }
  destruct (Current (speechFactory a)) as [rec|].
  - destruct (len samples =? 0).
    + cbn. repeat split. exact Hstopped.
    + match goal with |- context [recognize k rec samples ?b0] => set (b := b0) end.
      destruct (recognize_ends_idle b rec samples) as (Ht & Hr & Hf).
      pose proof (recognize_clears_processing k b rec samples) as Hp.
      destruct (recognize k rec samples b) as [a' evs]. cbn [fst] in *.
      split; [exact Hp|]. split; [exact Ht|].
      split; [unfold IsRecording; rewrite Hr; exact Hstopped | exact Hf].
  - cbn. repeat split. exact Hstopped.
Qed.

(** A stop that is not acted on changes nothing and notifies nothing. *)
Lemma stopRecording_not_acted_on :
  IsRecording (recorder a) = false \/ processing a = true ->
  stopRecording k a = (a, []).
Proof.
  intros Hnot. unfold stopRecording.
  destruct Hnot as [-> | ->]; [reflexivity | by rewrite orb_true_r].
Qed.


(** X5. A stop after [MinRecordingDuration] with no recognizer loaded
    notifies "processing" and then the error "model not loaded", calls no
    engine, hides the window and keeps the result text it had. *)
Theorem missing_recognizer_is_reported :
  stoppable a ->
  MinRecordingDuration <= elapsed k ->
  Current (speechFactory a) = None ->
  (stopRecording k a).2 = [Notifier_Processing; Notifier_Error "error_model_not_loaded"] /\
  waveform.running (waveformWin (stopRecording k a).1) = false /\
  waveform.resultText (waveformWin (stopRecording k a).1)
    = waveform.resultText (waveformWin a).
Proof.
  intros [Hrun Hproc] Hlong Hcur. apply Z.ltb_ge in Hlong.
  unfold stopRecording. rewrite Hrun, Hproc. cbn [negb orb].
  cbn [recorder set_window set_processing speechFactory]. rewrite Hcur.
  destruct (Stop (recorder a)) as [r' samples]. rewrite Hlong. cbn.
  split; [reflexivity|]. unfold waveform.Hide. destruct (waveformWin a) as [[] ? ?]; cbn; auto.
Qed.

Context (rec : handle).

(** X6. When the recognizer fails, the session notifies "processing",
    calls the recognizer once on the padded buffer, notifies the
    recognition error, never calls the language model, hides the window
    and keeps the result text it had. *)
Theorem failed_transcription_is_reported :
  stoppable a ->
  MinRecordingDuration <= elapsed k ->
  Current (speechFactory a) = Some rec ->
  Transcribe k rec (Stop (recorder a)).2 (Language a) = None ->
  (stopRecording k a).2 =
    [Notifier_Processing;
     Recognizer_Transcribe rec (Stop (recorder a)).2 (Language a);
     Notifier_Error "error_recognition"] /\
  waveform.running (waveformWin (stopRecording k a).1) = false /\
  waveform.resultText (waveformWin (stopRecording k a).1)
    = waveform.resultText (waveformWin a).
Proof.
  intros Hstop Hlong Hcur Hfail.
  rewrite (stopRecording_recognizes k a rec Hstop Hlong Hcur). cbn [fst snd].
  unfold recognize. cbn [Language at_recognition set_tray set_recorder set_window set_processing].
  rewrite Hfail. cbn.
  split; [reflexivity|]. unfold waveform.Hide. destruct (waveformWin a) as [[] ? ?]; cbn; auto.
Qed.

(** Recognition of a text that is not empty, without a language model. *)
Lemma recognize_plain (b : App) (s : list float32) (text : string) :
  Transcribe k rec s (Language b) = Some text ->
  text <> "" ->
  LLMEnabled b && llmModel b = false ->
  recognize k rec s b =
    (set_processing false
       (set_tray tray.StateIdle
          (set_window (waveform.SetResult text "" (waveformWin b)) b)),
     [Recognizer_Transcribe rec s (Language b)]).
Proof.
  intros Hheard Hne%String.eqb_neq Hoff. unfold recognize. rewrite Hheard, Hne, Hoff.
  reflexivity.
Qed.

(** X7. With correction switched off or no language model loaded, a text
    that is not empty is shown as transcribed: one recognizer call, no
    call of the language model, no notification after "processing", and
    the window shows the text in its result state. *)
Theorem uncorrected_result_is_transcription (text : string) :
  stoppable a ->
  MinRecordingDuration <= elapsed k ->
  Current (speechFactory a) = Some rec ->
  Transcribe k rec (Stop (recorder a)).2 (Language a) = Some text ->
  text <> "" ->
  LLMEnabled a = false \/ llmModel a = false ->
  (stopRecording k a).2 =
    [Notifier_Processing; Recognizer_Transcribe rec (Stop (recorder a)).2 (Language a)] /\
  waveform.resultText (waveformWin (stopRecording k a).1) = text /\
  waveform.state (waveformWin (stopRecording k a).1) = waveform.StateResult /\
  waveform.running (waveformWin (stopRecording k a).1) = waveform.running (waveformWin a).
Proof.
  intros Hstop Hlong Hcur Hheard Hne Hoff.
  rewrite (stopRecording_recognizes k a rec Hstop Hlong Hcur). cbn [fst snd].
  rewrite (recognize_plain (at_recognition a) _ text Hheard Hne).
  - cbn. repeat split.
  - cbn. destruct Hoff as [-> | ->]; [reflexivity | apply andb_false_r].
Qed.

(** X8. With correction on and a language model loaded, a text that is
    not empty is passed to the language model once, and the window shows
    the corrected text when the correction succeeds with a text that is
    not empty, and the transcription otherwise. *)
Theorem corrected_result_is_shown (text : string) :
  stoppable a ->
  MinRecordingDuration <= elapsed k ->
  Current (speechFactory a) = Some rec ->
  Transcribe k rec (Stop (recorder a)).2 (Language a) = Some text ->
  text <> "" ->
  LLMEnabled a = true -> llmModel a = true ->
  let res := llm.CorrectText (strings_TrimSpace k) (strings_Index k) (Generate k)
               (ctx_done k) text in
  (stopRecording k a).2 =
    [Notifier_Processing;
     Recognizer_Transcribe rec (Stop (recorder a)).2 (Language a);
     Llm_CorrectText text] /\
  waveform.state (waveformWin (stopRecording k a).1) = waveform.StateResult /\
  waveform.resultText (waveformWin (stopRecording k a).1)
    = match res.2 with
      | None => if String.eqb res.1 "" then text else res.1
      | Some _ => text
      end.
Proof.
  intros Hstop Hlong Hcur Hheard Hne Hen Hllm res.
  assert (Hneb : String.eqb text "" = false) by (apply String.eqb_neq; exact Hne).
  rewrite (stopRecording_recognizes k a rec Hstop Hlong Hcur). cbn [fst snd].
  unfold recognize.
  cbn [Language LLMEnabled llmModel at_recognition set_tray set_recorder set_window
       set_processing].
  rewrite Hheard, Hen, Hllm, Hneb. cbn [andb]. fold res.
  destruct res as [c [err|]]; cbn.
  - repeat split.
  - repeat split. unfold waveform.SetResult.
    destruct (String.eqb c "") eqn:Hc; cbn; rewrite ?Hc; reflexivity.
Qed.

End SessionOutcomes.


Lemma missing_recognizer_is_reported_witness :
  let k := scenario.stop_after 2000 (Some "hello") false None in
  let a := scenario.recording_with None false in
  app.stoppable a /\
  speech.Current (app.speechFactory a) = None /\
  (app.stopRecording k a).2 =
    [app.Notifier_Processing; app.Notifier_Error "error_model_not_loaded"] /\
  app.waveform.resultText (app.waveformWin (app.stopRecording k a).1) = "before".
Proof.
  intros k a.
  assert (Hstop : app.stoppable a) by (split; reflexivity).
  assert (Hlong : app.MinRecordingDuration <= app.elapsed k) by (vm_compute; discriminate).
  assert (Hcur : speech.Current (app.speechFactory a) = None) by reflexivity.
  destruct (missing_recognizer_is_reported k a Hstop Hlong Hcur) as (Hevs & _ & Hres).
  exact (conj Hstop (conj Hcur (conj Hevs Hres))).
Defined.

Lemma failed_transcription_is_reported_witness :
  let k := scenario.stop_after 2000 None false None in
  let a := scenario.recording_with (Some 0%nat) true in
  app.Transcribe k 0%nat (audio.Stop (app.recorder a)).2 (app.Language a) = None /\
  (app.stopRecording k a).2 =
    [app.Notifier_Processing;
     app.Recognizer_Transcribe 0%nat (audio.Stop (app.recorder a)).2 "ru";
     app.Notifier_Error "error_recognition"] /\
  app.waveform.running (app.waveformWin (app.stopRecording k a).1) = false.
Proof.
  intros k a.
  assert (Hstop : app.stoppable a) by (split; reflexivity).
  assert (Hlong : app.MinRecordingDuration <= app.elapsed k) by (vm_compute; discriminate).
  assert (Hcur : speech.Current (app.speechFactory a) = Some 0%nat) by reflexivity.
  assert (Hfail : app.Transcribe k 0%nat (audio.Stop (app.recorder a)).2 (app.Language a)
                  = None) by reflexivity.
  destruct (failed_transcription_is_reported k a 0%nat Hstop Hlong Hcur Hfail)
    as (Hevs & Hwin & _).
  exact (conj Hfail (conj Hevs Hwin)).
Defined.

Lemma uncorrected_result_is_transcription_witness :
  let k := scenario.stop_after 2000 (Some "hello") false (Some "never asked") in
  let a := scenario.recording_with (Some 0%nat) false in
  app.LLMEnabled a = false /\
  (app.stopRecording k a).2 =
    [app.Notifier_Processing;
     app.Recognizer_Transcribe 0%nat (audio.Stop (app.recorder a)).2 "ru"] /\
  app.waveform.resultText (app.waveformWin (app.stopRecording k a).1) = "hello".
Proof.
  intros k a.
  assert (Hstop : app.stoppable a) by (split; reflexivity).
  assert (Hlong : app.MinRecordingDuration <= app.elapsed k) by (vm_compute; discriminate).
  assert (Hcur : speech.Current (app.speechFactory a) = Some 0%nat) by reflexivity.
  assert (Hheard : app.Transcribe k 0%nat (audio.Stop (app.recorder a)).2 (app.Language a)
                   = Some "hello") by reflexivity.
  assert (Hne : "hello" <> "") by discriminate.
  assert (Hoff : app.LLMEnabled a = false) by reflexivity.
  destruct (uncorrected_result_is_transcription k a 0%nat "hello" Hstop Hlong Hcur Hheard
              Hne (or_introl Hoff)) as (Hevs & Hres & _).
  exact (conj Hoff (conj Hevs Hres)).
Defined.

Lemma corrected_result_is_shown_witness :
  let k := scenario.stop_after 2000 (Some "helo wrld") false (Some "hello world") in
  let a := scenario.recording_with (Some 0%nat) true in
  app.LLMEnabled a = true /\
  (app.stopRecording k a).2 =
    [app.Notifier_Processing;
     app.Recognizer_Transcribe 0%nat (audio.Stop (app.recorder a)).2 "ru";
     app.Llm_CorrectText "helo wrld"] /\
  app.waveform.resultText (app.waveformWin (app.stopRecording k a).1) = "hello world".
Proof.
  intros k a.
  assert (Hstop : app.stoppable a) by (split; reflexivity).
  assert (Hlong : app.MinRecordingDuration <= app.elapsed k) by (vm_compute; discriminate).
  assert (Hcur : speech.Current (app.speechFactory a) = Some 0%nat) by reflexivity.
  assert (Hheard : app.Transcribe k 0%nat (audio.Stop (app.recorder a)).2 (app.Language a)
                   = Some "helo wrld") by reflexivity.
  assert (Hne : "helo wrld" <> "") by discriminate.
  assert (Hon : app.LLMEnabled a = true) by reflexivity.
  destruct (corrected_result_is_shown k a 0%nat "helo wrld" Hstop Hlong Hcur Hheard Hne
              Hon eq_refl) as (Hevs & _ & Hres).
  exact (conj Hon (conj Hevs Hres)).
Defined.

(** ** The hotkey toggle *)

Section Toggle.
Import audio speech app toggle.

Context (pa : portaudio) (k : session).

(** A press that starts a recording, written out. *)
Lemma onHotkeyPress_idle (now : Z) (s : state) (strm : Stream) :
  idle s ->
  IsLoaded (speechFactory (the_app s)) = true ->
  OpenDefaultStream pa = Some strm ->
  stream_Start_ok pa = true ->
  onHotkeyPress pa k now s =
    ({| the_app :=
          set_window
            {| waveform.running := true; waveform.state := waveform.StateRecording;
               waveform.resultText := "" |}
            (set_recorder
               {| stream := Some strm; buffer := buffer (recorder (the_app s)); samples := [];
                  running := true; done := Some (new_chan pa) |}
               (set_tray tray.StateRecording (the_app s)));
        recordingStart := now |},
     [Notifier_Recording]).
Proof.
  intros [Hrec Hproc] Hloaded Hopen Hstart.
  unfold onHotkeyPress. rewrite Hrec, Hproc, Hloaded. cbn [negb].
  cbn [recorder set_window set_tray].
  rewrite (Start_ok pa (recorder (the_app s)) strm Hrec Hopen Hstart). reflexivity.
Qed.

(** X9. A press while idle, with a recognizer loaded and a stream that
    opens and starts, notifies "recording" and nothing else, starts the
    recorder on an empty capture, sets the tray to recording, shows the
    window in its recording state with the old result cleared, notes the
    instant of the press, and leaves the factory alone. *)
Theorem press_starts_recording (now : Z) (s : state) (strm : Stream) :
  idle s ->
  IsLoaded (speechFactory (the_app s)) = true ->
  OpenDefaultStream pa = Some strm ->
  stream_Start_ok pa = true ->
  let s' := (onHotkeyPress pa k now s).1 in
  (onHotkeyPress pa k now s).2 = [Notifier_Recording] /\
  IsRecording (recorder (the_app s')) = true /\
  samples (recorder (the_app s')) = [] /\
  processing (the_app s') = false /\
  trayState (the_app s') = tray.StateRecording /\
  waveformWin (the_app s') =
    {| waveform.running := true; waveform.state := waveform.StateRecording;
       waveform.resultText := "" |} /\
  recordingStart s' = now /\
  speechFactory (the_app s') = speechFactory (the_app s).
Proof.
  intros Hidle Hloaded Hopen Hstart s'. subst s'.
  rewrite (onHotkeyPress_idle now s strm Hidle Hloaded Hopen Hstart). cbn.
  repeat split. apply Hidle.
Qed.

(** X10. A press while a recognition is in progress is ignored, and a
    press with no recognizer loaded only notifies the error "model
    loading": in both cases the state is unchanged and no recording
    starts. *)
Theorem press_is_refused (now : Z) (s : state) :
  IsRecording (recorder (the_app s)) = false ->
  processing (the_app s) = true \/ IsLoaded (speechFactory (the_app s)) = false ->
  (onHotkeyPress pa k now s).1 = s /\
  (onHotkeyPress pa k now s).2 =
    if processing (the_app s) then []
    else [Of_session (Notifier_Error "error_model_loading")].
Proof.
  intros Hrec Hwhy. unfold onHotkeyPress. rewrite Hrec.
  destruct (processing (the_app s)); [auto|].
  destruct Hwhy as [Hp|Hl]; [discriminate|]. rewrite Hl. auto.
Qed.

Lemma time_Sub_short (now start : Z) :
  now - start < MinRecordingDuration -> time_Sub now start < MinRecordingDuration.
Proof.
  unfold time_Sub, MinRecordingDuration, Millisecond, min_int64, max_int64. lia.
Qed.

Lemma time_Sub_long (now start : Z) :
  MinRecordingDuration <= now - start -> MinRecordingDuration <= time_Sub now start.
Proof.
  unfold time_Sub, MinRecordingDuration, Millisecond, min_int64, max_int64. lia.
Qed.

(** A stop before [MinRecordingDuration], from any state in which it is
    acted on. *)
Lemma short_stop (k0 : session) (a : App) :
  elapsed k0 < MinRecordingDuration ->
  stoppable a ->
  (stopRecording k0 a).2 = [] /\
  waveform.running (waveformWin (stopRecording k0 a).1) = false.
Proof.
  intros Hshort [Hrun Hproc]. apply Z.ltb_lt in Hshort.
  unfold stopRecording. rewrite Hrun, Hproc. cbn [negb orb].
  destruct (Stop (recorder _)) as [r' samples]. rewrite Hshort. cbn.
  split; [reflexivity|]. unfold waveform.Hide. destruct (waveformWin a) as [[] ? ?]; reflexivity.
Qed.

Context (s : state) (strm : Stream) (rec : handle) (frames : list (list float32)).
Context (t0 t1 : Z).

Hypothesis s_idle : idle s.
Hypothesis s_loaded : Current (speechFactory (the_app s)) = Some rec.
Hypothesis pa_open : OpenDefaultStream pa = Some strm.
Hypothesis pa_start : stream_Start_ok pa = true.

(** The state after the first press and the frames captured since. *)
Lemma recording_state :
  let s2 := capture frames (onHotkeyPress pa k t0 s).1 in
  stoppable (the_app s2) /\
  samples (recorder (the_app s2)) = concat frames /\
  recordingStart s2 = t0 /\
  Current (speechFactory (the_app s2)) = Some rec /\
  Language (the_app s2) = Language (the_app s) /\
  LLMEnabled (the_app s2) = LLMEnabled (the_app s) /\
  llmModel (the_app s2) = llmModel (the_app s) /\
  recorder (the_app s2) = record_all frames (Start pa (recorder (the_app s))).1.
Proof.
  intros s2.
  assert (Hloaded : IsLoaded (speechFactory (the_app s)) = true).
  { pose proof s_loaded as Hc. unfold Current in Hc. unfold IsLoaded. rewrite Hc.
    apply bool_decide_eq_true. discriminate. }
  subst s2. rewrite (onHotkeyPress_idle t0 s strm s_idle Hloaded pa_open pa_start).
  rewrite (Start_ok pa (recorder (the_app s)) strm (proj1 s_idle) pa_open pa_start).
  unfold capture. cbn [fst the_app recordingStart recorder set_recorder set_window set_tray].
  match goal with |- context [record_all frames ?r0] => set (r1 := r0) end.
  destruct (record_all_running frames r1 eq_refl) as (Hrun' & Hsam' & _).
  cbn [samples r1 app] in Hsam'.
  split; [split; [exact Hrun' | apply s_idle]|].
  split; [exact Hsam'|]. split; [reflexivity|].
  split; [exact s_loaded|]. cbn. auto.
Qed.

(** X11. Two presses at least [MinRecordingDuration] apart, with frames
    captured in between and correction off: the second press notifies
    "processing" and calls the recognizer once, on exactly the captured
    frames followed by silence only, at least [MinSamples] long; when the
    recognizer answers a text that is not empty, the window shows that
    text and the session is idle again. *)
Theorem two_presses_give_one_result (text : string) :
  MinRecordingDuration <= t1 - t0 ->
  LLMEnabled (the_app s) = false ->
  let padded := (Stop (record_all frames (Start pa (recorder (the_app s))).1)).2 in
  Transcribe k rec padded (Language (the_app s)) = Some text ->
  text <> "" ->
  let out := onHotkeyPress pa k t1 (capture frames (onHotkeyPress pa k t0 s).1) in
  out.2 = [Of_session Notifier_Processing;
           Of_session (Recognizer_Transcribe rec padded (Language (the_app s)))] /\
  (exists pad, padded = concat frames ++ pad /\ Forall (fun x => x = zero32) pad) /\
  MinSamples <= len padded /\
  waveform.resultText (waveformWin (the_app out.1)) = text /\
  waveform.state (waveformWin (the_app out.1)) = waveform.StateResult /\
  idle out.1 /\
  trayState (the_app out.1) = tray.StateIdle.
Proof.
  intros Hlong Hoff padded Hheard Hne out.
  destruct recording_state as (Hstop & Hsam & Hstart & Hcur & Hlang & Hllm & _ & Hrec).
  subst out padded. set (s2 := capture frames (onHotkeyPress pa k t0 s).1) in *.
  rewrite <- Hrec in *.
  assert (Hlong' : MinRecordingDuration <= elapsed (at_time k t1 t0))
    by (apply time_Sub_long, Hlong).
  pose proof (Stop_output (recorder (the_app s2)) (proj1 Hstop)) as Hpad.
  rewrite Hsam in Hpad.
  rewrite <- Hlang in *.
  destruct (stopRecording_settles (at_time k t1 t0) (the_app s2) Hstop)
    as (Hproc & Htray & Hidle & _).
  pose proof (stopRecording_recognizes (at_time k t1 t0) (the_app s2) rec Hstop Hlong' Hcur)
    as Hrun.
  rewrite (recognize_plain (at_time k t1 t0) rec (at_recognition (the_app s2)) _ text
             Hheard Hne) in Hrun
    by (cbn [LLMEnabled llmModel at_recognition set_tray set_recorder set_window
             set_processing]; rewrite Hllm, Hoff; reflexivity).
  cbn [fst snd] in Hrun.
  unfold onHotkeyPress. rewrite (proj1 Hstop), Hstart.
  rewrite Hrun in Hproc, Htray, Hidle |- *. cbn [fst snd the_app] in *.
  split; [reflexivity|].
  split; [eexists; split; [exact Hpad | apply Forall_zero_make]|].
  split; [apply Stop_length, Hstop|]. unfold idle. cbn [the_app].
  split; [reflexivity|]. split; [reflexivity|]. auto.
Qed.

(** X12. A second press sooner than [MinRecordingDuration] after the
    first stops the recording without any notification and without a
    recognizer call: the session is idle again and the window is hidden. *)
Theorem quick_second_press_cancels_silently :
  t1 - t0 < MinRecordingDuration ->
  let out := onHotkeyPress pa k t1 (capture frames (onHotkeyPress pa k t0 s).1) in
  out.2 = [] /\
  idle out.1 /\
  trayState (the_app out.1) = tray.StateIdle /\
  waveform.running (waveformWin (the_app out.1)) = false.
Proof.
  intros Hquick out.
  destruct recording_state as (Hstop & _ & Hstart & _).
  subst out. set (s2 := capture frames (onHotkeyPress pa k t0 s).1) in *.
  unfold onHotkeyPress. rewrite (proj1 Hstop), Hstart.
  assert (Hshort : elapsed (at_time k t1 t0) < MinRecordingDuration)
    by (apply time_Sub_short, Hquick).
  destruct (short_stop (at_time k t1 t0) (the_app s2) Hshort Hstop) as (Hevs & Hwin).
  destruct (stopRecording_settles (at_time k t1 t0) (the_app s2) Hstop)
    as (Hproc & Htray & Hrec & _).
  destruct (stopRecording _ _) as [a' evs]. cbn [fst snd the_app] in *.
  rewrite Hevs. unfold idle. cbn [the_app]. auto.
Qed.

End Toggle.

Section Cancel.
Import audio speech app toggle.

(** X13. The cancel callback, in whatever state, leaves the session idle
    with the tray idle, and itself touches neither the factory nor the
    fields of the window; the next press then starts a recording. *)
Theorem cancel_frees_the_session (pa : portaudio) (k : session) (now : Z) (s : state)
    (strm : Stream) :
  IsLoaded (speechFactory (the_app s)) = true ->
  OpenDefaultStream pa = Some strm ->
  stream_Start_ok pa = true ->
  idle (OnCancel s) /\
  trayState (the_app (OnCancel s)) = tray.StateIdle /\
  speechFactory (the_app (OnCancel s)) = speechFactory (the_app s) /\
  waveformWin (the_app (OnCancel s)) = waveformWin (the_app s) /\
  (onHotkeyPress pa k now (OnCancel s)).2 = [Notifier_Recording] /\
  IsRecording (recorder (the_app (onHotkeyPress pa k now (OnCancel s)).1)) = true.
Proof.
  intros Hloaded Hopen Hstart.
  assert (Hidle : idle (OnCancel s)).
  { unfold idle, OnCancel. cbn [the_app]. split; [|reflexivity].
    destruct (IsRecording (recorder (the_app s))) eqn:Hrec; cbn.
    - apply Stop_stops.
    - exact Hrec. }
  assert (Hfac : speechFactory (the_app (OnCancel s)) = speechFactory (the_app s)).
  { unfold OnCancel. cbn. destruct (IsRecording _); reflexivity. }
  assert (Hwin : waveformWin (the_app (OnCancel s)) = waveformWin (the_app s)).
  { unfold OnCancel. cbn. destruct (IsRecording _); reflexivity. }
  split; [exact Hidle|]. split; [reflexivity|]. split; [exact Hfac|]. split; [exact Hwin|].
  rewrite (onHotkeyPress_idle pa k now (OnCancel s) strm Hidle
             ltac:(rewrite Hfac; exact Hloaded) Hopen Hstart).
  split; reflexivity.
Qed.

End Cancel.

Lemma press_starts_recording_witness :
  let k := scenario.stop_after 0 None false None in
  let out := toggle.onHotkeyPress scenario.pa_ok k 5 (scenario.waiting false) in
  toggle.idle (scenario.waiting false) /\
  out.2 = [toggle.Notifier_Recording] /\
  audio.IsRecording (app.recorder (toggle.the_app out.1)) = true /\
  toggle.recordingStart out.1 = 5.
Proof.
  intros k out.
  assert (Hidle : toggle.idle (scenario.waiting false)) by (split; reflexivity).
  assert (Hloaded : speech.IsLoaded (app.speechFactory (toggle.the_app (scenario.waiting false)))
                    = true) by reflexivity.
  assert (Hopen : audio.OpenDefaultStream scenario.pa_ok
                  = Some {| audio.stream_id := 2%nat; audio.stream_open := true |})
    by reflexivity.
  destruct (press_starts_recording scenario.pa_ok k 5 (scenario.waiting false) _
              Hidle Hloaded Hopen eq_refl)
    as (Hevs & Hrun & _ & _ & _ & _ & Hat & _).
  exact (conj Hidle (conj Hevs (conj Hrun Hat))).
Defined.

Lemma press_is_refused_witness :
  let k := scenario.stop_after 0 None false None in
  app.processing (toggle.the_app (scenario.waiting true)) = true /\
  toggle.onHotkeyPress scenario.pa_ok k 5 (scenario.waiting true)
  = (scenario.waiting true, []).
Proof.
  intros k.
  assert (Hrec : audio.IsRecording (app.recorder (toggle.the_app (scenario.waiting true)))
                 = false) by reflexivity.
  assert (Hbusy : app.processing (toggle.the_app (scenario.waiting true)) = true)
    by reflexivity.
  destruct (press_is_refused scenario.pa_ok k 5 (scenario.waiting true) Hrec
              (or_introl Hbusy)) as (Hsame & Hevs).
  split; [exact Hbusy|].
  rewrite (surjective_pairing (toggle.onHotkeyPress _ _ _ _)), Hsame, Hevs. reflexivity.
Defined.

Lemma two_presses_give_one_result_witness :
  let k := scenario.stop_after 0 (Some "hello") false None in
  let t1 := 600 * app.Millisecond in
  let out :=
    toggle.onHotkeyPress scenario.pa_ok k t1
      (toggle.capture scenario.three_samples
         (toggle.onHotkeyPress scenario.pa_ok k 0 (scenario.waiting false)).1) in
  app.MinRecordingDuration <= t1 - 0 /\
  app.waveform.resultText (app.waveformWin (toggle.the_app out.1)) = "hello" /\
  toggle.idle out.1.
Proof.
  intros k t1 out.
  assert (Hidle : toggle.idle (scenario.waiting false)) by (split; reflexivity).
  assert (Hcur : speech.Current (app.speechFactory (toggle.the_app (scenario.waiting false)))
                 = Some 0%nat) by reflexivity.
  assert (Hopen : audio.OpenDefaultStream scenario.pa_ok
                  = Some {| audio.stream_id := 2%nat; audio.stream_open := true |})
    by reflexivity.
  assert (Hlong : app.MinRecordingDuration <= t1 - 0) by (vm_compute; discriminate).
  assert (Hne : "hello" <> "") by discriminate.
  destruct (two_presses_give_one_result scenario.pa_ok k (scenario.waiting false) _ 0%nat
              scenario.three_samples 0 t1 Hidle Hcur Hopen eq_refl "hello" Hlong eq_refl
              eq_refl Hne)
    as (_ & _ & _ & Hres & _ & Hdone & _).
  exact (conj Hlong (conj Hres Hdone)).
Defined.

Lemma quick_second_press_cancels_silently_witness :
  let k := scenario.stop_after 0 (Some "hello") false None in
  let t1 := 100 * app.Millisecond in
  let out :=
    toggle.onHotkeyPress scenario.pa_ok k t1
      (toggle.capture scenario.three_samples
         (toggle.onHotkeyPress scenario.pa_ok k 0 (scenario.waiting false)).1) in
  t1 - 0 < app.MinRecordingDuration /\
  out.2 = [] /\
  toggle.idle out.1.
Proof.
  intros k t1 out.
  assert (Hidle : toggle.idle (scenario.waiting false)) by (split; reflexivity).
  assert (Hcur : speech.Current (app.speechFactory (toggle.the_app (scenario.waiting false)))
                 = Some 0%nat) by reflexivity.
  assert (Hopen : audio.OpenDefaultStream scenario.pa_ok
                  = Some {| audio.stream_id := 2%nat; audio.stream_open := true |})
    by reflexivity.
  assert (Hquick : t1 - 0 < app.MinRecordingDuration) by (vm_compute; reflexivity).
  destruct (quick_second_press_cancels_silently scenario.pa_ok k (scenario.waiting false) _
              0%nat scenario.three_samples 0 t1 Hidle Hcur Hopen eq_refl Hquick)
    as (Hevs & Hdone & _).
  exact (conj Hquick (conj Hevs Hdone)).
Defined.

Lemma cancel_frees_the_session_witness :
  let k := scenario.stop_after 0 None false None in
  let s := {| toggle.the_app := scenario.recording_app; toggle.recordingStart := 0 |} in
  audio.IsRecording (app.recorder (toggle.the_app s)) = true /\
  toggle.idle (toggle.OnCancel s) /\
  (toggle.onHotkeyPress scenario.pa_ok k 7 (toggle.OnCancel s)).2
  = [toggle.Notifier_Recording].
Proof.
  intros k s.
  assert (Hloaded : speech.IsLoaded (app.speechFactory (toggle.the_app s)) = true)
    by reflexivity.
  assert (Hopen : audio.OpenDefaultStream scenario.pa_ok
                  = Some {| audio.stream_id := 2%nat; audio.stream_open := true |})
    by reflexivity.
  destruct (cancel_frees_the_session scenario.pa_ok k 7 s _ Hloaded Hopen eq_refl)
    as (Hidle & _ & _ & _ & Hevs & _).
  split; [reflexivity|]. exact (conj Hidle Hevs).
Defined.

(** ** The registry and [Delete] *)

Section RegistryFacts.
Import models.

Lemma registry_ids_unique :
  Forall (fun a => Forall (fun b => ID a = ID b -> a = b) Registry) Registry.
Proof. apply (bool_decide_unpack _). vm_compute. exact I. Qed.

Lemma registry_files_unique :
  Forall (fun a => Forall (fun b =>
    Engine_ a = Engine_ b -> Filename a = Filename b -> a = b) Registry) Registry.
Proof. apply (bool_decide_unpack _). vm_compute. exact I. Qed.

Lemma registry_engines :
  Forall (fun a => Engine_ a = EngineWhisper \/ Engine_ a = EngineVosk \/ Engine_ a = EngineLLM)
    Registry.
Proof. apply (bool_decide_unpack _). vm_compute. exact I. Qed.

Lemma GetModel_sound (id : string) (info : ModelInfo) :
  GetModel id = Some info -> In info Registry /\ ID info = id.
Proof.
  unfold GetModel. intros H. apply find_some in H as [Hin Heq].
  apply String.eqb_eq in Heq. auto.
Qed.

(** X24. [GetModel] finds a model exactly when the registry has an entry
    with that identifier, and then returns that entry: no two entries of
    the registry share an identifier. *)
Theorem GetModel_finds_each_entry_by_its_id (id : string) (info : ModelInfo) :
  GetModel id = Some info <-> In info Registry /\ ID info = id.
Proof.
  split; [apply GetModel_sound|]. intros [Hin <-].
  destruct (GetModel (ID info)) as [found|] eqn:Hget.
  - apply GetModel_sound in Hget as [Hfound Hid].
    pose proof registry_ids_unique as Huniq. rewrite Forall_forall in Huniq.
    apply list_elem_of_In in Hin, Hfound.
    specialize (Huniq found Hfound). rewrite Forall_forall in Huniq.
    f_equal. apply Huniq; [exact Hin | exact Hid].
  - exfalso. unfold GetModel in Hget.
    eapply find_none in Hget; [|exact Hin]. cbn in Hget.
    rewrite String.eqb_refl in Hget. discriminate.
Qed.

Lemma registry_names :
  Forall (fun a => is_name (Filename a) = true) Registry.
Proof. apply (bool_decide_unpack _). vm_compute. exact I. Qed.

Lemma registry_path (m : Manager) (info : ModelInfo) :
  In info Registry ->
  GetModelPath m info = filepath_Clean (modelsDir m) ++ [Engine_ info; Filename info].
Proof.
  intros Hin%list_elem_of_In. pose proof registry_engines as He.
  rewrite Forall_forall in He. specialize (He info Hin).
  pose proof registry_names as Hn. rewrite Forall_forall in Hn. specialize (Hn info Hin).
  unfold GetModelPath, filepath_Join.
  destruct He as [-> | [-> | ->]]; cbn [String.eqb Ascii.eqb Bool.eqb];
    apply filepath_Clean_app_names; repeat constructor; exact Hn.
Qed.

Lemma registry_paths_distinct (m : Manager) (a b : ModelInfo) :
  In a Registry -> In b Registry ->
  GetModelPath m a `prefix_of` GetModelPath m b -> a = b.
Proof.
  intros Ha Hb Hpre.
  rewrite (registry_path m a Ha), (registry_path m b Hb) in Hpre.
  apply prefix_app_inv in Hpre. destruct Hpre as [k Hk]. cbn in Hk.
  injection Hk as He Hf Hk.
  pose proof registry_files_unique as Huniq. rewrite Forall_forall in Huniq.
  apply list_elem_of_In in Ha, Hb.
  specialize (Huniq a Ha). rewrite Forall_forall in Huniq.
  apply (Huniq b Hb); congruence.
Qed.

(** X25. [Delete] removes the model's path and everything below it and
    nothing else: afterwards that model is not downloaded, every other
    path is as before, and every other model of the registry is
    downloaded exactly when it was before. *)
Theorem Delete_removes_that_model_only
    (dsz : Z) (m : Manager) (info : ModelInfo) (fs : filesystem) :
  IsDownloaded dsz m (Delete m info fs) info = false /\
  (forall q, GetModelPath m info `prefix_of` q -> Delete m info fs !! q = None) /\
  (forall q, ~ GetModelPath m info `prefix_of` q -> Delete m info fs !! q = fs !! q) /\
  (forall other, In info Registry -> In other Registry -> other <> info ->
     IsDownloaded dsz m (Delete m info fs) other = IsDownloaded dsz m fs other).
Proof.
  assert (Hin : forall q, GetModelPath m info `prefix_of` q -> Delete m info fs !! q = None).
  { intros q Hq. unfold Delete, os_RemoveAll. apply map_lookup_filter_None. right.
    intros x _. cbn. rewrite bool_decide_eq_true_2 by exact Hq. discriminate. }
  assert (Hout : forall q, ~ GetModelPath m info `prefix_of` q -> Delete m info fs !! q = fs !! q).
  { intros q Hq. unfold Delete, os_RemoveAll.
    destruct (fs !! q) as [x|] eqn:Hfs.
    - apply map_lookup_filter_Some. split; [exact Hfs|]. cbn.
      rewrite bool_decide_eq_false_2 by exact Hq. reflexivity.
    - apply map_lookup_filter_None. left. exact Hfs. }
  split; [|split; [exact Hin|split; [exact Hout|]]].
  - unfold IsDownloaded, os_Stat. rewrite Hin; reflexivity.
  - intros other Hi Ho Hne. unfold IsDownloaded, os_Stat. rewrite Hout; [reflexivity|].
    intros Hpre. apply Hne. symmetry. eapply registry_paths_distinct; eauto.
Qed.

End RegistryFacts.

(** ** The factory, one call at a time *)

Section FactoryMore.
Import models speech.

Context (E : engines) (dsz : Z) (fs : filesystem).

(** X14. Whenever [Create] returns a recognizer, the identifier is in the
    registry, that model is downloaded, the recognizer is open on the
    model's path, and its kind is the one of the model's engine: Whisper
    or Vosk, never anything else. *)
Theorem Create_builds_only_downloaded_speech_models
    (f : Factory) (id : string) (o : object) :
  Create E dsz fs f id = inr o ->
  exists info,
    GetModel id = Some info /\ ID info = id /\
    IsDownloaded dsz (manager f) fs info = true /\
    model_path o = GetModelPath (manager f) info /\
    st o = Live /\
    (Engine_ info = EngineWhisper /\ kind o = WhisperRecognizer \/
     Engine_ info = EngineVosk /\ kind o = VoskRecognizer).
Proof.
  unfold Create. destruct (GetModel id) as [info|] eqn:Hget; [|discriminate].
  destruct (IsDownloaded dsz (manager f) fs info) eqn:Hd; [|discriminate]. cbn [negb].
  intros Hc. exists info. split; [reflexivity|].
  split; [apply (GetModel_sound id info Hget)|]. split; [exact Hd|].
  destruct (String.eqb (Engine_ info) EngineWhisper) eqn:Hw.
  - apply String.eqb_eq in Hw. unfold NewWhisperFromFile in Hc.
    destruct (whisper_New _ _); [|discriminate]. injection Hc as <-. cbn. auto.
  - destruct (String.eqb (Engine_ info) EngineVosk) eqn:Hv; [|discriminate].
    apply String.eqb_eq in Hv. unfold NewVosk in Hc.
    destruct (fs !! _); [|discriminate].
    destruct (vosk_NewModel _ _); [|discriminate].
    destruct (vosk_NewRecognizer _ _); [|discriminate]. injection Hc as <-. cbn. auto.
Qed.

(** A registry entry of another engine (a language model) is never turned
    into a recognizer. *)
Lemma Create_refuses_other_engines (f : Factory) (id : string) (info : ModelInfo) :
  GetModel id = Some info ->
  Engine_ info <> EngineWhisper ->
  Engine_ info <> EngineVosk ->
  Create E dsz fs f id =
    inl (if IsDownloaded dsz (manager f) fs info
         then UnknownEngine (Engine_ info) else ModelNotDownloaded (Name info)).
Proof.
  intros Hget Hw%String.eqb_neq Hv%String.eqb_neq. unfold Create. rewrite Hget.
  destruct (IsDownloaded _ _ _ _); cbn [negb]; [|reflexivity]. rewrite Hw, Hv. reflexivity.
Qed.

Lemma lookup_close_other (hp : heap) (h x : handle) :
  x <> h -> Close_recognizer h hp !! x = hp !! x.
Proof.
  intros Hne. unfold Close_recognizer. destruct (hp !! h); [|reflexivity].
  by rewrite lookup_insert_ne.
Qed.

Lemma live_closed (hp : heap) (h : handle) : hotswap.live (Close_recognizer h hp) h = false.
Proof.
  unfold hotswap.live, Close_recognizer. destruct (hp !! h) eqn:Hh.
  - rewrite lookup_insert_eq. reflexivity.
  - rewrite Hh. reflexivity.
Qed.

(** X15. When the new recognizer can be created, [Swap] installs it under a
    handle that was not in use, returns the old handle, and closes
    nothing: every recognizer that existed is as it was. *)
Theorem Swap_installs_without_closing
    (f : Factory) (id : string) (hp : heap) (o : object) :
  Create E dsz fs f id = inr o ->
  let rec := fresh (dom hp) in
  (rec ∉ dom hp) /\
  Swap E dsz fs f id hp =
    ({| manager := manager f; current := Some rec; modelID := id |},
     <[rec := o]> hp, None, current f) /\
  hotswap.live (<[rec := o]> hp) rec = true /\
  forall h, h ∈ dom hp -> (<[rec := o]> hp) !! h = hp !! h.
Proof.
  intros Hc rec. pose proof (is_fresh (dom hp)) as Hfresh. fold rec in Hfresh.
  split; [exact Hfresh|]. split; [unfold Swap; rewrite Hc; reflexivity|].
  split; [apply live_alloc_new; eapply Create_live; eauto|].
  intros h Hh. apply lookup_insert_ne. intros ->. contradiction.
Qed.

(** X16. When the new recognizer can be created, [Load] installs it under
    a handle that was not in use and closes the old one, if any; no other
    recognizer is touched. *)
Theorem Load_installs_and_closes_old
    (f : Factory) (id : string) (hp : heap) (o : object) :
  Create E dsz fs f id = inr o ->
  (forall old, current f = Some old -> old ∈ dom hp) ->
  let rec := fresh (dom hp) in
  let hp' := (Load E dsz fs f id hp).1.2 in
  (Load E dsz fs f id hp).1.1 = {| manager := manager f; current := Some rec; modelID := id |} /\
  (Load E dsz fs f id hp).2 = None /\
  hotswap.live hp' rec = true /\
  (forall old, current f = Some old -> hotswap.live hp' old = false) /\
  forall h, h ∈ dom hp -> current f <> Some h -> hp' !! h = hp !! h.
Proof.
  intros Hc Hwf rec hp'. pose proof (is_fresh (dom hp)) as Hfresh. fold rec in Hfresh.
  assert (Hlive : hotswap.live (<[rec := o]> hp) rec = true)
    by (apply live_alloc_new; eapply Create_live; eauto).
  subst hp'. unfold Load. rewrite Hc. cbn. fold rec.
  split; [reflexivity|]. split; [reflexivity|].
  destruct (current f) as [old|] eqn:Hcur; cbn.
  - assert (Hne : rec <> old) by (intros ->; apply Hfresh, Hwf; reflexivity).
    split; [rewrite live_close_other; [exact Hlive | exact Hne]|].
    split; [intros ? [= <-]; apply live_closed|].
    intros h Hh Hnot. rewrite lookup_close_other by congruence.
    apply lookup_insert_ne. intros ->. contradiction.
  - split; [exact Hlive|]. split; [discriminate|].
    intros h Hh _. apply lookup_insert_ne. intros ->. contradiction.
Qed.

(** X17. [Factory.Close] closes the current recognizer, if any, touches no
    other, and leaves the factory unloaded; closing again changes
    nothing. *)
Theorem Close_unloads_once (f : Factory) (hp : heap) :
  let '(f', hp') := Close f hp in
  IsLoaded f' = false /\
  (forall h, current f = Some h -> hotswap.live hp' h = false) /\
  (forall h, current f <> Some h -> hp' !! h = hp !! h) /\
  Close f' hp' = (f', hp').
Proof.
  unfold Close. destruct (current f) as [h|] eqn:Hcur.
  - split; [reflexivity|]. split; [intros ? [= <-]; apply live_closed|].
    split; [intros x Hx; apply lookup_close_other; congruence | reflexivity].
  - split; [unfold IsLoaded; rewrite Hcur; apply bool_decide_eq_false; auto|].
    split; [discriminate|]. split; [reflexivity|]. rewrite Hcur. reflexivity.
Qed.

End FactoryMore.

Lemma Create_builds_only_downloaded_speech_models_witness :
  speech.Create scenario.engines_ok 4096 scenario.disk_with_tiny
    scenario.loaded_factory "whisper-tiny-q5" = inr scenario.tiny_engine /\
  exists info,
    models.GetModel "whisper-tiny-q5" = Some info /\
    models.IsDownloaded 4096 scenario.the_manager scenario.disk_with_tiny info = true /\
    models.Engine_ info = models.EngineWhisper.
Proof.
  assert (Hc : speech.Create scenario.engines_ok 4096 scenario.disk_with_tiny
                 scenario.loaded_factory "whisper-tiny-q5" = inr scenario.tiny_engine)
    by (vm_compute; reflexivity).
  destruct (Create_builds_only_downloaded_speech_models scenario.engines_ok 4096
              scenario.disk_with_tiny scenario.loaded_factory "whisper-tiny-q5"
              scenario.tiny_engine Hc)
    as (info & Hget & _ & Hd & _ & _ & Hkind).
  split; [exact Hc|]. exists info. split; [exact Hget|]. split; [exact Hd|].
  destruct Hkind as [[He _]|[_ Hk]]; [exact He | discriminate Hk].
Defined.

Lemma Swap_installs_without_closing_witness :
  speech.Create scenario.engines_ok 4096 scenario.disk_with_tiny
    scenario.loaded_factory "whisper-tiny-q5" = inr scenario.tiny_engine /\
  (speech.Swap scenario.engines_ok 4096 scenario.disk_with_tiny
     scenario.loaded_factory "whisper-tiny-q5" scenario.loaded_heap).2 = Some 0%nat /\
  (speech.Swap scenario.engines_ok 4096 scenario.disk_with_tiny
     scenario.loaded_factory "whisper-tiny-q5" scenario.loaded_heap).1.1.2 !! 0%nat
  = Some scenario.tiny_engine.
Proof.
  assert (Hc : speech.Create scenario.engines_ok 4096 scenario.disk_with_tiny
                 scenario.loaded_factory "whisper-tiny-q5" = inr scenario.tiny_engine)
    by (vm_compute; reflexivity).
  destruct (Swap_installs_without_closing scenario.engines_ok 4096 scenario.disk_with_tiny
              scenario.loaded_factory "whisper-tiny-q5" scenario.loaded_heap
              scenario.tiny_engine Hc)
    as (_ & Hswap & _ & Hkept).
  split; [exact Hc|]. rewrite Hswap. cbn [fst snd]. split; [reflexivity|].
  rewrite Hkept; [reflexivity|]. apply elem_of_dom. exists scenario.tiny_engine. reflexivity.
Defined.

Lemma Load_installs_and_closes_old_witness :
  speech.Create scenario.engines_ok 4096 scenario.disk_with_tiny
    scenario.loaded_factory "whisper-tiny-q5" = inr scenario.tiny_engine /\
  (speech.Load scenario.engines_ok 4096 scenario.disk_with_tiny
     scenario.loaded_factory "whisper-tiny-q5" scenario.loaded_heap).2 = None /\
  hotswap.live
    (speech.Load scenario.engines_ok 4096 scenario.disk_with_tiny
       scenario.loaded_factory "whisper-tiny-q5" scenario.loaded_heap).1.2 0%nat = false.
Proof.
  assert (Hc : speech.Create scenario.engines_ok 4096 scenario.disk_with_tiny
                 scenario.loaded_factory "whisper-tiny-q5" = inr scenario.tiny_engine)
    by (vm_compute; reflexivity).
  assert (Hwf : forall old, speech.current scenario.loaded_factory = Some old ->
                            old ∈ dom scenario.loaded_heap).
  { intros old [= <-]. apply elem_of_dom. exists scenario.tiny_engine. reflexivity. }
  destruct (Load_installs_and_closes_old scenario.engines_ok 4096 scenario.disk_with_tiny
              scenario.loaded_factory "whisper-tiny-q5" scenario.loaded_heap
              scenario.tiny_engine Hc Hwf)
    as (_ & Hok & _ & Hclosed & _).
  split; [exact Hc|]. split; [exact Hok|]. apply Hclosed. reflexivity.
Defined.

(** ** No recognizer is left behind *)

Section NoLeak.
Import models speech hotswap.

Lemma live_alloc_inv (hp : heap) (o : object) (h : handle) :
  live (<[fresh (dom hp) := o]> hp) h = true -> h = fresh (dom hp) \/ live hp h = true.
Proof.
  destruct (decide (h = fresh (dom hp))) as [->|Hne]; [auto|].
  rewrite live_alloc by exact Hne. auto.
Qed.

Lemma live_close_inv (hp : heap) (old h : handle) :
  live (Close_recognizer old hp) h = true -> h <> old /\ live hp h = true.
Proof.
  destruct (decide (h = old)) as [->|Hne].
  - unfold live, Close_recognizer. destruct (hp !! old) eqn:Hold.
    + rewrite lookup_insert_eq. discriminate.
    + rewrite Hold. discriminate.
  - rewrite live_close_other by exact Hne. auto.
Qed.

(** A task that owns nothing can be replaced by any task. *)
Lemma accounted_replace_idle (s : state) (i : nat) (t t' : task) (b : gset handle) :
  accounted s -> tasks s !! i = Some t -> owned t = None ->
  accounted {| fac := fac s; hp := hp s; busy := b; tasks := <[i := t']> (tasks s) |}.
Proof.
  intros Hacc Ht Hown h Hlive. cbn [fac hp tasks] in *.
  destruct (Hacc h Hlive) as [Hcur|(j & tj & Hj & Hoj)]; [auto|].
  right. exists j, tj. split; [|exact Hoj].
  rewrite lookup_insert_ne; [exact Hj|]. intros Heq. rewrite Heq in Ht. congruence.
Qed.

Section StepAccounted.
Context (dsz : Z).

Lemma create_step_accounted s k id t have :
  accounted s -> tasks s !! who k = Some t -> owned t = None ->
  (forall h, owned (have h id) = Some h) ->
  accounted (create_step dsz s k id have).
Proof.
  intros Hacc Ht Hot Ho. unfold create_step.
  destruct (Create _ _ _ _ _) as [err|o].
  { eapply accounted_replace_idle; eauto. }
  unfold alloc. intros h Hlive. cbn [fac hp tasks] in *.
  apply live_alloc_inv in Hlive as [->|Hlive].
  - right. exists (who k), (have (fresh (dom (hp s))) id).
    split; [apply lookup_insert_eq | apply Ho].
  - destruct (Hacc h Hlive) as [Hcur|(j & tj & Hj & Hoj)]; [auto|].
    right. exists j, tj. split; [|exact Hoj].
    rewrite lookup_insert_ne; [exact Hj|]. intros Heq. rewrite Heq in Ht. congruence.
Qed.

Lemma publish_step_accounted s k rec id t retire :
  accounted s -> tasks s !! who k = Some t -> owned t = Some rec ->
  (forall old, owned (retire old) = old) ->
  accounted (publish_step s k rec id retire).
Proof.
  intros Hacc Ht Hot Ho. unfold publish_step, publish.
  intros h Hlive. cbn [fac hp tasks current] in *.
  destruct (Hacc h Hlive) as [Hcur|(j & tj & Hj & Hoj)].
  - right. exists (who k), (retire (current (fac s))).
    split; [apply lookup_insert_eq | rewrite Ho; exact Hcur].
  - destruct (decide (j = who k)) as [->|Hne].
    + left. congruence.
    + right. exists j, tj. split; [|exact Hoj]. rewrite lookup_insert_ne; auto.
Qed.

Lemma close_step_accounted s k old t s' :
  accounted s -> tasks s !! who k = Some t -> owned t = Some old ->
  close_step s k old = Some s' -> accounted s'.
Proof.
  intros Hacc Ht Hot. unfold close_step. destruct (decide _); [discriminate|].
  intros [= <-] h Hlive. cbn [fac hp tasks] in *.
  apply live_close_inv in Hlive as [Hne Hlive].
  destruct (Hacc h Hlive) as [Hcur|(j & tj & Hj & Hoj)]; [auto|].
  right. exists j, tj. split; [|exact Hoj].
  rewrite lookup_insert_ne; [exact Hj|]. intros Heq. rewrite Heq in Ht. congruence.
Qed.

Lemma retire_step_accounted s i h0 :
  accounted s -> tasks s !! i = Some (Swap_retire (Some h0)) ->
  accounted {| fac := fac s; hp := hp s; busy := busy s;
               tasks := spawn (Bg_close h0) (<[i := Finished None]> (tasks s)) |}.
Proof.
  intros Hacc Ht h Hlive. cbn [fac hp tasks] in *. unfold spawn.
  set (ts := <[i := Finished None]> (tasks s)).
  destruct (Hacc h Hlive) as [Hcur|(j & tj & Hj & Hoj)]; [auto|]. right.
  destruct (decide (j = i)) as [->|Hne].
  - exists (fresh (dom ts)), (Bg_close h0). split; [apply lookup_insert_eq|].
    rewrite Ht in Hj. injection Hj as <-. exact Hoj.
  - exists j, tj. split; [|exact Hoj].
    assert (Hin : ts !! j = Some tj) by (subst ts; rewrite lookup_insert_ne; auto).
    rewrite lookup_insert_ne; [exact Hin|].
    intros Heq. apply elem_of_dom_2 in Hin. rewrite <- Heq in Hin.
    by apply is_fresh in Hin.
Qed.

Lemma factory_close_accounted s i h0 :
  accounted s -> tasks s !! i = Some Factory_close -> current (fac s) = Some h0 ->
  accounted {| fac := (Close (fac s) (hp s)).1; hp := (Close (fac s) (hp s)).2;
               busy := busy s; tasks := <[i := Finished None]> (tasks s) |}.
Proof.
  intros Hacc Ht Hcur h. unfold Close. rewrite Hcur. cbn [fst snd fac hp tasks current].
  intros [Hne Hlive]%live_close_inv.
  destruct (Hacc h Hlive) as [Hc|(j & tj & Hj & Hoj)]; [congruence|].
  right. exists j, tj. split; [|exact Hoj].
  rewrite lookup_insert_ne; [exact Hj|]. intros Heq. rewrite Heq in Ht. rewrite Ht in Hj.
  by injection Hj as <-.
Qed.

Lemma step_accounted s k s' : accounted s -> step dsz s k = Some s' -> accounted s'.
Proof.
  intros Hacc. unfold step.
  destruct (tasks s !! who k) as [t|] eqn:Ht; [|discriminate].
  destruct t as [id|rec id|old|id|rec id|old|old| | |rec|rec|rec|err].
  - intros [= <-]. eapply create_step_accounted; eauto.
  - intros [= <-]. eapply publish_step_accounted; eauto. by intros [].
  - intros [= <-]. destruct old as [h|]; cbn [from_option].
    + by apply retire_step_accounted.
    + eapply accounted_replace_idle; eauto.
  - intros [= <-]. eapply create_step_accounted; eauto.
  - intros [= <-]. eapply publish_step_accounted; eauto. by intros [].
  - destruct old as [h|].
    + intros Hstep. eapply close_step_accounted; eauto.
    + intros [= <-]. eapply accounted_replace_idle; eauto.
  - intros Hstep. eapply close_step_accounted; eauto.
  - destruct (current (fac s)) as [h|] eqn:Hcur.
    + destruct (decide _); [discriminate|].
      destruct (Close (fac s) (hp s)) as [f' hp'] eqn:Hclose. intros [= <-].
      pose proof (factory_close_accounted s (who k) h Hacc Ht Hcur) as H.
      rewrite Hclose in H. exact H.
    + intros [= <-]. eapply accounted_replace_idle; eauto.
  - intros [= <-]. eapply accounted_replace_idle; eauto.
  - destruct rec as [rec|].
    + destruct (decide _); [discriminate|].
      destruct (live (hp s) rec); intros [= <-]; eapply accounted_replace_idle; eauto.
    + intros [= <-]. eapply accounted_replace_idle; eauto.
  - intros [= <-]. eapply accounted_replace_idle; eauto.
  - discriminate.
  - discriminate.
Qed.

Lemma run_accounted s sched : accounted s -> accounted (run dsz s sched).
Proof.
  revert s. induction sched as [|k sched IH]; intros s Hacc; cbn [run]; [done|].
  apply IH. destruct (step dsz s k) as [s'|] eqn:Hstep; cbn; [|done].
  eapply step_accounted; eauto.
Qed.

End StepAccounted.

Lemma init_accounted m calls : accounted (init m calls).
Proof. intros h Hlive. cbn in Hlive. unfold live in Hlive. rewrite lookup_empty in Hlive. done. Qed.

(** X18. Under any interleaving of swaps, loads, closes and transcriptions,
    once every task has finished the only recognizer still open is the
    current one of the factory: whatever a swap or a load replaced has
    been closed. *)
Theorem finished_run_leaks_no_recognizer
    (dsz : Z) (m : Manager) (calls : list call) (sched : list tick) :
  let s := run dsz (init m calls) sched in
  all_finished s = true ->
  forall h, live (hp s) h = true -> Current (fac s) = Some h.
Proof.
  intros s Hdone h Hlive.
  assert (Hacc : accounted s) by apply run_accounted, init_accounted.
  destruct (Hacc h Hlive) as [Hcur|(j & tj & Hj & Hoj)]; [exact Hcur|].
  unfold all_finished in Hdone. rewrite forallb_forall in Hdone.
  specialize (Hdone (j, tj)). cbn in Hdone.
  rewrite <- list_elem_of_In, elem_of_map_to_list in Hdone.
  specialize (Hdone Hj). destruct tj; discriminate.
Qed.

End NoLeak.

Lemma finished_run_leaks_no_recognizer_witness :
  let s := hotswap.run 4096 (hotswap.init scenario.the_manager scenario.hot_calls)
             scenario.swap_drained in
  hotswap.all_finished s = true /\
  forall h, hotswap.live (hotswap.hp s) h = true -> h = 1%nat.
Proof.
  intros s.
  assert (Hdone : hotswap.all_finished s = true) by (vm_compute; reflexivity).
  split; [exact Hdone|]. intros h Hlive.
  pose proof (finished_run_leaks_no_recognizer 4096 scenario.the_manager scenario.hot_calls
                scenario.swap_drained Hdone h Hlive) as Hcur.
  vm_compute in Hcur. congruence.
Defined.

(** ** More on the model store *)

Section StoreMore.
Import models.

Context (e : env) (m : Manager) (info : ModelInfo) (progress : bool).

Lemma bytes_in_concat (cs : list (list Byte.byte)) :
  bytes_in cs = Z.of_nat (length (concat cs)).
Proof.
  induction cs as [|c cs IH]; [reflexivity|].
  cbn [bytes_in foldr concat]. fold (bytes_in cs). rewrite IH, length_app. lia.
Qed.

(** X19. A successful [Download] of a model that is a single file, and was
    not downloaded, leaves at the model's path a file holding exactly the
    bytes of the response body, in order, and no temporary file; the
    model then counts as downloaded exactly when that body is not
    empty. *)
Theorem Download_file_success_installs_body (w : world) :
  IsZip info = false ->
  IsDownloaded (dir_size e) m (w_fs w) info = false ->
  (Download e m info progress w).2 = None ->
  exists resp,
    http_Do e = Some resp /\
    w_fs (Download e m info progress w).1 !! GetModelPath m info
      = Some (File (concat (chunks (Body resp)) ++ last_chunk (Body resp))) /\
    w_fs (Download e m info progress w).1
      !! path_add_suffix (GetModelPath m info) ".tmp" = None /\
    IsDownloaded (dir_size e) m (w_fs (Download e m info progress w).1) info
      = (0 <? body_len (Body resp)).
Proof.
  intros Hzip Hd. unfold Download. rewrite Hd, Hzip. intros Hok.
  destruct (downloadFile_success_installs_body e m info progress w Hok)
    as (resp & Hdo & Hdest & Htmp).
  exists resp. split; [exact Hdo|]. split; [exact Hdest|]. split; [exact Htmp|].
  unfold IsDownloaded, os_Stat. rewrite Hdest, Hzip. cbn [fi_Size].
  unfold body_len. rewrite bytes_in_concat, length_app. f_equal. lia.
Qed.

Lemma consume_updates tmp total i c d w :
  exists ups,
    w_sent (consume e info progress tmp total i c d w).1.1 = w_sent w ++ ups /\
    (length ups <= 1)%nat /\
    Forall (streamed info total) ups.
Proof.
  unfold consume.
  destruct (0 <? Z.of_nat (length c)); [|exists []; cbn; rewrite app_nil_r; auto].
  destruct (write_ok e i); [|exists []; cbn; rewrite app_nil_r; auto].
  unfold try_send. destruct (progress && sink_ready e i); cbn.
  - eexists [_]. split; [reflexivity|]. split; [cbn; lia|].
    constructor; [|constructor]. repeat split.
  - exists []. rewrite app_nil_r. auto.
Qed.

Lemma transfer_updates b tmp total cs i d w :
  exists ups,
    w_sent (transfer e info progress b tmp total cs i d w).1 = w_sent w ++ ups /\
    Forall (streamed info total) ups.
Proof.
  revert i d w. induction cs as [|c cs IH]; intros i d w; cbn [transfer].
  - destruct (ctx_done e i); [exists []; cbn; rewrite app_nil_r; auto|].
    destruct (consume_updates tmp total i (last_chunk b) d w) as (ups & Hs & _ & Hf).
    destruct (consume _ _ _ _ _ _ _ _ _) as [[w' d'] r]. cbn [fst snd] in *.
    exists ups. split; [|exact Hf]. destruct r; [exact Hs | destruct (ending b); exact Hs].
  - destruct (ctx_done e i); [exists []; cbn; rewrite app_nil_r; auto|].
    destruct (consume_updates tmp total i c d w) as (ups & Hs & _ & Hf).
    destruct (consume _ _ _ _ _ _ _ _ _) as [[w' d'] r]. cbn [fst snd] in *.
    destruct r; [exists ups; auto|].
    destruct (IH (S i) d' w') as (ups' & Hs' & Hf').
    exists (ups ++ ups'). rewrite Hs', Hs, app_assoc. split; [reflexivity|].
    apply Forall_app. auto.
Qed.

(** Once the context is seen cancelled the loop stops: it returns an
    error, having delivered at most one update per earlier iteration. *)
Lemma transfer_cancelled b tmp total cs i d w (n : nat) :
  (n <= length cs)%nat ->
  ctx_done e (i + n)%nat = true ->
  (transfer e info progress b tmp total cs i d w).2 <> None /\
  exists ups,
    w_sent (transfer e info progress b tmp total cs i d w).1 = w_sent w ++ ups /\
    (length ups <= n)%nat.
Proof.
  revert cs i d w. induction n as [|n IH]; intros cs i d w Hn Hdone.
  - replace (i + 0)%nat with i in Hdone by lia.
    destruct cs; cbn [transfer]; rewrite Hdone; cbn;
      (split; [discriminate|]); exists []; rewrite app_nil_r; auto.
  - destruct cs as [|c cs]; [cbn in Hn; lia|]. cbn [transfer].
    destruct (ctx_done e i).
    { cbn. split; [discriminate|]. exists []. rewrite app_nil_r. split; [reflexivity | cbn; lia]. }
    destruct (consume_updates tmp total i c d w) as (ups & Hs & Hl & _).
    destruct (consume _ _ _ _ _ _ _ _ _) as [[w' d'] r]. cbn [fst snd] in *.
    destruct r as [err|].
    + cbn. split; [discriminate|]. exists ups. split; [exact Hs | lia].
    + replace (i + S n)%nat with (S i + n)%nat in Hdone by lia.
      destruct (IH cs (S i) d' w' ltac:(cbn in Hn; lia) Hdone) as (Herr & ups' & Hs' & Hl').
      split; [exact Herr|]. exists (ups ++ ups'). rewrite Hs', Hs, app_assoc.
      split; [reflexivity|]. rewrite length_app. lia.
Qed.

Lemma updates_app (w : world) (sent : list Progress) (w' : world) :
  w_sent w' = w_sent w ++ sent -> updates w w' = sent.
Proof. intros H. unfold updates. rewrite H. apply drop_app_length. Qed.

(** What [Download] delivers, by outcome: an error is never preceded by
    the completion update; success ends with it. *)
Lemma Download_updates (w : world) :
  exists sent,
    w_sent (Download e m info progress w).1 = w_sent w ++ sent /\
    match (Download e m info progress w).2 with
    | Some _ => exists total, Forall (streamed info total) sent
    | None =>
      exists total before,
        Forall (streamed info total) before /\
        sent = before ++ (if progress
                          then [{| ModelID := ID info; Downloaded := total; Total := total;
                                   Done := true |}]
                          else [])
    end.
Proof.
  assert (Hnil : forall x : world * option error,
            x.1 = w -> x.2 <> None ->
            exists sent, w_sent x.1 = w_sent w ++ sent /\
              match x.2 with
              | Some _ => exists total, Forall (streamed info total) sent
              | None => exists total before, Forall (streamed info total) before /\
                  sent = before ++ (if progress
                          then [{| ModelID := ID info; Downloaded := total; Total := total;
                                   Done := true |}] else [])
              end).
  { intros [w0 [err|]] Hw Herr; cbn in *; [|done]. subst w0.
    exists []. rewrite app_nil_r. split; [reflexivity|]. exists 0. constructor. }
  unfold Download. destruct (IsDownloaded _ _ _ _).
  { cbn [fst snd]. rewrite send_sent. eexists. split; [reflexivity|].
    exists (Size info), []. split; [constructor | reflexivity]. }
  destruct (IsZip info).
  - unfold downloadAndUnzip.
    destruct (os_CreateTemp e (w_fs w)) as [[tmpPath fs0]|]; [|apply Hnil; [reflexivity|discriminate]].
    destruct (downloadAndUnzip_body _ _ _ _ _ _) as [w' r] eqn:Hbody. cbn [fst snd set_fs w_sent].
    revert Hbody. unfold downloadAndUnzip_body.
    assert (Hstop : forall (w0 : world) (err : error),
              w_sent w0 = w_sent w ->
              (w0, Some err) = (w', r) ->
              exists sent, w_sent w' = w_sent w ++ sent /\
                match r with
                | Some _ => exists total, Forall (streamed info total) sent
                | None => exists total before, Forall (streamed info total) before /\
                    sent = before ++ (if progress
                          then [{| ModelID := ID info; Downloaded := total; Total := total;
                                   Done := true |}] else [])
                end).
    { intros w0 err Hw0 [= <- <-]. exists []. rewrite app_nil_r. split; [exact Hw0|].
      exists 0. constructor. }
    destruct (new_request_ok e); cbn [negb]; [|apply Hstop; reflexivity].
    destruct (http_Do e) as [resp|]; [|apply Hstop; reflexivity].
    destruct (StatusCode resp =? 200); cbn [negb]; [|apply Hstop; reflexivity].
    destruct (transfer_updates (Body resp) tmpPath (total_of info resp) (chunks (Body resp))
                0 0 (request (set_fs w fs0) (URL info))) as (ups & Hs & Hf).
    destruct (transfer _ _ _ _ _ _ _ _ _ _) as [w2 r2]. cbn [fst] in Hs.
    cbn [set_fs request w_sent] in Hs.
    destruct r2 as [err|]; [intros [= <- <-]; exists ups; eauto|].
    destruct (unzip _ _ _ _) as [fs3 []]; [|intros [= <- <-]; exists ups; eauto].
    intros [= <- <-]. rewrite send_sent. cbn [set_fs w_sent]. rewrite Hs, <- app_assoc.
    eexists. split; [reflexivity|]. exists (total_of info resp), ups. auto.
  - unfold downloadFile.
    destruct (downloadFile_body _ _ _ _ _ _) as [w' r] eqn:Hbody. cbn [fst snd set_fs w_sent].
    revert Hbody. unfold downloadFile_body.
    assert (Hstop : forall (w0 : world) (err : error),
              w_sent w0 = w_sent w ->
              (w0, Some err) = (w', r) ->
              exists sent, w_sent w' = w_sent w ++ sent /\
                match r with
                | Some _ => exists total, Forall (streamed info total) sent
                | None => exists total before, Forall (streamed info total) before /\
                    sent = before ++ (if progress
                          then [{| ModelID := ID info; Downloaded := total; Total := total;
                                   Done := true |}] else [])
                end).
    { intros w0 err Hw0 [= <- <-]. exists []. rewrite app_nil_r. split; [exact Hw0|].
      exists 0. constructor. }
    destruct (new_request_ok e); cbn [negb]; [|apply Hstop; reflexivity].
    destruct (http_Do e) as [resp|]; [|apply Hstop; reflexivity].
    destruct (StatusCode resp =? 200); cbn [negb]; [|apply Hstop; reflexivity].
    cbn [request w_fs].
    destruct (os_Create _ _) as [fs1|]; [|apply Hstop; reflexivity].
    destruct (transfer_updates (Body resp) (path_add_suffix (GetModelPath m info) ".tmp")
                (total_of info resp) (chunks (Body resp))
                0 0 (set_fs (request w (URL info)) fs1)) as (ups & Hs & Hf).
    destruct (transfer _ _ _ _ _ _ _ _ _ _) as [w2 r2]. cbn [fst] in Hs.
    cbn [set_fs request w_sent] in Hs.
    destruct r2 as [err|]; [intros [= <- <-]; exists ups; eauto|].
    destruct (os_Rename _ _ _) as [fs3|]; [|intros [= <- <-]; exists ups; eauto].
    intros [= <- <-]. rewrite send_sent. cbn [set_fs w_sent]. rewrite Hs, <- app_assoc.
    eexists. split; [reflexivity|]. exists (total_of info resp), ups. auto.
Qed.

(** X20. Every update [Download] sends names the model being downloaded. A
    call that fails sends no completion update; a call that succeeds with
    a progress channel sends exactly one, as its last update, with the
    downloaded count equal to the total. *)
Theorem completion_update_marks_success (w : world) :
  let sent := updates w (Download e m info progress w).1 in
  Forall (fun p => ModelID p = ID info) sent /\
  ((Download e m info progress w).2 <> None -> Forall (fun p => Done p = false) sent) /\
  ((Download e m info progress w).2 = None -> progress = true ->
   exists before last,
     sent = before ++ [last] /\
     Forall (fun p => Done p = false) before /\
     Done last = true /\ Downloaded last = Total last).
Proof.
  intros sent. destruct (Download_updates w) as (sent' & Hs & Hshape).
  subst sent. rewrite (updates_app _ _ _ Hs).
  destruct ((Download e m info progress w).2) as [err|].
  - destruct Hshape as (total & Hf).
    split; [eapply Forall_impl; [exact Hf|]; intros p Hp; apply Hp|].
    split; [intros _; eapply Forall_impl; [exact Hf|]; intros p Hp; apply Hp | discriminate].
  - destruct Hshape as (total & before & Hf & ->).
    split.
    + apply Forall_app. split; [eapply Forall_impl; [exact Hf|]; intros p Hp; apply Hp|].
      destruct progress; repeat constructor.
    + split; [congruence|]. intros _ ->. eexists before, _. split; [reflexivity|].
      split; [eapply Forall_impl; [exact Hf|]; intros p Hp; apply Hp | auto].
Qed.

(** X21. Once the context is cancelled while the body is still being read,
    [Download] returns an error, has sent at most one update per chunk
    read before that, and a model that is a single file is still not
    downloaded. *)
Theorem cancelled_Download_never_succeeds (w : world) (n : nat) :
  IsDownloaded (dir_size e) m (w_fs w) info = false ->
  ctx_done e n = true ->
  (forall resp, http_Do e = Some resp -> (n <= length (chunks (Body resp)))%nat) ->
  (Download e m info progress w).2 <> None /\
  (length (updates w (Download e m info progress w).1) <= n)%nat /\
  (IsZip info = false ->
   IsDownloaded (dir_size e) m (w_fs (Download e m info progress w).1) info = false).
Proof.
  intros Hd Hdone Hlen.
  assert (Hmain : (Download e m info progress w).2 <> None /\
                  exists sent, w_sent (Download e m info progress w).1 = w_sent w ++ sent /\
                               (length sent <= n)%nat).
  { assert (Hnil : exists sent : list Progress, w_sent w = w_sent w ++ sent /\ (length sent <= n)%nat)
      by (exists []; rewrite app_nil_r; split; [reflexivity | cbn; lia]).
    unfold Download. rewrite Hd. destruct (IsZip info).
    - unfold downloadAndUnzip.
      destruct (os_CreateTemp e (w_fs w)) as [[tmpPath fs0]|]; [|split; [discriminate | exact Hnil]].
      destruct (downloadAndUnzip_body _ _ _ _ _ _) as [w' r] eqn:Hbody.
      cbn [fst snd set_fs w_sent]. revert Hbody. unfold downloadAndUnzip_body.
      destruct (new_request_ok e); cbn [negb];
        [|intros [= <- <-]; split; [discriminate | exact Hnil]].
      pose proof Hlen as Hlen'.
      destruct (http_Do e) as [resp|]; [|intros [= <- <-]; split; [discriminate | exact Hnil]].
      destruct (StatusCode resp =? 200); cbn [negb];
        [|intros [= <- <-]; split; [discriminate | exact Hnil]].
      destruct (transfer_cancelled (Body resp) tmpPath (total_of info resp)
                  (chunks (Body resp)) 0 0 (request (set_fs w fs0) (URL info)) n
                  (Hlen' resp eq_refl) Hdone) as (Herr & sent & Hs & Hl).
      destruct (transfer _ _ _ _ _ _ _ _ _ _) as [w2 [err|]]; [|done].
      intros [= <- <-]. split; [discriminate|]. exists sent. auto.
    - unfold downloadFile.
      destruct (downloadFile_body _ _ _ _ _ _) as [w' r] eqn:Hbody.
      cbn [fst snd set_fs w_sent]. revert Hbody. unfold downloadFile_body.
      destruct (new_request_ok e); cbn [negb];
        [|intros [= <- <-]; split; [discriminate | exact Hnil]].
      pose proof Hlen as Hlen'.
      destruct (http_Do e) as [resp|]; [|intros [= <- <-]; split; [discriminate | exact Hnil]].
      destruct (StatusCode resp =? 200); cbn [negb];
        [|intros [= <- <-]; split; [discriminate | exact Hnil]].
      cbn [request w_fs].
      destruct (os_Create _ _) as [fs1|]; [|intros [= <- <-]; split; [discriminate | exact Hnil]].
      destruct (transfer_cancelled (Body resp) (path_add_suffix (GetModelPath m info) ".tmp")
                  (total_of info resp) (chunks (Body resp)) 0 0
                  (set_fs (request w (URL info)) fs1) n
                  (Hlen' resp eq_refl) Hdone) as (Herr & sent & Hs & Hl).
      destruct (transfer _ _ _ _ _ _ _ _ _ _) as [w2 [err|]]; [|done].
      intros [= <- <-]. split; [discriminate|]. exists sent. auto. }
  destruct Hmain as (Herr & sent & Hs & Hl).
  split; [exact Herr|]. split; [rewrite (updates_app _ _ _ Hs); exact Hl|].
  intros Hzip. destruct ((Download e m info progress w).2) as [err|] eqn:Hres; [|done].
  apply (Download_file_failure_is_invisible e m info progress w err Hzip Hres).
Qed.

(** X22. When the request cannot be built or sent, or is answered with
    another status than 200, [Download] fails with that error (or, for an
    archive, because no temporary file could be made), sends no update,
    and leaves the model's path as it was: the model is still not
    downloaded. *)
Theorem refused_request_leaves_disk_alone (w : world) (err : error) :
  IsDownloaded (dir_size e) m (w_fs w) info = false ->
  refusal e = Some err ->
  ((Download e m info progress w).2 = Some err \/
   IsZip info = true /\ (Download e m info progress w).2 = Some ErrCreateTemp) /\
  updates w (Download e m info progress w).1 = [] /\
  w_fs (Download e m info progress w).1 !! GetModelPath m info
    = w_fs w !! GetModelPath m info /\
  IsDownloaded (dir_size e) m (w_fs (Download e m info progress w).1) info = false.
Proof.
  intros Hd Href.
  assert (Hmain :
    ((Download e m info progress w).2 = Some err \/
     IsZip info = true /\ (Download e m info progress w).2 = Some ErrCreateTemp) /\
    w_sent (Download e m info progress w).1 = w_sent w /\
    w_fs (Download e m info progress w).1 !! GetModelPath m info
      = w_fs w !! GetModelPath m info).
  { unfold Download. rewrite Hd. unfold refusal in Href. destruct (IsZip info).
    - unfold downloadAndUnzip, os_CreateTemp.
      destruct (temp_zip e) as [p|]; [|cbn; auto 6].
      destruct (decide (w_fs w !! p = None)) as [Hnone|]; [|cbn; auto 6].
      unfold downloadAndUnzip_body.
      assert (Hback : forall q, os_Remove (<[p := File []]> (w_fs w)) p !! q = w_fs w !! q).
      { intros q. unfold os_Remove. rewrite lookup_insert_eq, delete_insert_id; done. }
      destruct (new_request_ok e); cbn [negb] in *.
      + destruct (http_Do e) as [resp|]; [|injection Href as <-; cbn; rewrite Hback; auto].
        destruct (StatusCode resp =? 200); cbn [negb] in *; [discriminate|].
        injection Href as <-. cbn. rewrite Hback. auto.
      + injection Href as <-. cbn. rewrite Hback. auto.
    - pose proof (tmp_is_not_dest m info) as Hne.
      unfold downloadFile, downloadFile_body.
      destruct (new_request_ok e); cbn [negb] in *.
      + destruct (http_Do e) as [resp|];
          [|injection Href as <-; cbn; rewrite os_Remove_other by congruence; auto].
        destruct (StatusCode resp =? 200); cbn [negb] in *; [discriminate|].
        injection Href as <-. cbn. rewrite os_Remove_other by congruence. auto.
      + injection Href as <-. cbn. rewrite os_Remove_other by congruence. auto. }
  destruct Hmain as (Hres & Hs & Hfs).
  split; [exact Hres|]. split; [unfold updates; rewrite Hs; apply drop_all|].
  split; [exact Hfs|]. rewrite (IsDownloaded_ext m info _ _ _ Hfs). exact Hd.
Qed.

End StoreMore.

Lemma Download_file_success_installs_body_witness :
  let e := scenario.serve 3 scenario.three_bytes None in
  let w := scenario.fresh_world scenario.bare_disk in
  (models.Download e scenario.the_manager scenario.tiny true w).2 = None /\
  models.w_fs (models.Download e scenario.the_manager scenario.tiny true w).1
    !! models.GetModelPath scenario.the_manager scenario.tiny
  = Some (File [Byte.x50; Byte.x4b; Byte.x03]).
Proof.
  intros e w.
  assert (Hd : models.IsDownloaded (models.dir_size e) scenario.the_manager (models.w_fs w)
                 scenario.tiny = false) by (vm_compute; reflexivity).
  assert (Hok : (models.Download e scenario.the_manager scenario.tiny true w).2 = None)
    by (vm_compute; reflexivity).
  destruct (Download_file_success_installs_body e scenario.the_manager scenario.tiny true w
              eq_refl Hd Hok) as (resp & Hdo & Hdest & _).
  split; [exact Hok|]. rewrite Hdest. injection Hdo as <-. reflexivity.
Defined.

Lemma cancelled_Download_never_succeeds_witness :
  let e := scenario.cancelled_from 1 scenario.three_bytes in
  let w := scenario.fresh_world scenario.bare_disk in
  models.ctx_done e 1 = true /\
  (models.Download e scenario.the_manager scenario.tiny true w).2 <> None /\
  models.IsDownloaded (models.dir_size e) scenario.the_manager
    (models.w_fs (models.Download e scenario.the_manager scenario.tiny true w).1)
    scenario.tiny = false.
Proof.
  intros e w.
  assert (Hd : models.IsDownloaded (models.dir_size e) scenario.the_manager (models.w_fs w)
                 scenario.tiny = false) by (vm_compute; reflexivity).
  assert (Hdone : models.ctx_done e 1 = true) by reflexivity.
  assert (Hlen : forall resp, models.http_Do e = Some resp ->
                              (1 <= length (models.chunks (models.Body resp)))%nat).
  { intros resp [= <-]. cbn. lia. }
  destruct (cancelled_Download_never_succeeds e scenario.the_manager scenario.tiny true w 1
              Hd Hdone Hlen) as (Herr & _ & Hnot).
  exact (conj Hdone (conj Herr (Hnot eq_refl))).
Defined.

Lemma refused_request_leaves_disk_alone_witness :
  let e := scenario.answering 404 in
  let w := scenario.fresh_world scenario.bare_disk in
  models.refusal e = Some (models.ErrHTTPStatus 404) /\
  (models.Download e scenario.the_manager scenario.tiny true w).2
  = Some (models.ErrHTTPStatus 404) /\
  models.updates w (models.Download e scenario.the_manager scenario.tiny true w).1 = [].
Proof.
  intros e w.
  assert (Hd : models.IsDownloaded (models.dir_size e) scenario.the_manager (models.w_fs w)
                 scenario.tiny = false) by (vm_compute; reflexivity).
  assert (Href : models.refusal e = Some (models.ErrHTTPStatus 404)) by reflexivity.
  destruct (refused_request_leaves_disk_alone e scenario.the_manager scenario.tiny true w
              (models.ErrHTTPStatus 404) Hd Href) as (Hres & Hnone & _).
  split; [exact Href|]. split; [|exact Hnone].
  destruct Hres as [Hres|[Hzip _]]; [exact Hres | discriminate Hzip].
Defined.

(** ** Archives *)

Section ArchiveFacts.
Import models.

Lemma prefixes_from_elem (done rest k : path) :
  k <> [] -> k `prefix_of` rest -> done ++ k ∈ prefixes_from done rest.
Proof.
  revert done k. induction rest as [|c rest IH]; intros done k Hk Hpre.
  - apply prefix_nil_inv in Hpre. contradiction.
  - destruct k as [|c' k]; [contradiction|].
    apply prefix_cons_inv_1 in Hpre as Hc. subst c'.
    apply prefix_cons_inv_2 in Hpre.
    cbn [prefixes_from]. destruct k as [|c2 k].
    + left.
    + right. replace (done ++ c :: c2 :: k) with ((done ++ [c]) ++ c2 :: k)
        by (rewrite <- app_assoc; reflexivity).
      apply IH; [discriminate | exact Hpre].
Qed.

Lemma foldl_mkdir (l : list path) (fs : filesystem) (q : path) :
  foldl (fun acc p => <[p := Dir]> acc) fs l !! q
  = if decide (q ∈ l) then Some Dir else fs !! q.
Proof.
  revert fs. induction l as [|p l IH]; intros fs; cbn [foldl].
  - rewrite decide_False by apply not_elem_of_nil. reflexivity.
  - rewrite IH. destruct (decide (q ∈ l)) as [Hin|Hnin].
    + rewrite decide_True by (right; exact Hin). reflexivity.
    + destruct (decide (q = p)) as [->|Hne].
      * rewrite decide_True by left. apply lookup_insert_eq.
      * rewrite decide_False by (intros [->|?]%elem_of_cons; contradiction).
        by rewrite lookup_insert_ne.
Qed.

Lemma os_MkdirAll_spec (fs fs' : filesystem) (p : path) :
  os_MkdirAll fs p = Some fs' ->
  (forall q, q ∈ prefixes p -> fs' !! q = Some Dir) /\
  (forall q, fs !! q = Some Dir -> fs' !! q = Some Dir).
Proof.
  unfold os_MkdirAll. destruct (existsb _ _); [discriminate|]. intros [= <-].
  split; intros q Hq; rewrite foldl_mkdir.
  - rewrite decide_True by exact Hq. reflexivity.
  - destruct (decide _); [reflexivity | exact Hq].
Qed.

Lemma os_Create_keeps_dirs (fs fs' : filesystem) (p q : path) :
  os_Create fs p = Some fs' -> fs !! q = Some Dir -> fs' !! q = Some Dir.
Proof.
  unfold os_Create. destruct p as [|c p]; [discriminate|].
  destruct (is_dir fs (filepath_Dir (c :: p))); [|discriminate]. cbn [andb].
  destruct (is_dir fs (c :: p)) eqn:Hd; [discriminate|]. intros [= <-] Hq.
  rewrite lookup_insert_ne; [exact Hq|]. intros <-. cbn in Hd. rewrite Hq in Hd. discriminate.
Qed.

Lemma file_Write_keeps_dirs (fs : filesystem) (p q : path) (bs : list Byte.byte) :
  fs !! q = Some Dir -> file_Write fs p bs !! q = Some Dir.
Proof.
  intros Hq. unfold file_Write. destruct (fs !! p) as [[c|]|] eqn:Hp; try exact Hq.
  rewrite lookup_insert_ne; [exact Hq|]. intros <-. congruence.
Qed.

(** Extraction never removes a directory nor puts a file in its place. *)
Lemma unzip_entries_keeps_dirs (destDir : path) (entries : list zip_entry)
    (fs : filesystem) (q : path) :
  fs !! q = Some Dir -> (unzip_entries destDir entries fs).1 !! q = Some Dir.
Proof.
  revert fs. induction entries as [|f entries IH]; intros fs Hq; cbn [unzip_entries]; [exact Hq|].
  destruct (ze_IsDir f).
  - apply IH. destruct (os_MkdirAll fs _) as [fs'|] eqn:Hmk; cbn; [|exact Hq].
    destruct (os_MkdirAll_spec _ _ _ Hmk) as [_ Hkept]. apply Hkept. exact Hq.
  - destruct (os_MkdirAll fs _) as [fs1|] eqn:Hmk; [|exact Hq].
    assert (Hq1 : fs1 !! q = Some Dir) by (destruct (os_MkdirAll_spec _ _ _ Hmk) as [_ Hkept]; apply Hkept; exact Hq).
    destruct (os_Create fs1 _) as [fs2|] eqn:Hcr; [|exact Hq1].
    assert (Hq2 : fs2 !! q = Some Dir) by (eapply os_Create_keeps_dirs; eauto).
    destruct (ze_read f); cbn [fst]; [|exact Hq2|].
    + apply IH. by apply file_Write_keeps_dirs.
    + by apply file_Write_keeps_dirs.
Qed.

Lemma os_MkdirAll_keeps_files (fs fs' : filesystem) (p q : path) (c : list Byte.byte) :
  os_MkdirAll fs p = Some fs' -> fs !! q = Some (File c) -> fs' !! q = Some (File c).
Proof.
  unfold os_MkdirAll. destruct (existsb _ _) eqn:Hfile; [discriminate|]. intros [= <-] Hq.
  rewrite foldl_mkdir. destruct (decide (q ∈ prefixes p)) as [Hin|]; [|exact Hq].
  exfalso. apply not_true_iff_false in Hfile. apply Hfile, existsb_exists.
  exists q. split; [by apply list_elem_of_In|]. unfold is_file. by rewrite Hq.
Qed.

(** Extraction never removes a file nor puts a directory in its place. *)
Lemma unzip_entries_keeps_files (destDir : path) (entries : list zip_entry)
    (fs : filesystem) (q : path) :
  is_file fs q = true -> is_file (unzip_entries destDir entries fs).1 q = true.
Proof.
  revert fs. induction entries as [|f entries IH]; intros fs Hq; cbn [unzip_entries]; [exact Hq|].
  assert (Hmk : forall p fs', os_MkdirAll fs p = Some fs' -> is_file fs' q = true).
  { intros p fs' Hmk. unfold is_file in Hq |- *.
    destruct (fs !! q) as [[c|]|] eqn:Hfs; try discriminate.
    by rewrite (os_MkdirAll_keeps_files _ _ _ _ _ Hmk Hfs). }
  assert (Hwr : forall fs' p bs, is_file fs' q = true -> is_file (file_Write fs' p bs) q = true).
  { intros fs' p bs Hf. unfold file_Write. destruct (fs' !! p) as [[c|]|] eqn:Hp; try exact Hf.
    unfold is_file. destruct (decide (q = p)) as [->|Hne].
    - by rewrite lookup_insert_eq.
    - rewrite lookup_insert_ne by congruence. exact Hf. }
  destruct (ze_IsDir f).
  - apply IH. destruct (os_MkdirAll fs _) as [fs'|] eqn:Hmade; cbn; [|exact Hq].
    eapply Hmk; eauto.
  - destruct (os_MkdirAll fs _) as [fs1|] eqn:Hmade; [|exact Hq].
    pose proof (Hmk _ _ Hmade) as Hq1.
    destruct (os_Create fs1 _) as [fs2|] eqn:Hcr; [|exact Hq1].
    assert (Hq2 : is_file fs2 q = true).
    { revert Hcr. unfold os_Create.
      match goal with |- context [match ?p with [] => _ | _ => _ end] => destruct p eqn:Hp end;
        [discriminate|].
      destruct (_ && _); [|discriminate]. intros [= <-]. unfold is_file.
      match goal with |- context [<[?p := _]> _] => destruct (decide (q = p)) as [->|Hne] end.
      - by rewrite lookup_insert_eq.
      - rewrite lookup_insert_ne by congruence. exact Hq1. }
    destruct (ze_read f); cbn [fst]; [|exact Hq2|].
    + apply IH. by apply Hwr.
    + by apply Hwr.
Qed.

Lemma removelast_cons2 (a : string) (rest : path) :
  rest <> [] -> removelast (a :: rest) = a :: removelast rest.
Proof. destruct rest; [contradiction | reflexivity]. Qed.

(** After a successful extraction, the top directory of every extracted
    file exists. *)
Lemma unzip_entries_makes_top_dir (destDir : path) (entries : list zip_entry)
    (fs : filesystem) (f : zip_entry) (name : string) (rest : path) :
  In f entries -> ze_IsDir f = false -> ze_Name f = name :: rest -> rest <> [] ->
  Forall (fun c => is_name c = true) (ze_Name f) ->
  filepath_Clean destDir = destDir ->
  (unzip_entries destDir entries fs).2 = true ->
  (unzip_entries destDir entries fs).1 !! (destDir ++ [name]) = Some Dir.
Proof.
  intros Hin Hfile Hname Hrest Hnames Hclean. revert fs.
  induction entries as [|f0 entries IH]; intros fs; [destruct Hin|].
  cbn [unzip_entries]. destruct Hin as [->|Hin].
  - rewrite Hfile. unfold filepath_Join.
    rewrite (filepath_Clean_app_names _ _ Hnames), Hclean, Hname. unfold filepath_Dir.
    destruct (os_MkdirAll fs _) as [fs1|] eqn:Hmk; [|discriminate].
    assert (Hq1 : fs1 !! (destDir ++ [name]) = Some Dir).
    { destruct (os_MkdirAll_spec _ _ _ Hmk) as [Hmade _]. apply Hmade. unfold prefixes.
      change (destDir ++ [name]) with ([] ++ (destDir ++ [name])).
      apply prefixes_from_elem; [by destruct destDir|].
      rewrite removelast_app by discriminate.
      apply prefix_app. rewrite removelast_cons2 by exact Hrest.
      apply prefix_cons, prefix_nil. }
    destruct (os_Create fs1 _) as [fs2|] eqn:Hcr; [|discriminate].
    assert (Hq2 : fs2 !! (destDir ++ [name]) = Some Dir) by (eapply os_Create_keeps_dirs; eauto).
    destruct (ze_read f); cbn [fst snd]; [|discriminate..].
    intros _. apply unzip_entries_keeps_dirs. by apply file_Write_keeps_dirs.
  - specialize (IH Hin). destruct (ze_IsDir f0); [apply IH|].
    destruct (os_MkdirAll _ _) as [fs1|]; [|discriminate].
    destruct (os_Create _ _) as [fs2|]; [|discriminate].
    destruct (ze_read f0); cbn [fst snd]; [apply IH | discriminate..].
Qed.

Context (e : env) (m : Manager) (info : ModelInfo) (progress : bool).

(** X23. A successful [Download] of an archive that was not downloaded
    has read an archive out of exactly the bytes of the response body,
    and when that archive holds a file below the directory named by the
    model, under a name none of whose components is empty, ["."] or
    [".."], the model is downloaded afterwards. *)
Theorem archive_success_installs_directory (w : world) :
  IsZip info = true ->
  IsDownloaded (dir_size e) m (w_fs w) info = false ->
  (Download e m info progress w).2 = None ->
  exists resp entries,
    http_Do e = Some resp /\
    zip_OpenReader e (concat (chunks (Body resp)) ++ last_chunk (Body resp)) = Some entries /\
    ((exists f rest, In f entries /\ ze_IsDir f = false /\
                     ze_Name f = Filename info :: rest /\ rest <> [] /\
                     Forall (fun c => is_name c = true) (ze_Name f)) ->
     IsDownloaded (dir_size e) m (w_fs (Download e m info progress w).1) info = true).
Proof.
  intros Hzip Hd. unfold Download. rewrite Hd, Hzip. unfold downloadAndUnzip, os_CreateTemp.
  destruct (temp_zip e) as [tmpPath|]; [|discriminate].
  destruct (decide (w_fs w !! tmpPath = None)); [|discriminate].
  destruct (downloadAndUnzip_body _ _ _ _ _ _) as [w' r] eqn:Hbody. cbn [fst snd set_fs w_fs].
  intros ->. revert Hbody. unfold downloadAndUnzip_body.
  destruct (new_request_ok e); cbn [negb]; [|discriminate].
  destruct (http_Do e) as [resp|]; [|discriminate].
  destruct (StatusCode resp =? 200); cbn [negb]; [|discriminate].
  set (w1 := request (set_fs w (<[tmpPath := File []]> (w_fs w))) (URL info)).
  destruct (transfer_fs e info progress (Body resp) tmpPath (total_of info resp)
              (chunks (Body resp)) 0 0 w1 [])
    as (_ & _ & Hok); [subst w1; cbn; by rewrite lookup_insert_eq|].
  destruct (transfer _ _ _ _ _ _ _ _ _ _) as [w2 r2]. cbn [fst snd] in Hok.
  destruct r2 as [err|]; [discriminate|]. specialize (Hok eq_refl). cbn [app] in Hok.
  unfold unzip. rewrite Hok.
  destruct (zip_OpenReader e _) as [entries|] eqn:Hzipped; [|discriminate].
  destruct (unzip_entries _ entries (w_fs w2)) as [fs3 ok] eqn:Hunzip.
  destruct ok; [|discriminate]. intros [= <-].
  exists resp, entries. split; [reflexivity|]. split; [exact Hzipped|].
  intros (f & rest & Hin & Hfile & Hname & Hrest & Hnames).
  assert (Hfn : is_name (Filename info) = true).
  { rewrite Hname in Hnames. by apply Forall_cons in Hnames as [Hfn _]. }
  destruct (GetModelPath_shape m info Hfn) as (dir & Hpath & Hclean).
  assert (Hparent : filepath_Dir (GetModelPath m info) = dir)
    by (unfold filepath_Dir; rewrite Hpath; apply removelast_last).
  pose proof (unzip_entries_makes_top_dir (filepath_Dir (GetModelPath m info)) entries
                (w_fs w2) f (Filename info) rest Hin Hfile Hname Hrest Hnames
                ltac:(rewrite Hparent; exact Hclean)) as Hdir.
  rewrite Hunzip in Hdir. cbn [fst snd] in Hdir. specialize (Hdir eq_refl).
  rewrite Hparent, <- Hpath in Hdir.
  pose proof (unzip_entries_keeps_files (filepath_Dir (GetModelPath m info)) entries
                (w_fs w2) tmpPath) as Htmp.
  rewrite Hunzip in Htmp. cbn [fst] in Htmp. unfold is_file in Htmp.
  rewrite Hok in Htmp. specialize (Htmp eq_refl).
  assert (Hfs : forall p : world, w_fs (send progress p
            {| ModelID := ID info; Downloaded := total_of info resp;
               Total := total_of info resp; Done := true |}) = w_fs p)
    by (intros p; apply send_keeps_disk).
  unfold IsDownloaded, os_Stat. rewrite Hfs. cbn [set_fs w_fs].
  assert (Hafter : os_Remove fs3 tmpPath !! GetModelPath m info = Some Dir).
  { rewrite os_Remove_other; [exact Hdir|]. intros Heq. rewrite <- Heq in Htmp.
    change (fs3 !! GetModelPath m info = Some Dir) in Hdir. rewrite Hdir in Htmp.
    discriminate. }
  rewrite Hafter, Hzip. reflexivity.
Qed.

End ArchiveFacts.

Lemma archive_success_installs_directory_witness :
  let e := scenario.serve 3 scenario.three_bytes (Some scenario.small_archive) in
  let w := scenario.fresh_world scenario.bare_disk in
  models.IsDownloaded (models.dir_size e) scenario.the_manager (models.w_fs w)
    scenario.vosk_small = false /\
  (models.Download e scenario.the_manager scenario.vosk_small true w).2 = None /\
  models.IsDownloaded (models.dir_size e) scenario.the_manager
    (models.w_fs (models.Download e scenario.the_manager scenario.vosk_small true w).1)
    scenario.vosk_small = true.
Proof.
  intros e w.
  assert (Hd : models.IsDownloaded (models.dir_size e) scenario.the_manager (models.w_fs w)
                 scenario.vosk_small = false) by (vm_compute; reflexivity).
  assert (Hok : (models.Download e scenario.the_manager scenario.vosk_small true w).2 = None)
    by (vm_compute; reflexivity).
  destruct (archive_success_installs_directory e scenario.the_manager scenario.vosk_small
              true w eq_refl Hd Hok) as (resp & entries & Hdo & Hzip & Hin).
  split; [exact Hd|]. split; [exact Hok|]. apply Hin.
  injection Hdo as <-. vm_compute in Hzip. injection Hzip as <-.
  eexists _, ["README"]. split; [right; left; reflexivity|].
  split; [reflexivity|]. split; [reflexivity|]. split; [discriminate|].
  repeat constructor.
Defined.

(** Without that condition on the names the model can be missing after
    a successful download: [filepath.Join] cleans the entry's name, the
    file lands beside the model's directory, and the directory is never
    made. *)
Lemma escaping_entry_leaves_model_missing :
  let e := scenario.serve 3 scenario.three_bytes (Some scenario.escaping_archive) in
  let w := scenario.fresh_world scenario.bare_disk in
  let w' := (models.Download e scenario.the_manager scenario.vosk_small true w).1 in
  (models.Download e scenario.the_manager scenario.vosk_small true w).2 = None /\
  models.w_fs w' !! ["opt"; "shofar"; "models"; "vosk"; "escaped.txt"]
  = Some (File [Byte.x68; Byte.x69]) /\
  models.IsDownloaded (models.dir_size e) scenario.the_manager (models.w_fs w')
    scenario.vosk_small = false.
Proof. vm_compute. repeat split. Qed.

(** ** Notifications, settings and the hotkey listener *)

Section NotifyFacts.
Import notify.

Context (T : string -> string).

Lemma length_append (s t : string) :
  String.length (s +:+ t) = (String.length s + String.length t)%nat.
Proof.
  induction s as [|c s IH]; [reflexivity|].
  change (String c s +:+ t) with (String c (s +:+ t)). cbn. by rewrite IH.
Qed.

Lemma length_substring (n : nat) (s : string) :
  (n <= String.length s)%nat -> String.length (String.substring 0 n s) = n.
Proof.
  revert s. induction n as [|n IH]; intros s Hn.
  - destruct s; reflexivity.
  - destruct s as [|c s]; cbn in Hn; [lia|]. cbn. rewrite IH by lia. reflexivity.
Qed.

Lemma shorten_spec (text : string) :
  (String.length (shorten text) <= 103)%nat /\
  ((String.length text <= 100)%nat -> shorten text = text) /\
  ((100 < String.length text)%nat ->
   shorten text = String.substring 0 100 text +:+ "...").
Proof.
  unfold shorten. destruct (100 <? String.length text)%nat eqn:Hlong.
  - apply Nat.ltb_lt in Hlong. split; [|split; [lia | reflexivity]].
    rewrite length_append, length_substring by lia. cbn. lia.
  - apply Nat.ltb_ge in Hlong. split; [lia|]. split; [reflexivity | lia].
Qed.

Lemma notify_spec (n : Notifier) (ttl msg : string) (p : popup) :
  p ∈ notify n ttl msg -> enabled n = true /\ message p = msg.
Proof.
  unfold notify. destruct (enabled n); cbn [negb]; [|by intros ?%elem_of_nil].
  destruct (negb _); intros ->%list_elem_of_singleton; split; reflexivity.
Qed.

(** X26. Whatever [Success] and [Info] show comes from a notifier that is
    switched on and is at most 103 bytes long: a text of at most 100
    bytes is shown as it is, a longer one is cut to its first 100 bytes
    followed by three dots. *)
Theorem Success_and_Info_bound_the_message (n : Notifier) (text : string) (p : popup) :
  p ∈ Success T n text ++ Info n text ->
  enabled n = true /\
  (String.length (message p) <= 103)%nat /\
  ((String.length text <= 100)%nat -> message p = text) /\
  ((100 < String.length text)%nat ->
   message p = String.substring 0 100 text +:+ "...").
Proof.
  intros Hp. assert (Hn : enabled n = true /\ message p = shorten text).
  { apply elem_of_app in Hp as [Hp|Hp]; eapply notify_spec; exact Hp. }
  destruct Hn as [Hen ->]. split; [exact Hen|]. apply shorten_spec.
Qed.

(** A notifier that is switched off shows nothing. *)
Lemma disabled_notifier_is_silent (n : Notifier) (text : string) :
  enabled n = false ->
  Recording T n = [] /\ Processing T n = [] /\ Success T n text = [] /\
  Empty T n = [] /\ Error T n text = [] /\ Info n text = [].
Proof.
  intros Hoff. unfold Recording, Processing, Success, Empty, Error, Info, notify.
  rewrite Hoff. repeat split.
Qed.

End NotifyFacts.

Lemma Success_and_Info_bound_the_message_witness :
  let n := {| notify.enabled := true |} in
  let p := {| notify.title := "Shofar: done"; notify.message := "hello" |} in
  p ∈ notify.Success (fun _ => "done") n "hello" ++ notify.Info n "hello" /\
  (String.length (notify.message p) <= 103)%nat.
Proof.
  intros n p.
  assert (Hp : p ∈ notify.Success (fun _ => "done") n "hello" ++ notify.Info n "hello")
    by (vm_compute; left).
  destruct (Success_and_Info_bound_the_message (fun _ => "done") n "hello" p Hp)
    as (_ & Hlen & _).
  exact (conj Hp Hlen).
Defined.

Section ConfigFacts.
Import config.

Lemma eqb_app_nonempty (s t : string) : t <> "" -> String.eqb (s +:+ t) "" = false.
Proof.
  intros Ht. apply String.eqb_neq. destruct s as [|c s]; [exact Ht|].
  change (String c s +:+ t) with (String c (s +:+ t)). discriminate.
Qed.

Lemma string_app_assoc (s t u : string) : (s +:+ t) +:+ u = s +:+ (t +:+ u).
Proof.
  induction s as [|c s IH]; [reflexivity|].
  change ((String c s +:+ t) +:+ u) with (String c ((s +:+ t) +:+ u)).
  change (String c s +:+ t +:+ u) with (String c (s +:+ t +:+ u)). by rewrite IH.
Qed.

(** The loop of [String], started from a text that ends a modifier. *)
Lemma String_from (mods : list Modifier) (key : Key) (result : string) :
  Forall (fun m => m <> "") mods -> result <> "" ->
  (if String.eqb (foldl add_modifier result mods) ""
   then foldl add_modifier result mods
   else foldl add_modifier result mods +:+ "+") +:+ key
  = result +:+ "+" +:+ foldr (fun m acc => m +:+ "+" +:+ acc) key mods.
Proof.
  revert result. induction mods as [|m mods IH]; intros result Hmods Hres; cbn [foldl foldr].
  - apply String.eqb_neq in Hres. rewrite Hres. by rewrite string_app_assoc.
  - apply Forall_cons in Hmods as [Hm Hmods].
    assert (Hstep : add_modifier result m = result +:+ "+" +:+ m).
    { unfold add_modifier. apply String.eqb_neq in Hres. rewrite Hres.
      by rewrite string_app_assoc. }
    rewrite (IH (add_modifier result m) Hmods).
    + rewrite Hstep, !string_app_assoc. reflexivity.
    + rewrite Hstep, <- string_app_assoc. intros Hempty.
      apply (f_equal (fun s => String.eqb s "")) in Hempty.
      rewrite eqb_app_nonempty in Hempty by exact Hm. discriminate.
Qed.

(** X27. When no modifier is the empty string, [HotkeyConfig.String] is
    the modifiers in order, each followed by a plus sign, and then the
    key. *)
Theorem String_joins_with_plus (h : HotkeyConfig) :
  Forall (fun m => m <> "") (Modifiers h) ->
  String_ h = foldr (fun m acc => m +:+ "+" +:+ acc) (Key_ h) (Modifiers h).
Proof.
  unfold String_. destruct (Modifiers h) as [|m mods]; intros Hmods; [reflexivity|].
  apply Forall_cons in Hmods as [Hm Hmods]. cbn [foldl foldr].
  replace (add_modifier "" m) with m by reflexivity.
  apply (String_from mods (Key_ h) m Hmods Hm).
Qed.

(** A string that is valid UTF-8 is read back as it was written. *)
Lemma coerce_valid (s : string) (skip : nat) :
  valid_from skip s = true -> coerce_from skip s = s.
Proof.
  revert skip. induction s as [|c s IH]; intros skip Hvalid; [reflexivity|].
  destruct skip as [|k].
  - cbn [valid_from coerce_from] in *.
    destruct (rune_width (String c s)) as [|w]; [discriminate|]. by rewrite IH.
  - cbn [valid_from coerce_from] in *. by rewrite IH.
Qed.

Lemma json_string_valid (s : string) : utf8_ValidString s = true -> json_string s = s.
Proof. apply coerce_valid. Qed.

(** A string that is not valid UTF-8 is not: each offending byte comes
    back as U+FFFD. *)
Lemma invalid_utf8_is_rewritten :
  utf8_ValidString scenario.broken_language = false /\
  language (load (written
    {| language := scenario.broken_language; uiLanguage := "ru"; notifications := true;
       hotkey := hotkey defaults; modelID := ""; llm := llm defaults |}) defaults)
  = replacement.
Proof. vm_compute. split; reflexivity. Qed.

(** X28. What [save] writes through [json.MarshalIndent], [load] reads
    back through [json.Unmarshal] as the same configuration, whatever the
    configuration loaded into held, provided every string of it is valid
    UTF-8 and the interface language, the key of the hotkey and the
    language model identifier are not empty. *)
Theorem saved_settings_load_back (c c0 : Config) :
  utf8_config c = true ->
  uiLanguage c <> "" -> Key_ (hotkey c) <> "" -> LLM_ModelID (llm c) <> "" ->
  load (written c) c0 = c.
Proof.
  intros Hutf Hui Hkey Hllm. unfold utf8_config in Hutf.
  repeat (apply andb_true_iff in Hutf as [Hutf ?]).
  assert (Hmods : json_string <$> Modifiers (hotkey c) = Modifiers (hotkey c)).
  { match goal with H : forallb _ _ = true |- _ => rename H into Hall end.
    induction (Modifiers (hotkey c)) as [|m mods IH]; [reflexivity|].
    cbn [forallb] in Hall. apply andb_true_iff in Hall as [Hm Hall].
    cbn [fmap list_fmap]. rewrite (json_string_valid m Hm). f_equal. apply IH, Hall. }
  unfold written, load, save, json_round_trip.
  cbn [d_Language d_UILanguage d_Notifications d_Hotkey d_ModelID d_LLM Key_ Modifiers
       Enabled LLM_ModelID].
  rewrite Hmods, !json_string_valid by assumption.
  apply String.eqb_neq in Hui, Hkey, Hllm. rewrite Hui, Hkey, Hllm.
  destruct c as [? ? ? [] ? []]. reflexivity.
Qed.

(** A blank interface language, hotkey key or language model identifier
    does not survive: [load] keeps what the configuration had. *)
Lemma saved_blank_settings_are_replaced (c c0 : Config) :
  (uiLanguage c = "" -> uiLanguage (load (written c) c0) = uiLanguage c0) /\
  (Key_ (hotkey c) = "" -> hotkey (load (written c) c0) = hotkey c0) /\
  (LLM_ModelID (llm c) = "" ->
   LLM_ModelID (llm (load (written c) c0)) = LLM_ModelID (llm c0)).
Proof.
  unfold written, load, save, json_round_trip; cbn. repeat split; intros ->; reflexivity.
Qed.

End ConfigFacts.

Lemma String_joins_with_plus_witness :
  Forall (fun m => m <> "") (config.Modifiers (config.hotkey config.defaults)) /\
  config.String_ (config.hotkey config.defaults) = "ctrl+shift+space".
Proof.
  assert (Hmods : Forall (fun m => m <> "") (config.Modifiers (config.hotkey config.defaults)))
    by (repeat constructor; discriminate).
  split; [exact Hmods|].
  rewrite (String_joins_with_plus (config.hotkey config.defaults) Hmods). reflexivity.
Defined.

Lemma saved_settings_load_back_witness :
  config.utf8_config scenario.saved_settings = true /\
  config.uiLanguage scenario.saved_settings <> "" /\
  config.load (config.written scenario.saved_settings) config.defaults
  = scenario.saved_settings.
Proof.
  assert (Hutf : config.utf8_config scenario.saved_settings = true)
    by (vm_compute; reflexivity).
  assert (Hui : config.uiLanguage scenario.saved_settings <> "") by discriminate.
  assert (Hkey : config.Key_ (config.hotkey scenario.saved_settings) <> "") by discriminate.
  assert (Hllm : config.LLM_ModelID (config.llm scenario.saved_settings) <> "")
    by discriminate.
  split; [exact Hutf|]. split; [exact Hui|].
  exact (saved_settings_load_back scenario.saved_settings config.defaults Hutf Hui Hkey Hllm).
Defined.

Section HotkeyFacts.
Import hotkey.

Lemma since_debounced (last now : Z) :
  (since (Some last) now <? debounceInterval) = false -> debounceInterval <= now - last.
Proof.
  unfold since, debounceInterval, min_int64, max_int64. intros H%Z.ltb_ge. lia.
Qed.

Lemma listen_from_head (last : Z) (signals : list signal) (b : Z) (rest : list Z) :
  listen_from (Some last) signals = b :: rest -> debounceInterval <= b - last.
Proof.
  induction signals as [|sg signals IH]; [discriminate|].
  destruct sg; cbn [listen_from]; try discriminate; [|exact IH].
  destruct (since (Some last) now <? debounceInterval) eqn:Hs; [exact IH|].
  intros [= -> _]. by apply since_debounced.
Qed.

Lemma listen_from_spaced (last : option Z) (signals : list signal) :
  spaced (listen_from last signals).
Proof.
  revert last. induction signals as [|sg signals IH]; intros last; [exact I|].
  destruct sg; cbn [listen_from]; try exact I; [|apply IH].
  destruct (since last now <? debounceInterval); [apply IH|].
  specialize (IH (Some now)). destruct (listen_from (Some now) signals) as [|b rest] eqn:Hl; [exact I|].
  split; [|exact IH]. eapply listen_from_head. exact Hl.
Qed.


(** X29. Whatever the listener receives, the presses it passes on are at
    least [debounceInterval] (300 ms) apart, and the first key-down is
    always passed on. *)
Theorem presses_are_debounced (signals : list signal) :
  spaced (listen signals) /\
  (forall t rest, signals = Keydown t :: rest -> exists more, listen signals = t :: more).
Proof.
  split; [apply listen_from_spaced|]. intros t rest ->. unfold listen. cbn.
  eexists. reflexivity.
Qed.


End HotkeyFacts.

